(** * son-validate: the validation orchestrator of son-cli

    A shallow embedding of [src/son/validate/validate.py] (class
    [Validator]) together with the parts of its collaborators that the
    orchestrator drives: Python values and truthiness, the logging
    output, the networkx 1.x [Graph] the topology stage works on, and
    the descriptor store as an interface. *)

From Stdlib Require Import String Ascii List Bool Arith Lia ZArith.
Import ListNotations.
Open Scope string_scope.
Open Scope list_scope.

Set Implicit Arguments.

(* ------------------------------------------------------------------ *)
(** ** Python values *)

(** Values read from a YAML descriptor or passed as loosely typed
    arguments. *)
#[warnings="-register-all"]
Inductive pyval :=
| PNone
| PBool (b : bool)
| PInt (z : Z)
| PStr (s : string)
| PList (l : list pyval)
| PDict (d : list (string * pyval)).

(** Python truth value testing ([if x:], [not x], [x and y]). *)
Definition truthy (v : pyval) : bool :=
  match v with
  | PNone => false
  | PBool b => b
  | PInt z => negb (Z.eqb z 0)
  | PStr s => negb (String.eqb s "")
  | PList l => match l with [] => false | _ => true end
  | PDict d => match d with [] => false | _ => true end
  end.

(** Truth value of a [str]. *)
Definition str_truthy (s : string) : bool := negb (String.eqb s "").

(** Uncaught exceptions the orchestrator can run into. *)
Inductive exn :=
| KeyError
| TypeError
| IndexError
| ValueError
| AttributeError
| NetworkXError
| NetworkXPointlessConcept.

(** The result of an expression that may raise. *)
Inductive res (A : Type) :=
| Val (a : A)
| Err (e : exn)
| Fuel.

Arguments Val {A} a.
Arguments Err {A} e.
Arguments Fuel {A}.

(** [key in d] and [d[key]] on a dict. *)
Fixpoint dict_get {V : Type} (d : list (string * V)) (k : string) : option V :=
  match d with
  | [] => None
  | (k', v) :: r => if String.eqb k k' then Some v else dict_get r k
  end.

Definition dict_has {V : Type} (d : list (string * V)) (k : string) : bool :=
  match dict_get d k with Some _ => true | None => false end.

(** [x in l] for a list of strings. *)
Definition str_in (x : string) (l : list string) : bool :=
  existsb (String.eqb x) l.

(** [v[key]] for an arbitrary value: only a dict can be indexed by a
    string. *)
Definition subscript (v : pyval) (k : string) : res pyval :=
  match v with
  | PDict d => match dict_get d k with Some x => Val x | None => Err KeyError end
  | _ => Err TypeError
  end.

(** The items a [for] loop draws from a value; [None], numbers and
    booleans are not iterable. *)
Definition iterate (v : pyval) : res (list pyval) :=
  match v with
  | PList l => Val l
  | PDict d => Val (map (fun kv => PStr (fst kv)) d)
  | PStr s => Val (map (fun c => PStr (String c EmptyString)) (list_ascii_of_string s))
  | _ => Err TypeError
  end.

(** [s.split(sep)] for a one-character separator. *)
Fixpoint split_on (sep : ascii) (s : string) : list string :=
  match s with
  | EmptyString => [EmptyString]
  | String c r =>
      if Ascii.eqb c sep then EmptyString :: split_on sep r
      else match split_on sep r with
           | t :: ts => String c t :: ts
           | [] => [String c EmptyString]
           end
  end.

(** [Validator.CXPT_KEY_SEPARATOR]; the integrity checks split on the
    literal [':']. *)
Definition CXPT_KEY_SEPARATOR : ascii := ":"%char.

Definition split_key (iface : string) : list string :=
  split_on CXPT_KEY_SEPARATOR iface.

(** Whether a string contains a given character. *)
Fixpoint has_char (c : ascii) (s : string) : bool :=
  match s with
  | EmptyString => false
  | String c' r => Ascii.eqb c' c || has_char c r
  end.

(* ------------------------------------------------------------------ *)
(** ** networkx 1.x graphs

    [nx.Graph] keeps [adj], a dict from node to the dict of its
    neighbours; dicts enumerate in insertion order.  Nodes are
    connection point keys. *)

Definition node := string.

Definition Graph := list (node * list node).

Definition empty_graph : Graph := [].

(** [G.nodes()] *)
Definition nodes (g : Graph) : list node := map fst g.

(** [G.has_node(n)] *)
Definition has_node (g : Graph) (n : node) : bool := str_in n (nodes g).

(** [G.neighbors(n)]: a fresh list; raises for an unknown node. *)
Definition neighbors (g : Graph) (n : node) : res (list node) :=
  match dict_get g n with
  | Some l => Val l
  | None => Err NetworkXError
  end.

(** [G.has_edge(u, v)] *)
Definition has_edge (g : Graph) (u v : node) : bool :=
  match dict_get g u with
  | Some l => str_in v l
  | None => false
  end.

(** [G.add_node(n)] *)
Definition add_node (g : Graph) (n : node) : Graph :=
  if has_node g n then g else g ++ [(n, [])].

(** [adj[u][v] = {}]: a new neighbour goes last, a known one stays. *)
Fixpoint link_to (g : Graph) (u v : node) : Graph :=
  match g with
  | [] => []
  | (k, l) :: r =>
      if String.eqb u k
      then (k, if str_in v l then l else l ++ [v]) :: r
      else (k, l) :: link_to r u v
  end.

(** [G.add_edge(u, v)] *)
Definition add_edge (g : Graph) (u v : node) : Graph :=
  link_to (link_to (add_node (add_node g u) v) u v) v u.

(** [G.add_edges_from(ebunch)] *)
Definition add_edges_from (g : Graph) (es : list (node * node)) : Graph :=
  fold_left (fun acc e => add_edge acc (fst e) (snd e)) es g.

(** [zip(nlist[:-1], nlist[1:])] *)
Fixpoint pairwise (l : list node) : list (node * node) :=
  match l with
  | a :: ((b :: _) as r) => (a, b) :: pairwise r
  | _ => []
  end.

(** [G.add_path(nodes)] (networkx 1.x: only the edges are added, so a
    path of fewer than two nodes adds nothing). *)
Definition add_path (g : Graph) (nlist : list node) : Graph :=
  add_edges_from g (pairwise nlist).

(** [l.index(x)] *)
Fixpoint index_of (x : node) (l : list node) : option nat :=
  match l with
  | [] => None
  | y :: r => if String.eqb x y then Some 0
              else match index_of x r with Some i => Some (S i) | None => None end
  end.

(** [l.pop(l.index(x))]: the list without the first occurrence of [x];
    [ValueError] when [x] is not in the list. *)
Fixpoint remove_first (x : node) (l : list node) : res (list node) :=
  match l with
  | [] => Err ValueError
  | y :: r => if String.eqb x y then Val r
              else match remove_first x r with
                   | Val r' => Val (y :: r')
                   | Err e => Err e
                   | Fuel => Fuel
                   end
  end.

(** Nodes reachable from the seeds in at most [k] further hops
    ([_plain_bfs]). *)
Fixpoint reach (k : nat) (g : Graph) (seen : list node) : list node :=
  match k with
  | O => seen
  | S k' =>
      let next := flat_map (fun n => match dict_get g n with
                                     | Some l => l | None => [] end) seen in
      reach k' g (seen ++ filter (fun n => negb (str_in n seen)) next)
  end.

(** [nx.is_connected(G)]: undefined (raises) on the null graph,
    otherwise whether a search from the first node reaches every node. *)
Definition is_connected (g : Graph) : res bool :=
  match nodes g with
  | [] => Err NetworkXPointlessConcept
  | n :: _ => Val (forallb (fun x => str_in x (reach (length g) g [n])) (nodes g))
  end.

(* ------------------------------------------------------------------ *)
(** ** Cycle detection *)

(** [Validator._find_graph_cycles(graph, node, prev_node, backtrace)].
    [prev_node] is [None] or a node and is tested for truth;
    [backtrace] is [None] or a list and an empty one is replaced by a
    fresh list, so a list stands for both.  The result is [None] or a
    list of nodes.  [fuel] bounds the recursion depth. *)
Fixpoint find_graph_cycles_rec (fuel : nat) (graph : Graph) (nd : node)
         (prev_node : option node) (backtrace : list node)
  : res (option (list node)) :=
  match fuel with
  | O => Fuel
  | S fuel' =>
      (* get node's neighbors *)
      match neighbors graph nd with
      | Err e => Err e
      | Fuel => Fuel
      | Val nbrs =>
          (* remove previous node from neighbors *)
          let popped :=
            match prev_node with
            | Some p => if str_truthy p then remove_first p nbrs else Val nbrs
            | None => Val nbrs
            end in
          match popped with
          | Err e => Err e
          | Fuel => Fuel
          | Val nbrs' =>
              (* ensure node has neighbors *)
              if negb (Nat.ltb 0 (length nbrs')) then Val None
              else
                (* check is this node was already visited *)
                match index_of nd backtrace with
                | Some i => Val (Some (skipn i backtrace))
                | None =>
                    (* mark this node as visited and trace it *)
                    let backtrace' := backtrace ++ [nd] in
                    (* iterate through neighbor nodes *)
                    match nbrs' with
                    | neighbor :: _ =>
                        find_graph_cycles_rec fuel' graph neighbor (Some nd) backtrace'
                    | [] => Val (Some backtrace')
                    end
                end
          end
      end
  end.

(** The call as the validator makes it: [_find_graph_cycles(graph, node)].
    Every step that recurses records a node of the graph that was not
    yet in the trace, so one more step than there are nodes is enough
    (see [find_graph_cycles_total]). *)
Definition _find_graph_cycles (graph : Graph) (nd : node) : res (option (list node)) :=
  find_graph_cycles_rec (S (length graph)) graph nd None [].

(** [cycles and len(cycles) > 0] *)
Definition cycles_found (cycles : option (list node)) : bool :=
  match cycles with
  | Some (_ :: _) => true
  | _ => false
  end.

(* ------------------------------------------------------------------ *)
(** ** Entities of the descriptor store *)

(** A virtual link: [link.iface_pair] is the ordered pair of the
    connection point keys it joins. *)
Record Link := mkLink { iface_pair : string * string }.

Definition pair_items (l : Link) : list string :=
  [fst (iface_pair l); snd (iface_pair l)].

Module Function.
(** A function (VNF): [units], [interfaces] and [links] are the keys
    and items of the dicts the loaders fill. *)
Record t := mk {
  id : string;
  filename : string;
  content : list (string * pyval);
  interfaces : list string;
  units : list string;
  links : list (string * Link);
  graph : Graph
}.
End Function.

Module Service.
Record t := mk {
  id : string;
  content : list (string * pyval);
  functions : list (string * Function.t);
  interfaces : list string;
  links : list (string * Link);
  fw_paths : list (string * list string);
  graph : Graph
}.
End Service.

(** What the validator reads of a [Project]. *)
Module Project.
Record t := mk {
  project_root : string;
  vnfd_root : string;
  descriptor_extension : string;
  get_ns_descriptor : list string
}.
End Project.

(** What the validator reads of a [Workspace]. *)
Module Workspace.
Record t := mk {
  default_descriptor_extension : string;
  log_level : string
}.

(** [Workspace('.', log_level=log_level)] after [load_default_config]. *)
Definition virtual (log_level : string) : t := mk "yml" log_level.
End Workspace.

Inductive schema_kind := SCHEMA_SERVICE_DESCRIPTOR | SCHEMA_FUNCTION_DESCRIPTOR.

(** The collaborators whose code lies outside [validate.py]: the file
    system helpers of [son.validate.util], the schema validator, and the
    [DescriptorStorage] with the methods of its entities.  A method that
    fills its entity in place and answers with a bool yields the answer
    and the entity afterwards. *)
Class Externals := mkExternals {
  isdir : string -> bool;
  list_files : string -> string -> list string;
  read_descriptor_files : list string -> list (string * string);
  build_descriptor_id : pyval -> pyval -> pyval -> string;
  schema_validate : list (string * pyval) -> schema_kind -> bool;
  create_service : pyval -> option Service.t;
  create_function : string -> option Function.t;
  service_load_interfaces : Service.t -> bool * Service.t;
  service_load_links : Service.t -> bool * Service.t;
  service_load_forwarding_paths : Service.t -> bool * Service.t;
  service_build_topology_graph : Service.t -> Service.t;
  service_trace_path : Service.t -> list string -> list string;
  service_mapped_function : Service.t -> string -> option Function.t;
  service_associate_function : Service.t -> option Function.t -> pyval -> Service.t;
  function_load_interfaces : Function.t -> bool * Function.t;
  function_load_units : Function.t -> bool * Function.t;
  function_load_unit_interfaces : Function.t -> bool * Function.t;
  function_load_links : Function.t -> bool * Function.t;
  function_build_topology_graph : Function.t -> Function.t
}.

(* ------------------------------------------------------------------ *)
(** ** Logging *)

Inductive level := STDOUT | DEBUG | INFO | WARNING | ERROR | CRITICAL.

(** One constructor per logging call of [validate.py], with the values
    its message is formatted from. *)
Inductive message :=
| ScopeUndetermined
| IntegrityWithoutSyntax
| TopologyWithoutIntegrity
| InvalidServiceParameters
| ValidatingProject (project_root : string)
| Stages (syntax integrity topology : bool)
| LoadingProjectService
| MultipleServiceDescriptors (project_root : string) (nsd_files : list string)
| ValidatingService (nsd_file : pyval)
| ServiceReadFailed (nsd_file : pyval)
| ValidatingFunctionsInPath (vnfd_path : string)
| ValidatingFunction (vnfd_path : string)
| FunctionStoreFailed (vnfd_path : string)
| ServiceSyntax (sid : string)
| ServiceSyntaxInvalid (sid : string)
| FunctionSyntax (fid : string)
| FunctionSyntaxInvalid (fid : string)
| ServiceIntegrity (sid : string)
| ServiceFunctionsFailed
| ServiceInterfacesFailed (sid : string)
| ServiceLinksFailed (sid : string)
| ConnectionPointUndefined (iface lid : string)
| LinkFunctionUndefined (vnf_id iface lid : string)
| FunctionIntegrity (fid : string)
| FunctionInterfacesFailed (fid : string)
| FunctionUnitsFailed (fid : string)
| FunctionUnitInterfacesFailed (fid : string)
| FunctionLinksFailed (fid : string)
| PrintUnits (keys : list string)
| UnitUndefined (iface lid unit : string)
| ServiceTopology (sid : string)
| ServiceGraphBuilt (sid : string)
| GraphConnected (sid : string)
| GraphDisconnected (sid : string)
| ForwardingPathsFailed
| ForwardingPathInvalid (fpid : string) (breakpoints : nat) (trace : list string)
| ForwardingPathCycles (fpid : string) (cycles : list node)
| FunctionTopology (fid : string)
| FunctionGraphBuilt (fid : string)
| FunctionCycles (fid : string) (cycles : list node)
| LoadingFunctions
| FoundDescriptors (count : nat) (vnfd_files : list string) (dpath : string)
| MissingNetworkFunctions
| NoDescriptorsFound (dpath : string)
| DescriptorNotFound (fid dpath : string).

(* ------------------------------------------------------------------ *)
(** ** The validator and the process it runs in *)

(** The instance fields of [Validator] that hold values; the workspace,
    storage and schema validator objects are the [Externals]. *)
Record Validator := mkValidator {
  _log_level : string;
  _syntax : bool;
  _integrity : bool;
  _topology : bool;
  _dext : string;
  _dpath : string;
  _warnings_count : nat
}.

(** [Validator.__init__(workspace)] *)
Definition Validator_init (workspace : Workspace.t) : Validator :=
  {| _log_level := Workspace.log_level workspace;
     _syntax := true;
     _integrity := true;
     _topology := true;
     _dext := Workspace.default_descriptor_extension workspace;
     _dpath := ".";
     _warnings_count := 0 |}.

(** The [warnings_count] property. *)
Definition warnings_count (self : Validator) : nat := _warnings_count self.

(** The instance together with what a call leaves behind outside of it:
    the verbosity set on [coloredlogs], the records handed to the
    logger (and lines printed), and the graph files written. *)
Record Process := mkProcess {
  self : Validator;
  verbosity : pyval;
  records : list (level * message);
  graphml : list (string * Graph)
}.

(** How a call ends: it returns, the interpreter exits ([sys.exit]), an
    exception escapes, or the recursion budget of the model runs out. *)
Inductive outcome (A : Type) :=
| Ok (a : A) (p : Process)
| Exit (code : Z) (p : Process)
| Raise (e : exn) (p : Process)
| Diverge.

Arguments Ok {A} a p.
Arguments Exit {A} code p.
Arguments Raise {A} e p.
Arguments Diverge {A}.

Definition M (A : Type) : Type := Process -> outcome A.

Definition ret {A} (a : A) : M A := fun p => Ok a p.

Definition bind {A B} (m : M A) (k : A -> M B) : M B :=
  fun p => match m p with
           | Ok a p' => k a p'
           | Exit c p' => Exit c p'
           | Raise e p' => Raise e p'
           | Diverge => Diverge
           end.

Declare Scope py_scope.
Delimit Scope py_scope with py.
Notation "x <- m ;; k" := (bind m (fun x => k))
  (at level 100, m at next level, right associativity) : py_scope.
Notation "m ;; k" := (bind m (fun _ => k))
  (at level 100, right associativity) : py_scope.
Open Scope py_scope.

(** Reading an attribute of [self]. *)
Definition read {A} (field : Validator -> A) : M A := fun p => Ok (field (self p)) p.

(** Assigning to an attribute of [self]. *)
Definition write (assign : Validator -> Validator) : M unit :=
  fun p => Ok tt (mkProcess (assign (self p)) (verbosity p) (records p) (graphml p)).

Definition set_syntax (b : bool) (v : Validator) : Validator :=
  mkValidator (_log_level v) b (_integrity v) (_topology v) (_dext v) (_dpath v)
              (_warnings_count v).

Definition set_integrity (b : bool) (v : Validator) : Validator :=
  mkValidator (_log_level v) (_syntax v) b (_topology v) (_dext v) (_dpath v)
              (_warnings_count v).

Definition set_topology (b : bool) (v : Validator) : Validator :=
  mkValidator (_log_level v) (_syntax v) (_integrity v) b (_dext v) (_dpath v)
              (_warnings_count v).

Definition set_dext (s : string) (v : Validator) : Validator :=
  mkValidator (_log_level v) (_syntax v) (_integrity v) (_topology v) s (_dpath v)
              (_warnings_count v).

Definition set_dpath (s : string) (v : Validator) : Validator :=
  mkValidator (_log_level v) (_syntax v) (_integrity v) (_topology v) (_dext v) s
              (_warnings_count v).

Definition set_warnings_count (n : nat) (v : Validator) : Validator :=
  mkValidator (_log_level v) (_syntax v) (_integrity v) (_topology v) (_dext v) (_dpath v) n.

Definition log (l : level) (m : message) : M unit :=
  fun p => Ok tt (mkProcess (self p) (verbosity p) (records p ++ [(l, m)]) (graphml p)).

Definition set_level (v : pyval) : M unit :=
  fun p => Ok tt (mkProcess (self p) v (records p) (graphml p)).

Definition write_graphml (g : Graph) (name : string) : M unit :=
  fun p => Ok tt (mkProcess (self p) (verbosity p) (records p) (graphml p ++ [(name, g)])).

Definition sys_exit {A} (code : Z) : M A := fun p => Exit code p.

Definition raise {A} (e : exn) : M A := fun p => Raise e p.

Definition out_of_fuel {A} : M A := fun _ => Diverge.

Definition eval {A} (r : res A) : M A :=
  match r with
  | Val a => ret a
  | Err e => raise e
  | Fuel => out_of_fuel
  end.

(** A [for] loop whose body may [return]: [Some v] is the value
    returned from inside the loop, [None] means the loop ran to its end
    (a body answering [None] falls through to the next item). *)
Fixpoint for_each {A R} (l : list A) (body : A -> M (option R)) : M (option R) :=
  match l with
  | [] => ret None
  | x :: r =>
      o <- body x ;;
      match o with
      | Some v => ret (Some v)
      | None => for_each r body
      end
  end.

(** The same with an object the body updates in place. *)
Fixpoint for_each_on {A S R} (l : list A) (s : S) (body : S -> A -> M (option R * S))
  : M (option R * S) :=
  match l with
  | [] => ret (None, s)
  | x :: r =>
      os <- body s x ;;
      match fst os with
      | Some v => ret (Some v, snd os)
      | None => for_each_on r (snd os) body
      end
  end.

(** [l.count(x)] *)
Definition count_of (x : string) (l : list string) : nat :=
  length (filter (String.eqb x) l).

Definition True_ : pyval := PBool true.

(* ------------------------------------------------------------------ *)
(** ** The methods of [Validator] *)

(** [configure(syntax, integrity, topology, dpath, dext, log_level)]:
    an argument left at [None] keeps the stored value; [log_level] is
    tested for truth and goes to [coloredlogs], not to the instance. *)
Definition configure (syntax integrity topology : option bool)
           (dpath dext : option string) (log_level : pyval) : M unit :=
  (* assign parameters *)
  (match syntax with Some b => write (set_syntax b) | None => ret tt end) ;;
  (match integrity with Some b => write (set_integrity b) | None => ret tt end) ;;
  (match topology with Some b => write (set_topology b) | None => ret tt end) ;;
  (match dext with Some s => write (set_dext s) | None => ret tt end) ;;
  (match dpath with Some s => write (set_dpath s) | None => ret tt end) ;;
  if truthy log_level then set_level log_level else ret tt.

(** [_assert_configuration()]; [caller] is the name of the calling
    function as [inspect.stack()[1][3]] gives it. *)
Definition _assert_configuration (caller : string) : M unit :=
  (* ensure this function is called by specific functions *)
  (if negb (String.eqb caller "validate_function")
      && negb (String.eqb caller "validate_service")
      && negb (String.eqb caller "validate_project")
   then log ERROR ScopeUndetermined ;; sys_exit 1
   else ret tt) ;;
  (* general rules - apply to all validations *)
  integrity <- read _integrity ;;
  syntax <- read _syntax ;;
  (if integrity && negb syntax
   then log ERROR IntegrityWithoutSyntax ;; sys_exit 1
   else ret tt) ;;
  topology <- read _topology ;;
  (if topology && negb integrity
   then log ERROR TopologyWithoutIntegrity ;; sys_exit 1
   else ret tt) ;;
  if String.eqb caller "validate_project" then ret tt
  else if String.eqb caller "validate_service" then
    (* check SERVICE validation parameters *)
    dpath <- read _dpath ;;
    dext <- read _dext ;;
    if (integrity || topology) && negb (str_truthy dpath && str_truthy dext)
    then log CRITICAL InvalidServiceParameters ;; sys_exit 1
    else ret tt
  else ret tt.

(** [self._warnings_count += 1] *)
Definition count_warning : M unit :=
  n <- read _warnings_count ;;
  write (set_warnings_count (n + 1)).

(** [log.info("... syntax: {0}, integrity: {1}, topology: {2}")] *)
Definition log_stages : M unit :=
  syntax <- read _syntax ;;
  integrity <- read _integrity ;;
  topology <- read _topology ;;
  log INFO (Stages syntax integrity topology).

Section Methods.
Context {E : Externals}.

(** [_validate_service_syntax(service)] *)
Definition _validate_service_syntax (service : Service.t) : M pyval :=
  log INFO (ServiceSyntax (Service.id service)) ;;
  if negb (schema_validate (Service.content service) SCHEMA_SERVICE_DESCRIPTOR)
  then log ERROR (ServiceSyntaxInvalid (Service.id service)) ;; ret PNone
  else ret True_.

(** [_validate_function_syntax(function)] *)
Definition _validate_function_syntax (function : Function.t) : M pyval :=
  log INFO (FunctionSyntax (Function.id function)) ;;
  if negb (schema_validate (Function.content function) SCHEMA_FUNCTION_DESCRIPTOR)
  then log ERROR (FunctionSyntaxInvalid (Function.id function)) ;; ret PNone
  else ret True_.

(** The body of the loop over the connection points of a link in
    [_validate_function_integrity]. *)
Definition function_link_iface (function : Function.t) (lid iface : string)
  : M (option pyval) :=
  let iface_tokens := split_key iface in
  if Nat.ltb 1 (length iface_tokens) then
    log STDOUT (PrintUnits (Function.units function)) ;;
    tok0 <- eval (match nth_error iface_tokens 0 with
                  | Some t => Val t | None => Err IndexError end) ;;
    if negb (str_in tok0 (Function.units function))
    then log ERROR (UnitUndefined iface lid tok0) ;; ret (Some PNone)
    else ret None
  else ret None.

(** [_validate_function_integrity(function)]: the result and the
    function object as the loaders left it. *)
Definition _validate_function_integrity (function : Function.t)
  : M (pyval * Function.t) :=
  log INFO (FunctionIntegrity (Function.id function)) ;;
  (* load function interfaces *)
  let (ok1, f1) := function_load_interfaces function in
  if negb ok1
  then log ERROR (FunctionInterfacesFailed (Function.id f1)) ;; ret (PNone, f1)
  else
  (* load units *)
  let (ok2, f2) := function_load_units f1 in
  if negb ok2
  then log ERROR (FunctionUnitsFailed (Function.id f2)) ;; ret (PNone, f2)
  else
  (* load interfaces of units *)
  let (ok3, f3) := function_load_unit_interfaces f2 in
  if negb ok3
  then log ERROR (FunctionUnitInterfacesFailed (Function.id f3)) ;; ret (PNone, f3)
  else
  (* load function links *)
  let (ok4, f4) := function_load_links f3 in
  if negb ok4
  then log ERROR (FunctionLinksFailed (Function.id f4)) ;; ret (PNone, f4)
  else
  (* verify integrity between unit interfaces and units *)
  r <- for_each (Function.links f4) (fun ll =>
         for_each (pair_items (snd ll)) (function_link_iface f4 (fst ll))) ;;
  match r with
  | Some v => ret (v, f4)
  | None => ret (True_, f4)
  end.

(** [_validate_function_topology(function)] *)
Definition _validate_function_topology (function : Function.t)
  : M (pyval * Function.t) :=
  log INFO (FunctionTopology (Function.id function)) ;;
  (* build function topology graph *)
  let function := function_build_topology_graph function in
  log DEBUG (FunctionGraphBuilt (Function.id function)) ;;
  (* check for path cycles *)
  start <- eval (match nth_error (nodes (Function.graph function)) 0 with
                 | Some n => Val n | None => Err IndexError end) ;;
  cycles <- eval (_find_graph_cycles (Function.graph function) start) ;;
  (if cycles_found cycles
   then log WARNING (FunctionCycles (Function.id function)
                                    (match cycles with Some c => c | None => [] end)) ;;
        count_warning
   else ret tt) ;;
  ret (True_, function).

(** The part of [validate_function(vnfd_path)] that handles a single
    descriptor file (everything after the directory branch). *)
Definition validate_function_file (vnfd_path : string) : M pyval :=
  log INFO (ValidatingFunction vnfd_path) ;;
  log_stages ;;
  match create_function vnfd_path with
  | None => log CRITICAL (FunctionStoreFailed vnfd_path) ;; ret PNone
  | Some function =>
      syntax <- read _syntax ;;
      r1 <- (if syntax then _validate_function_syntax function else ret True_) ;;
      if syntax && negb (truthy r1) then ret PNone else
      integrity <- read _integrity ;;
      r2 <- (if integrity then _validate_function_integrity function
             else ret (True_, function)) ;;
      if integrity && negb (truthy (fst r2)) then ret PNone else
      topology <- read _topology ;;
      r3 <- (if topology then _validate_function_topology (snd r2)
             else ret (True_, snd r2)) ;;
      if topology && negb (truthy (fst r3)) then ret PNone else
      ret True_
  end.

(** [validate_function(vnfd_path)] after its configuration check;
    [recur] is the method itself, which the directory branch calls on
    every listed file. *)
Definition validate_function_body (recur : string -> M pyval) (vnfd_path : string)
  : M pyval :=
  (* validate multiple VNFs *)
  if isdir vnfd_path then
    log INFO (ValidatingFunctionsInPath vnfd_path) ;;
    dext <- read _dext ;;
    let vnfd_files := list_files vnfd_path dext in
    r <- for_each vnfd_files (fun vnfd_file =>
           v <- recur vnfd_file ;;
           if negb (truthy v) then ret (Some PNone) else ret None) ;;
    match r with
    | Some v => ret v
    | None => ret True_
    end
  else validate_function_file vnfd_path.

(** [validate_function(vnfd_path)]; [fuel] bounds the depth of the
    calls the method makes to itself. *)
Fixpoint validate_function (fuel : nat) (vnfd_path : string) : M pyval :=
  match fuel with
  | O => out_of_fuel
  | S fuel' =>
      _assert_configuration "validate_function" ;;
      validate_function_body (validate_function fuel') vnfd_path
  end.

(** [_load_service_functions(service)] *)
Definition _load_service_functions (service : Service.t) : M (pyval * Service.t) :=
  log DEBUG LoadingFunctions ;;
  (* get VNFD file list from provided dpath *)
  dpath <- read _dpath ;;
  dext <- read _dext ;;
  let vnfd_files := list_files dpath dext in
  log DEBUG (FoundDescriptors (length vnfd_files) vnfd_files dpath) ;;
  (* load all VNFDs *)
  let path_vnfs := read_descriptor_files vnfd_files in
  (* check for errors *)
  if negb (dict_has (Service.content service) "network_functions")
  then log ERROR MissingNetworkFunctions ;; ret (PNone, service)
  else
  functions <- eval (subscript (PDict (Service.content service)) "network_functions") ;;
  if truthy functions && negb (match path_vnfs with [] => false | _ => true end)
  then log ERROR (NoDescriptorsFound dpath) ;; ret (PNone, service)
  else
  (* store function descriptors referenced in the service *)
  items <- eval (iterate functions) ;;
  r <- for_each_on items service (fun service function =>
         vnf_vendor <- eval (subscript function "vnf_vendor") ;;
         vnf_name <- eval (subscript function "vnf_name") ;;
         vnf_version <- eval (subscript function "vnf_version") ;;
         let fid := build_descriptor_id vnf_vendor vnf_name vnf_version in
         if negb (dict_has path_vnfs fid)
         then log ERROR (DescriptorNotFound fid dpath) ;; ret (Some PNone, service)
         else
         vnf_id <- eval (subscript function "vnf_id") ;;
         file <- eval (match dict_get path_vnfs fid with
                       | Some f => Val f | None => Err KeyError end) ;;
         let new_func := create_function file in
         ret (None, service_associate_function service new_func vnf_id)) ;;
  match fst r with
  | Some v => ret (v, snd r)
  | None => ret (True_, snd r)
  end.

(** The body of the loop over the connection points of a link in
    [_validate_service_integrity]; a function object is true. *)
Definition service_link_iface (service : Service.t) (lid iface : string)
  : M (option pyval) :=
  if negb (str_in iface (Service.interfaces service)) then
    let iface_tokens := split_key iface in
    if negb (Nat.eqb (length iface_tokens) 2)
    then log ERROR (ConnectionPointUndefined iface lid) ;; ret (Some PNone)
    else
    vnf_id <- eval (match nth_error iface_tokens 0 with
                    | Some t => Val t | None => Err IndexError end) ;;
    match service_mapped_function service vnf_id with
    | None => log ERROR (LinkFunctionUndefined vnf_id iface lid) ;; ret (Some PNone)
    | Some _ => ret None
    end
  else ret None.

(** The loop "verify integrity between vnf_ids and links". *)
Definition verify_service_links (service : Service.t) : M (option pyval) :=
  for_each (Service.links service) (fun ll =>
    for_each (pair_items (snd ll)) (service_link_iface service (fst ll))).

(** [_validate_service_integrity(service)]; [fuel] is handed to the
    calls of [validate_function]. *)
Definition _validate_service_integrity (fuel : nat) (service : Service.t)
  : M (pyval * Service.t) :=
  log INFO (ServiceIntegrity (Service.id service)) ;;
  (* get referenced function descriptors (VNFDs) *)
  r0 <- _load_service_functions service ;;
  let s0 := snd r0 in
  if negb (truthy (fst r0))
  then log ERROR ServiceFunctionsFailed ;; ret (PNone, s0)
  else
  (* load service interfaces *)
  let (ok1, s1) := service_load_interfaces s0 in
  if negb ok1
  then log ERROR (ServiceInterfacesFailed (Service.id s1)) ;; ret (PNone, s1)
  else
  (* load service links *)
  let (ok2, s2) := service_load_links s1 in
  if negb ok2
  then log ERROR (ServiceLinksFailed (Service.id s2)) ;; ret (PNone, s2)
  else
  (* verify integrity between vnf_ids and links *)
  r <- verify_service_links s2 ;;
  match r with
  | Some v => ret (v, s2)
  | None =>
      (* validate service function descriptors (VNFDs) *)
      r' <- for_each (Service.functions s2) (fun ff =>
              v <- validate_function fuel (Function.filename (snd ff)) ;;
              if negb (truthy v) then ret (Some PNone) else ret None) ;;
      match r' with
      | Some v => ret (v, s2)
      | None => ret (True_, s2)
      end
  end.

(** The body of the loop "analyse forwarding paths" of
    [_validate_service_topology]. *)
Definition analyse_forwarding_path (service : Service.t)
           (fp : string * list string) : M (option pyval) :=
  let trace := service_trace_path service (snd fp) in
  if str_in "BREAK" trace then
    log WARNING (ForwardingPathInvalid (fst fp) (count_of "BREAK" trace) trace) ;;
    (* skip further analysis on this path *)
    ret None
  else
  (* path is valid in specified topology, let's check for cycles *)
  let fpg := add_path empty_graph trace in
  start <- eval (match nth_error (nodes fpg) 0 with
                 | Some n => Val n | None => Err IndexError end) ;;
  cycles <- eval (_find_graph_cycles fpg start) ;;
  (if cycles_found cycles
   then log WARNING (ForwardingPathCycles (fst fp)
                                          (match cycles with Some c => c | None => [] end)) ;;
        count_warning
   else ret tt) ;;
  ret None.

(** [_validate_service_topology(service)] *)
Definition _validate_service_topology (service : Service.t)
  : M (pyval * Service.t) :=
  log INFO (ServiceTopology (Service.id service)) ;;
  (* build service topology graph *)
  let service := service_build_topology_graph service in
  log DEBUG (ServiceGraphBuilt (Service.id service)) ;;
  connected <- eval (is_connected (Service.graph service)) ;;
  (if connected
   then log DEBUG (GraphConnected (Service.id service))
   else log WARNING (GraphDisconnected (Service.id service))) ;;
  (* load forwarding paths *)
  let (ok, service) := service_load_forwarding_paths service in
  if negb ok
  then log ERROR ForwardingPathsFailed ;; ret (PNone, service)
  else
  (* analyse forwarding paths *)
  r <- for_each (Service.fw_paths service) (analyse_forwarding_path service) ;;
  match r with
  | Some v => ret (v, service)
  | None =>
      write_graphml (Service.graph service) (Service.id service ++ ".graphml")%string ;;
      ret (True_, service)
  end.

(** [validate_service(nsd_file)] after its configuration check. *)
Definition validate_service_body (fuel : nat) (nsd_file : pyval) : M pyval :=
  log INFO (ValidatingService nsd_file) ;;
  log_stages ;;
  match create_service nsd_file with
  | None => log CRITICAL (ServiceReadFailed nsd_file) ;; ret PNone
  | Some service =>
      (* validate service syntax *)
      syntax <- read _syntax ;;
      r1 <- (if syntax then _validate_service_syntax service else ret True_) ;;
      if syntax && negb (truthy r1) then ret PNone else
      integrity <- read _integrity ;;
      r2 <- (if integrity then _validate_service_integrity fuel service
             else ret (True_, service)) ;;
      if integrity && negb (truthy (fst r2)) then ret PNone else
      topology <- read _topology ;;
      r3 <- (if topology then _validate_service_topology (snd r2)
             else ret (True_, snd r2)) ;;
      if topology && negb (truthy (fst r3)) then ret PNone else
      ret True_
  end.

(** [validate_service(nsd_file)] *)
Definition validate_service (fuel : nat) (nsd_file : pyval) : M pyval :=
  _assert_configuration "validate_service" ;;
  validate_service_body fuel nsd_file.

(** [_load_project_service_file(project)]: the descriptor file, or
    [False].  With no descriptor at all the message to log has a
    format string with a lone closing brace, and formatting it raises. *)
Definition _load_project_service_file (project : Project.t) : M pyval :=
  match Project.get_ns_descriptor project with
  | [] => raise ValueError
  | [nsd] => ret (PStr nsd)
  | nsd_files =>
      log CRITICAL (MultipleServiceDescriptors (Project.project_root project) nsd_files) ;;
      ret (PBool false)
  end.

(** [validate_project(project)] after its configuration check. *)
Definition validate_project_body (fuel : nat) (project : Project.t) : M pyval :=
  log INFO (ValidatingProject (Project.project_root project)) ;;
  log_stages ;;
  (* retrieve project configuration *)
  write (set_dpath (Project.vnfd_root project)) ;;
  write (set_dext (Project.descriptor_extension project)) ;;
  (* load all project descriptors present at source directory *)
  log DEBUG LoadingProjectService ;;
  nsd_file <- _load_project_service_file project ;;
  validate_service fuel nsd_file.

(** [validate_project(project)] *)
Definition validate_project (fuel : nat) (project : Project.t) : M pyval :=
  _assert_configuration "validate_project" ;;
  validate_project_body fuel project.
End Methods.

(* ------------------------------------------------------------------ *)
(** ** An in-memory descriptor store

    [son.validate.objects], [son.validate.util] and the schema
    validator are not part of the sources at hand.  The store below is
    one implementation of [Externals], used to run the validator on
    concrete descriptors. *)

Module Store.

(** A parsed service descriptor: the entity as [create_service] hands
    it out and what each loader finds ([None]: the loader fails). *)
Record service_doc := mk_service_doc {
  s_entity : Service.t;
  s_interfaces : option (list string);
  s_links : option (list (string * Link));
  s_fw_paths : option (list (string * list string))
}.

Record function_doc := mk_function_doc {
  f_entity : Function.t;
  f_interfaces : option (list string);
  f_units : option (list string);
  f_unit_interfaces : option (list string);
  f_links : option (list (string * Link))
}.

(** The files the validator can see and the verdict of the schema
    validator on a descriptor content. *)
Record disk := mk_disk {
  directories : list (string * list string);
  service_docs : list (string * service_doc);
  function_docs : list (string * function_doc);
  schema : list (string * pyval) -> schema_kind -> bool
}.

(** [s.endswith(suffix)] *)
Fixpoint ends_with (suffix s : string) : bool :=
  String.eqb s suffix ||
  match s with
  | EmptyString => false
  | String _ r => ends_with suffix r
  end.

(** Modelled from the spec: file discovery ([list_files], absent from
    the sources): given a directory and extension, the matching
    descriptor file paths in deterministic order. *)
Definition list_files (d : disk) (dir ext : string) : list string :=
  match dict_get (directories d) dir with
  | Some files => filter (ends_with ("." ++ ext)%string) files
  | None => []
  end.

(** The text of a string value. *)
Definition py_str (v : pyval) : string :=
  match v with PStr s => s | _ => "" end.

(** Modelled from the spec: the composite descriptor id
    ([build_descriptor_id], absent from the sources), composed
    deterministically from vendor, name and version. *)
Definition build_descriptor_id (vendor name version : pyval) : string :=
  (py_str vendor ++ "." ++ py_str name ++ "." ++ py_str version)%string.

(** Modelled from the spec: [read_descriptor_files] (absent from the
    sources) keys every readable function descriptor file by its
    composite id. *)
Fixpoint read_descriptor_files (d : disk) (files : list string)
  : list (string * string) :=
  match files with
  | [] => []
  | f :: r =>
      match dict_get (function_docs d) f with
      | Some doc => (Function.id (f_entity doc), f) :: read_descriptor_files d r
      | None => read_descriptor_files d r
      end
  end.

(** Modelled from the spec: [create_service(path)] (absent from the
    sources) gives the entity, or null on parse failure. *)
Definition create_service (d : disk) (nsd_file : pyval) : option Service.t :=
  match nsd_file with
  | PStr path => option_map s_entity (dict_get (service_docs d) path)
  | _ => None
  end.

(** Modelled from the spec: [create_function(path)] (absent from the
    sources) gives the entity, or null on parse failure. *)
Definition create_function (d : disk) (path : string) : option Function.t :=
  option_map f_entity (dict_get (function_docs d) path).

(** The parsed descriptor an entity was created from. *)
Definition service_doc_of (d : disk) (s : Service.t) : option service_doc :=
  option_map snd
    (find (fun e => String.eqb (Service.id (s_entity (snd e))) (Service.id s))
          (service_docs d)).

(** The parsed descriptor a function entity was created from. *)
Definition function_doc_of (d : disk) (f : Function.t) : option function_doc :=
  dict_get (function_docs d) (Function.filename f).

(** Modelled from the spec: the loaders (absent from the sources)
    fill the corresponding mapping of the entity and answer whether
    they succeeded. *)
Definition service_load_interfaces (d : disk) (s : Service.t) : bool * Service.t :=
  match option_map s_interfaces (service_doc_of d s) with
  | Some (Some i) =>
      (true, Service.mk (Service.id s) (Service.content s) (Service.functions s) i
                        (Service.links s) (Service.fw_paths s) (Service.graph s))
  | _ => (false, s)
  end.

(** Modelled from the spec: [load_links()] of a service (absent from the
    sources). *)
Definition service_load_links (d : disk) (s : Service.t) : bool * Service.t :=
  match option_map s_links (service_doc_of d s) with
  | Some (Some l) =>
      (true, Service.mk (Service.id s) (Service.content s) (Service.functions s)
                        (Service.interfaces s) l (Service.fw_paths s) (Service.graph s))
  | _ => (false, s)
  end.

(** Modelled from the spec: [load_forwarding_paths()] (absent from the
    sources). *)
Definition service_load_forwarding_paths (d : disk) (s : Service.t) : bool * Service.t :=
  match option_map s_fw_paths (service_doc_of d s) with
  | Some (Some fp) =>
      (true, Service.mk (Service.id s) (Service.content s) (Service.functions s)
                        (Service.interfaces s) (Service.links s) fp (Service.graph s))
  | _ => (false, s)
  end.

(** Modelled from the spec: graph construction
    ([build_topology_graph], absent from the sources): the nodes are
    the connection points, the edges the links. *)
Definition topology (ifaces : list string) (lnks : list (string * Link)) : Graph :=
  add_edges_from (fold_left add_node ifaces empty_graph)
                 (map (fun ll => iface_pair (snd ll)) lnks).

(** Modelled from the spec: [build_topology_graph] of a service (absent
    from the sources) populates its graph. *)
Definition service_build_topology_graph (s : Service.t) : Service.t :=
  Service.mk (Service.id s) (Service.content s) (Service.functions s)
             (Service.interfaces s) (Service.links s) (Service.fw_paths s)
             (topology (Service.interfaces s) (Service.links s)).

(** Modelled from the spec: forwarding-path tracing ([trace_path],
    absent from the sources): walk consecutive hop pairs; where the
    edge of a pair is absent from the graph, put a BREAK marker into
    the trace and go on from the next declared hop. *)
Fixpoint trace (g : Graph) (path : list string) : list string :=
  match path with
  | [] => []
  | h :: r =>
      match r with
      | [] => [h]
      | h' :: _ => if has_edge g h h' then h :: trace g r
                   else h :: "BREAK" :: trace g r
      end
  end.

(** Modelled from the spec: [trace_path(path)] (absent from the
    sources), on the graph of the service. *)
Definition service_trace_path (s : Service.t) (path : list string) : list string :=
  trace (Service.graph s) path.

(** Modelled from the spec: [mapped_function(vnf_id)] and
    [associate_function(function, vnf_id)] (absent from the sources)
    read and extend the mapping from vnf_id to function. *)
Definition service_mapped_function (s : Service.t) (vnf_id : string)
  : option Function.t :=
  dict_get (Service.functions s) vnf_id.

(** Modelled from the spec: [associate_function(function, vnf_id)]
    (absent from the sources); nothing is associated to a null entity
    or under an id that is taken. *)
Definition service_associate_function (s : Service.t) (f : option Function.t)
           (vnf_id : pyval) : Service.t :=
  match f, vnf_id with
  | Some fn, PStr v =>
      if dict_has (Service.functions s) v then s
      else Service.mk (Service.id s) (Service.content s) (Service.functions s ++ [(v, fn)])
                      (Service.interfaces s) (Service.links s) (Service.fw_paths s)
                      (Service.graph s)
  | _, _ => s
  end.

(** Modelled from the spec: the loaders of a function (absent from the
    sources). *)
Definition function_load_interfaces (d : disk) (f : Function.t) : bool * Function.t :=
  match option_map f_interfaces (function_doc_of d f) with
  | Some (Some i) =>
      (true, Function.mk (Function.id f) (Function.filename f) (Function.content f) i
                         (Function.units f) (Function.links f) (Function.graph f))
  | _ => (false, f)
  end.

(** Modelled from the spec: [load_units()] (absent from the sources). *)
Definition function_load_units (d : disk) (f : Function.t) : bool * Function.t :=
  match option_map f_units (function_doc_of d f) with
  | Some (Some u) =>
      (true, Function.mk (Function.id f) (Function.filename f) (Function.content f)
                         (Function.interfaces f) u (Function.links f) (Function.graph f))
  | _ => (false, f)
  end.

(** Modelled from the spec: [load_unit_interfaces()] (absent from the
    sources) adds the interfaces of the units. *)
Definition function_load_unit_interfaces (d : disk) (f : Function.t) : bool * Function.t :=
  match option_map f_unit_interfaces (function_doc_of d f) with
  | Some (Some i) =>
      (true, Function.mk (Function.id f) (Function.filename f) (Function.content f)
                         (Function.interfaces f ++ i) (Function.units f) (Function.links f)
                         (Function.graph f))
  | _ => (false, f)
  end.

(** Modelled from the spec: [load_links()] of a function (absent from
    the sources). *)
Definition function_load_links (d : disk) (f : Function.t) : bool * Function.t :=
  match option_map f_links (function_doc_of d f) with
  | Some (Some l) =>
      (true, Function.mk (Function.id f) (Function.filename f) (Function.content f)
                         (Function.interfaces f) (Function.units f) l (Function.graph f))
  | _ => (false, f)
  end.

(** Modelled from the spec: [build_topology_graph] of a function
    (absent from the sources) populates its graph. *)
Definition function_build_topology_graph (f : Function.t) : Function.t :=
  Function.mk (Function.id f) (Function.filename f) (Function.content f)
              (Function.interfaces f) (Function.units f) (Function.links f)
              (topology (Function.interfaces f) (Function.links f)).

(** The store over a given disk. *)
Definition externals (d : disk) : Externals :=
  mkExternals
    (fun path => dict_has (directories d) path)
    (list_files d)
    (read_descriptor_files d)
    build_descriptor_id
    (schema d)
    (create_service d)
    (create_function d)
    (service_load_interfaces d)
    (service_load_links d)
    (service_load_forwarding_paths d)
    service_build_topology_graph
    service_trace_path
    service_mapped_function
    service_associate_function
    (function_load_interfaces d)
    (function_load_units d)
    (function_load_unit_interfaces d)
    (function_load_links d)
    function_build_topology_graph.

End Store.

(* ------------------------------------------------------------------ *)
(** ** The command line

    [main()] of [validate.py]: the arguments select one validation, a
    validator is created and configured for it, and the process exits
    with a status that tells how the validation went. *)

(** The parsed arguments: an option that was not given is [None], a
    flag that was not given is [False]. *)
Module Args.
Record t := mk {
  workspace_path : option string;
  project_path : option string;
  pd : option string;
  nsd : option string;
  vnfd : option string;
  dpath : option string;
  dext : option string;
  syntax : bool;
  integrity : bool;
  topology : bool;
  debug : bool
}.
End Args.

(** [if args.x:] for an optional string: given and not empty. *)
Definition given (a : option string) : bool :=
  match a with
  | Some s => str_truthy s
  | None => false
  end.

(** One constructor per logging call of [main], with the values its
    message is formatted from. *)
Inductive main_message :=
| InvalidWorkspacePath (ws_root : string)
| InvalidProjectPath (prj_root : string)
| ProjectValidationFailed
| ProjectSucceeded (project_root : string)
| ProjectWarnings (project_root : string) (warnings : nat)
| ServiceSucceeded (nsd : string)
| ServiceWarnings (nsd : string) (warnings : nat)
| FunctionValidationFailed
| FunctionSucceeded (vnfd : string)
| FunctionWarnings (vnfd : string) (warnings : nat)
| InvalidArguments
| Done.

(** How [main] ends: by an exit, with the process of the validator if
    one was created and the records [main] itself logged (they come
    after those of the validator); by an exception of the validation;
    or not within the recursion budget of the model. *)
Inductive ending :=
| Exited (status : Z) (run : option Process) (said : list (level * main_message))
| Raised (e : exn) (run : Process)
| Unfinished.

Section Main.
Context {E : Externals}.

(** [Workspace.DEFAULT_WORKSPACE_DIR], which depends on the home
    directory, and the two loaders, which read the file system. *)
Variable DEFAULT_WORKSPACE_DIR : string.
Variable Workspace_create_from_descriptor : string -> option Workspace.t.
Variable Project_create_from_descriptor : Workspace.t -> string -> option Project.t.

(** [main()] on the parsed arguments. *)
Definition main (fuel : nat) (args : Args.t) : ending :=
  (* by default, perform all validations *)
  let all := negb (Args.syntax args) && negb (Args.integrity args)
             && negb (Args.topology args) in
  let syntax := if all then true else Args.syntax args in
  let integrity := if all then true else Args.integrity args in
  let topology := if all then true else Args.topology args in
  if given (Args.project_path args) then
    let ws_root := if given (Args.workspace_path args)
                   then match Args.workspace_path args with Some w => w | None => "" end
                   else DEFAULT_WORKSPACE_DIR in
    let prj_root := match Args.project_path args with Some r => r | None => "" end in
    (* Obtain Workspace object *)
    match Workspace_create_from_descriptor ws_root with
    | None => Exited 1 None [(ERROR, InvalidWorkspacePath ws_root)]
    | Some workspace =>
        match Project_create_from_descriptor workspace prj_root with
        | None => Exited 1 None [(ERROR, InvalidProjectPath prj_root)]
        | Some project =>
            match (configure (Some syntax) (Some integrity) (Some topology) None None
                             (PBool (Args.debug args)) ;;
                   validate_project fuel project)
                    (mkProcess (Validator_init workspace) PNone [] []) with
            | Ok v p =>
                if negb (truthy v)
                then Exited 1 (Some p) [(CRITICAL, ProjectValidationFailed)]
                else if Nat.eqb (warnings_count (self p)) 0
                then Exited 0 (Some p)
                            [(INFO, ProjectSucceeded (Project.project_root project));
                             (INFO, Done)]
                else Exited 0 (Some p)
                            [(WARNING, ProjectWarnings (Project.project_root project)
                                                       (warnings_count (self p)));
                             (INFO, Done)]
            | Exit c p => Exited c (Some p) []
            | Raise e p => Raised e p
            | Diverge => Unfinished
            end
        end
    end
  else if given (Args.pd args) then
    Exited 0 None [(INFO, Done)]
  else if given (Args.nsd args) then
    let nsd := match Args.nsd args with Some f => f | None => "" end in
    match (configure (Some syntax) (Some integrity) (Some topology)
                     (Args.dpath args) (Args.dext args) (PBool (Args.debug args)) ;;
           validate_service fuel (PStr nsd))
            (mkProcess (Validator_init (Workspace.virtual "debug")) PNone [] []) with
    | Ok v p =>
        if negb (truthy v)
        then Exited 1 (Some p) [(CRITICAL, ProjectValidationFailed)]
        else if Nat.eqb (warnings_count (self p)) 0
        then Exited 0 (Some p) [(INFO, ServiceSucceeded nsd); (INFO, Done)]
        else Exited 0 (Some p)
                    [(WARNING, ServiceWarnings nsd (warnings_count (self p)));
                     (INFO, Done)]
    | Exit c p => Exited c (Some p) []
    | Raise e p => Raised e p
    | Diverge => Unfinished
    end
  else if given (Args.vnfd args) then
    let vnfd := match Args.vnfd args with Some f => f | None => "" end in
    match (configure (Some syntax) (Some integrity) (Some topology)
                     None (Args.dext args) (PBool (Args.debug args)) ;;
           validate_function fuel vnfd)
            (mkProcess (Validator_init (Workspace.virtual "debug")) PNone [] []) with
    | Ok v p =>
        if negb (truthy v)
        then Exited 1 (Some p) [(CRITICAL, FunctionValidationFailed)]
        else if Nat.eqb (warnings_count (self p)) 0
        then Exited 0 (Some p) [(INFO, FunctionSucceeded vnfd); (INFO, Done)]
        else Exited 0 (Some p)
                    [(WARNING, FunctionWarnings vnfd (warnings_count (self p)));
                     (INFO, Done)]
    | Exit c p => Exited c (Some p) []
    | Raise e p => Raised e p
    | Diverge => Unfinished
    end
  else
    Exited 1 None [(ERROR, InvalidArguments)].

End Main.

(* ------------------------------------------------------------------ *)
(** ** Vocabulary of the statements *)

(** The process after one more logging call. *)
Definition logged (p : Process) (l : level) (m : message) : Process :=
  mkProcess (self p) (verbosity p) (records p ++ [(l, m)]) (graphml p).

(** The value a configuration field holds after [configure] was given
    [arg] for it. *)
Definition updated {A} (arg : option A) (old : A) : A :=
  match arg with
  | Some v => v
  | None => old
  end.

(** Integrity requires syntax; topology requires integrity. *)
Definition stage_dependency_ok (v : Validator) : bool :=
  implb (_integrity v) (_syntax v) && implb (_topology v) (_integrity v).

(** The message of the stage-dependency rule that fires first. *)
Definition stage_dependency_error (v : Validator) : message :=
  if _integrity v && negb (_syntax v) then IntegrityWithoutSyntax
  else TopologyWithoutIntegrity.

(** The rule of the service scope: integrity or topology need both a
    directory and an extension to look for function descriptors. *)
Definition service_parameters_ok (v : Validator) : bool :=
  negb (_integrity v || _topology v) || (str_truthy (_dpath v) && str_truthy (_dext v)).

(** The pairs (link id, connection point key) in the order the nested
    loops of the integrity checks visit them. *)
Definition link_keys (lnks : list (string * Link)) : list (string * string) :=
  flat_map (fun ll => map (pair (fst ll)) (pair_items (snd ll))) lnks.

(** A process that has just created its validator. *)
Definition fresh (v : Validator) : Process := mkProcess v PNone [] [].

(** [Validator()] *)
Definition default_validator : Validator := Validator_init (Workspace.virtual "debug").

(** The validator with its stage flags and search directory set. *)
Definition with_flags (v : Validator) (syntax integrity topology : bool) (dpath : string)
  : Validator :=
  mkValidator (_log_level v) syntax integrity topology (_dext v) dpath (_warnings_count v).

(** The first token of a connection point key. *)
Definition first_token (iface : string) : string := hd "" (split_key iface).

(** A key of the qualified form: it splits into more than one token. *)
Definition qualified (iface : string) : bool := Nat.ltb 1 (length (split_key iface)).

(** A key of a function link is in order when it is not qualified or
    its first token is one of the loaded unit ids. *)
Definition unit_reference_ok (function : Function.t) (iface : string) : bool :=
  negb (qualified iface) || str_in (first_token iface) (Function.units function).

(** A key of a service link resolves when it is a declared interface of
    the service, or splits into exactly two tokens the first of which
    is the vnf_id of an associated function. *)
Definition key_resolves {E : Externals} (service : Service.t) (iface : string) : bool :=
  str_in iface (Service.interfaces service)
  || (Nat.eqb (length (split_key iface)) 2
      && match service_mapped_function service (first_token iface) with
         | Some _ => true
         | None => false
         end).

(** The error logged for a key of a service link that does not resolve. *)
Definition dangling_error (li : string * string) : message :=
  if Nat.eqb (length (split_key (snd li))) 2
  then LinkFunctionUndefined (first_token (snd li)) (snd li) (fst li)
  else ConnectionPointUndefined (snd li) (fst li).

(** The process after what [_load_service_functions] logs before it
    looks at the service. *)
Definition functions_listed {E : Externals} (p : Process) : Process :=
  let vnfd_files := list_files (_dpath (self p)) (_dext (self p)) in
  logged (logged p DEBUG LoadingFunctions)
         DEBUG (FoundDescriptors (length vnfd_files) vnfd_files (_dpath (self p))).

(** The process [p] as it would be had [w] more warnings been counted,
    the records [l] been logged and the files [g] been written before. *)
Definition offset (w : nat) (l : list (level * message)) (g : list (string * Graph))
           (p : Process) : Process :=
  mkProcess (set_warnings_count (w + _warnings_count (self p)) (self p))
            (verbosity p) (l ++ records p) (g ++ graphml p).

Definition offset_outcome {A} (w : nat) (l : list (level * message))
           (g : list (string * Graph)) (o : outcome A) : outcome A :=
  match o with
  | Ok a p => Ok a (offset w l g p)
  | Exit c p => Exit c (offset w l g p)
  | Raise e p => Raise e (offset w l g p)
  | Diverge => Diverge
  end.

(** What a process is configured with: the instance with its counter
    at zero, nothing logged and nothing written. *)
Definition base (p : Process) : Process :=
  mkProcess (set_warnings_count 0 (self p)) (verbosity p) [] [].

(** The process in which a call ends, if it ends. *)
Definition final {A} (o : outcome A) : option Process :=
  match o with
  | Ok _ p => Some p
  | Exit _ p => Some p
  | Raise _ p => Some p
  | Diverge => None
  end.

(** A computation is tame when it only adds to the counter, the log and
    the written files, does the same whatever these hold, and leaves
    the configuration alone. *)
Definition tame {A} (m : M A) : Prop :=
  (forall w l g p, m (offset w l g p) = offset_outcome w l g (m p)) /\
  (forall p p', final (m p) = Some p' -> base p' = base p).

(** The body of the loop of [validate_function] over the files of a
    directory: the file is validated, and a false result ends the loop
    with [None]. *)
Definition each_file {E : Externals} (fuel : nat) (vnfd_file : string) : M (option pyval) :=
  v <- validate_function fuel vnfd_file ;;
  if negb (truthy v) then ret (Some PNone) else ret None.

(** Whether the analysis of a forwarding path finds a cycle: its trace
    has no BREAK marker and the walk over the path graph, started at
    its first node, comes back with a cycle. *)
Definition path_has_cycle {E : Externals} (service : Service.t)
           (fp : string * list string) : bool :=
  let trace := service_trace_path service (snd fp) in
  negb (str_in "BREAK" trace)
  && match nodes (add_path empty_graph trace) with
     | start :: _ =>
         match _find_graph_cycles (add_path empty_graph trace) start with
         | Val cycles => cycles_found cycles
         | _ => false
         end
     | [] => false
     end.

(** [u] and [v] are joined: [v] is among the neighbours of [u]. *)
Definition edge (g : Graph) (u v : node) : Prop :=
  exists l, dict_get g u = Some l /\ In v l.

(** Consecutive nodes of the list are joined. *)
Fixpoint chain (g : Graph) (l : list node) : Prop :=
  match l with
  | a :: r => match r with
              | b :: _ => edge g a b /\ chain g r
              | [] => True
              end
  | [] => True
  end.

(** A graph as networkx keeps it: every node once, every neighbour
    once, and every edge in both directions. *)
Definition well_formed (g : Graph) : Prop :=
  NoDup (nodes g) /\
  (forall u l, dict_get g u = Some l -> NoDup l) /\
  (forall u v, edge g u v -> edge g v u).

(** A graph without cycles: a closed chain of distinct nodes can only
    be an edge walked forth and back. *)
Definition acyclic (g : Graph) : Prop :=
  forall c, NoDup c -> chain g c -> edge g (last c "") (hd "" c) -> length c = 2.

(** The situation of the cycle walk when it arrives at [nd] from
    [prev_node] with the trace [backtrace]: it started with an empty
    trace and no previous node, and each step went from a node not yet
    traced to a neighbour other than the node it came from. *)
Inductive walk (g : Graph) : list node -> option node -> node -> Prop :=
| walk_start (nd : node) : walk g [] None nd
| walk_step (backtrace : list node) (prev_node : option node) (nd neighbor : node) :
    walk g backtrace prev_node nd ->
    ~ In nd backtrace ->
    edge g nd neighbor ->
    (forall p, prev_node = Some p -> neighbor <> p) ->
    walk g (backtrace ++ [nd]) (Some nd) neighbor.

(** The ring A-B-C-A and the tree with the edges a-'' and ''-b, whose
    middle node is named by the empty string. *)
Definition ring_abc : Graph := add_path empty_graph ["A"; "B"; "C"; "A"].

Definition tree_with_empty_name : Graph :=
  add_edges_from empty_graph [("a", ""); ("", "b")].

Definition tree_xyz : Graph := add_edges_from empty_graph [("x", "y"); ("y", "z")].

(** Whether a list of nodes has no repetition. *)
Fixpoint distinct_nodes (l : list node) : bool :=
  match l with
  | [] => true
  | x :: r => negb (str_in x r) && distinct_nodes r
  end.

(** The check that a graph is [well_formed]. *)
Definition well_formed_check (g : Graph) : bool :=
  distinct_nodes (nodes g)
  && forallb (fun kl => distinct_nodes (snd kl)) g
  && forallb (fun kl => forallb (fun v => has_edge g v (fst kl)) (snd kl)) g.

(** The argument [configure] ends up applying when a call with [first]
    is followed by a call with [second]. *)
Definition later {A} (first second : option A) : option A :=
  match second with
  | Some _ => second
  | None => first
  end.

(** The same for the log level, which is applied when it is true. *)
Definition later_level (first second : pyval) : pyval :=
  if truthy second then second else first.

(** The configuration fields of two validators agree. *)
Definition same_configuration (v v' : Validator) : Prop :=
  _log_level v' = _log_level v /\
  _syntax v' = _syntax v /\
  _integrity v' = _integrity v /\
  _topology v' = _topology v /\
  _dext v' = _dext v /\
  _dpath v' = _dpath v.

(** The process [p'] holds everything [p] held, in the same order, and
    possibly more: warnings counted, records logged, files written. *)
Definition extends (p p' : Process) : Prop :=
  verbosity p' = verbosity p /\
  _warnings_count (self p) <= _warnings_count (self p') /\
  (exists l, records p' = records p ++ l) /\
  (exists g, graphml p' = graphml p ++ g).

(** A method answers with [True] or [None], nothing else. *)
Definition verdict (m : M pyval) : Prop :=
  forall p v p', m p = Ok v p' -> v = True_ \/ v = PNone.

(** A computation stays within the recursion budget of the model. *)
Definition returns {A} (m : M A) : Prop := forall p, m p <> Diverge.



(** A cycle of the graph: distinct nodes, each joined to the next and
    the last to the first, not merely one edge walked forth and back. *)
Definition is_cycle (g : Graph) (c : list node) : Prop :=
  c <> [] /\ NoDup c /\ chain g c /\ edge g (last c "") (hd "" c) /\ length c <> 2.

(** A graph with the cycle S-B-C and the leaf L on S, which is the
    first neighbour of S. *)
Definition ring_with_leaf : Graph :=
  add_edges_from empty_graph [("S", "L"); ("S", "B"); ("B", "C"); ("C", "S")].

(** A computation ends the process only with status 1, and only from a
    configuration that is not [ok]. *)
Definition aborts_by {A} (ok : Process -> bool) (m : M A) : Prop :=
  forall p c p', m p = Exit c p' -> c = 1%Z /\ ok (base p) = false.

(** The configuration is in order for a function: the stage rules. *)
Definition function_scope_ok (p : Process) : bool := stage_dependency_ok (self p).

(** The configuration is in order for a service: the stage rules and
    the rule on the search directory and extension. *)
Definition service_scope_ok (p : Process) : bool :=
  stage_dependency_ok (self p) && service_parameters_ok (self p).

(** The process once [validate_project] has taken over the directory
    and the extension of the project. *)
Definition in_project (project : Project.t) (p : Process) : Process :=
  mkProcess (set_dext (Project.descriptor_extension project)
                      (set_dpath (Project.vnfd_root project) (self p)))
            (verbosity p) (records p) (graphml p).

(** No stage was asked for on the command line. *)
Definition no_stage (args : Args.t) : bool :=
  negb (Args.syntax args) && negb (Args.integrity args) && negb (Args.topology args).

(** The value [main] configures for a stage flag: all stages are on
    when none was asked for. *)
Definition stage (args : Args.t) (flag : bool) : bool :=
  if no_stage args then true else flag.

(** The stage flags of the command line obey the stage rules. *)
Definition stage_flags_ok (args : Args.t) : bool :=
  implb (Args.integrity args) (Args.syntax args)
  && implb (Args.topology args) (Args.integrity args).

(** The branch of [main] the arguments lead to. *)
Inductive branch :=
| ProjectBranch | PackageBranch | ServiceBranch | FunctionBranch | NoBranch.

Definition selected (args : Args.t) : branch :=
  if given (Args.project_path args) then ProjectBranch
  else if given (Args.pd args) then PackageBranch
  else if given (Args.nsd args) then ServiceBranch
  else if given (Args.vnfd args) then FunctionBranch
  else NoBranch.

(** The process in which [main] starts the validation: the validator
    created for [workspace] and configured with the stage flags, the
    directory and the extension. *)
Definition configured (args : Args.t) (workspace : Workspace.t)
           (dpath dext : option string) : Process :=
  mkProcess
    (mkValidator (Workspace.log_level workspace)
                 (stage args (Args.syntax args))
                 (stage args (Args.integrity args))
                 (stage args (Args.topology args))
                 (updated dext (Workspace.default_descriptor_extension workspace))
                 (updated dpath ".")
                 0)
    (if Args.debug args then PBool true else PNone) [] [].

(** The directories [main] loads the workspace and the project from. *)
Definition workspace_root (home : string) (args : Args.t) : string :=
  if given (Args.workspace_path args)
  then match Args.workspace_path args with Some w => w | None => "" end
  else home.

Definition project_root (args : Args.t) : string :=
  match Args.project_path args with Some r => r | None => "" end.

(** Every exception a computation can raise satisfies [P]. *)
Definition raises_only {A} (P : exn -> Prop) (m : M A) : Prop :=
  forall p e p', m p = Raise e p' -> P e.

(** The exceptions of the cycle walk. *)
Definition walk_error (e : exn) : Prop := e = NetworkXError \/ e = ValueError.

(** The exceptions of reading an item of a descriptor. *)
Definition item_error (e : exn) : Prop := e = KeyError \/ e = TypeError.
(* ------------------------------------------------------------------ *)
(** ** Descriptors to run the validator on *)

Module Demo.

(** A content conforms when it names its descriptor version. *)
Definition schema (content : list (string * pyval)) (k : schema_kind) : bool :=
  dict_has content "descriptor_version".

Definition function_entity (id filename : string) (content : list (string * pyval))
  : Function.t :=
  Function.mk id filename content [] [] [] empty_graph.

Definition service_entity (id : string) (content : list (string * pyval)) : Service.t :=
  Service.mk id content [] [] [] [] empty_graph.

(** A firewall with one unit; its management interface is not linked. *)
Definition firewall : Store.function_doc :=
  Store.mk_function_doc
    (function_entity "acme.firewall.1.0" "vnfds/firewall.yml"
                     [("descriptor_version", PStr "vnfd-schema-01")])
    (Some ["mgmt"; "input"; "output"])
    (Some ["vdu01"])
    (Some ["vdu01:eth0"; "vdu01:eth1"])
    (Some [("in", mkLink ("input", "vdu01:eth0"));
           ("out", mkLink ("vdu01:eth1", "output"))]).

(** A descriptor that does not conform to the schema. *)
Definition broken : Store.function_doc :=
  Store.mk_function_doc
    (function_entity "acme.broken.1.0" "vnfds/broken.yml" [("name", PStr "broken")])
    (Some []) (Some []) (Some []) (Some []).

(** A router whose three units are linked in a ring. *)
Definition router : Store.function_doc :=
  Store.mk_function_doc
    (function_entity "acme.router.1.0" "vnfds/router.yml"
                     [("descriptor_version", PStr "vnfd-schema-01")])
    (Some [])
    (Some ["a"; "b"; "c"])
    (Some ["a:eth"; "b:eth"; "c:eth"])
    (Some [("ab", mkLink ("a:eth", "b:eth"));
           ("bc", mkLink ("b:eth", "c:eth"));
           ("ca", mkLink ("c:eth", "a:eth"))]).

Definition firewall_reference : pyval :=
  PDict [("vnf_id", PStr "vnf_fw"); ("vnf_vendor", PStr "acme");
         ("vnf_name", PStr "firewall"); ("vnf_version", PStr "1.0")].

(** A service chaining the firewall between its two interfaces; the
    declared forwarding path crosses the firewall. *)
Definition chain : Store.service_doc :=
  Store.mk_service_doc
    (service_entity "acme.chain.1.0"
                    [("descriptor_version", PStr "1.0");
                     ("network_functions", PList [firewall_reference])])
    (Some ["ns:input"; "ns:output"])
    (Some [("l-in", mkLink ("ns:input", "vnf_fw:input"));
           ("l-out", mkLink ("vnf_fw:output", "ns:output"))])
    (Some [("fp1", ["ns:input"; "vnf_fw:input"; "vnf_fw:output"; "ns:output"])]).

(** A service without functions whose forwarding path walks around a
    ring of three service interfaces. *)
Definition ring : Store.service_doc :=
  Store.mk_service_doc
    (service_entity "acme.ring.1.0"
                    [("descriptor_version", PStr "1.0");
                     ("network_functions", PList [])])
    (Some ["A"; "B"; "C"])
    (Some [("ab", mkLink ("A", "B")); ("bc", mkLink ("B", "C"));
           ("ca", mkLink ("C", "A"))])
    (Some [("fp1", ["A"; "B"; "C"; "A"])]).

(** A service descriptor with no [network_functions] section. *)
Definition bare : Store.service_doc :=
  Store.mk_service_doc
    (service_entity "acme.bare.1.0" [("descriptor_version", PStr "1.0")])
    (Some ["A"; "B"]) (Some [("ab", mkLink ("A", "B"))]) (Some []).

Definition disk : Store.disk :=
  Store.mk_disk
    [("vnfds", ["vnfds/broken.yml"; "vnfds/firewall.yml"; "vnfds/notes.txt";
                "vnfds/router.yml"]);
     ("good", ["vnfds/firewall.yml"; "vnfds/router.yml"])]
    [("chain.yml", chain); ("ring.yml", ring); ("bare.yml", bare)]
    [("vnfds/broken.yml", broken); ("vnfds/firewall.yml", firewall);
     ("vnfds/router.yml", router)]
    schema.

Definition externals : Externals := Store.externals disk.

(** [Validator()] followed by [configure(dpath='vnfds')]. *)
Definition validator : Validator := with_flags default_validator true true true "vnfds".

End Demo.

(* ------------------------------------------------------------------ *)
(** ** More to run the validator on *)

Module Scenes.

(** A project holding the ring service, with its functions in [vnfds]. *)
Definition project : Project.t := Project.mk "project" "vnfds" "yml" ["ring.yml"].

(** A service whose graph is the ring A-B-C-A, as it is after its
    topology graph is built. *)
Definition ring_service : Service.t :=
  Service.mk "acme.ring.1.0" [] [] [] [] [] ring_abc.

(** A service with neither interfaces nor links. *)
Definition hollow : Service.t :=
  Demo.service_entity "acme.hollow.1.0" [("descriptor_version", PStr "1.0")].

(** A workspace directory, and loaders that find a workspace and the
    project above wherever they look. *)
Definition home : string := "/home/sonata/.son-workspace".

Definition load_workspace (ws_root : string) : option Workspace.t :=
  Some (Workspace.mk "yml" "info").

Definition load_project (workspace : Workspace.t) (prj_root : string) : option Project.t :=
  Some project.


(** [son-validate --function vnfds/firewall.yml --dpath nowhere -s] *)
Definition function_firewall : Args.t :=
  Args.mk None None None None (Some "vnfds/firewall.yml") (Some "nowhere") None
          true false false false.

(** [son-validate --service ring.yml -i] *)
Definition integrity_alone : Args.t :=
  Args.mk None None None (Some "ring.yml") None None None
          false true false false.

(** A function descriptor with neither connection points nor links,
    alone on its disk. *)
Definition hollow_function : Store.function_doc :=
  Store.mk_function_doc
    (Demo.function_entity "acme.hollow.1.0" "vnfds/hollow.yml"
                          [("descriptor_version", PStr "vnfd-schema-01")])
    (Some []) (Some []) (Some []) (Some []).

Definition hollow_disk : Store.disk :=
  Store.mk_disk [] [] [("vnfds/hollow.yml", hollow_function)] Demo.schema.

Definition hollow_externals : Externals := Store.externals hollow_disk.

(** Projects without a service descriptor and with two of them. *)
Definition no_descriptor : Project.t := Project.mk "empty" "vnfds" "yml" [].

Definition two_descriptors : Project.t :=
  Project.mk "double" "vnfds" "yml" ["chain.yml"; "ring.yml"].

End Scenes.

(* ------------------------------------------------------------------ *)
(** * Properties *)

(** ** Running the monad *)

Lemma bind_Ok {A B} (m : M A) (k : A -> M B) p a p' :
  m p = Ok a p' -> bind m k p = k a p'.
Proof. intros H; unfold bind; now rewrite H. Qed.

Lemma bind_Exit {A B} (m : M A) (k : A -> M B) p c p' :
  m p = Exit c p' -> bind m k p = Exit c p'.
Proof. intros H; unfold bind; now rewrite H. Qed.

Lemma bind_Raise {A B} (m : M A) (k : A -> M B) p e p' :
  m p = Raise e p' -> bind m k p = Raise e p'.
Proof. intros H; unfold bind; now rewrite H. Qed.

Lemma bind_ret {A B} (a : A) (k : A -> M B) p : bind (ret a) k p = k a p.
Proof. reflexivity. Qed.

Lemma bind_log {B} l m (k : unit -> M B) p : bind (log l m) k p = k tt (logged p l m).
Proof. reflexivity. Qed.

Lemma bind_read {A B} (field : Validator -> A) (k : A -> M B) p :
  bind (read field) k p = k (field (self p)) p.
Proof. reflexivity. Qed.

Lemma bind_assoc {A B C} (m : M A) (f : A -> M B) (g : B -> M C) p :
  bind (bind m f) g p = bind m (fun x => bind (f x) g) p.
Proof. unfold bind. destruct (m p); reflexivity. Qed.

(** Running the next primitive step of a computation. *)
Ltac step :=
  first [ rewrite bind_assoc
        | rewrite bind_log
        | rewrite bind_read
        | rewrite bind_ret ].

Ltac steps := repeat step; cbn [logged self verbosity records graphml].

Lemma logged_self p l m : self (logged p l m) = self p.
Proof. reflexivity. Qed.

(** ** configure *)

Lemma configure_run syntax integrity topology dpath dext log_level p :
  configure syntax integrity topology dpath dext log_level p
  = Ok tt (mkProcess
             (mkValidator (_log_level (self p))
                          (updated syntax (_syntax (self p)))
                          (updated integrity (_integrity (self p)))
                          (updated topology (_topology (self p)))
                          (updated dext (_dext (self p)))
                          (updated dpath (_dpath (self p)))
                          (_warnings_count (self p)))
             (if truthy log_level then log_level else verbosity p)
             (records p) (graphml p)).
Proof.
  unfold configure, bind, read, write, set_level, ret.
  destruct p as [[ll s i t de dp w] vb rs gm]. cbn [self verbosity records graphml].
  destruct syntax, integrity, topology, dpath, dext; cbn;
    destruct (truthy log_level); reflexivity.
Qed.

(** C10: [configure] is a partial update.  Whatever the arguments, the
    call returns; each of syntax, integrity, topology, dpath and dext
    keeps its stored value when the argument is [None] and takes the
    argument otherwise; the remaining fields of the instance
    ([_log_level], [_warnings_count]) are untouched, and outside of the
    instance only the log verbosity can change (when [log_level] is
    true). *)
Theorem configure_partial_update
        (syntax integrity topology : option bool) (dpath dext : option string)
        (log_level : pyval) (p : Process) :
  exists p',
    configure syntax integrity topology dpath dext log_level p = Ok tt p' /\
    _syntax (self p') = updated syntax (_syntax (self p)) /\
    _integrity (self p') = updated integrity (_integrity (self p)) /\
    _topology (self p') = updated topology (_topology (self p)) /\
    _dpath (self p') = updated dpath (_dpath (self p)) /\
    _dext (self p') = updated dext (_dext (self p)) /\
    _log_level (self p') = _log_level (self p) /\
    _warnings_count (self p') = _warnings_count (self p) /\
    records p' = records p /\
    graphml p' = graphml p /\
    verbosity p' = (if truthy log_level then log_level else verbosity p) /\
    (syntax = None -> _syntax (self p') = _syntax (self p)) /\
    (integrity = None -> _integrity (self p') = _integrity (self p)) /\
    (topology = None -> _topology (self p') = _topology (self p)) /\
    (dpath = None -> _dpath (self p') = _dpath (self p)) /\
    (dext = None -> _dext (self p') = _dext (self p)).
Proof.
  eexists. split; [apply configure_run |].
  cbn [self _syntax _integrity _topology _dpath _dext _log_level _warnings_count
            records graphml verbosity].
  repeat split; intros ->; reflexivity.
Qed.

Lemma configure_partial_update_witness :
  exists p',
    configure None (Some false) None None None PNone (fresh default_validator) = Ok tt p' /\
    _syntax (self p') = true /\ _integrity (self p') = false /\ _dpath (self p') = ".".
Proof.
  destruct (configure_partial_update None (Some false) None None None PNone
                                     (fresh default_validator))
    as (p' & H & Hs & Hi & _ & Hd & _ & _ & _ & _ & _ & _ & Hs' & _).
  exists p'. repeat split; [exact H | exact (Hs' eq_refl) | exact Hi | exact Hd].
Defined.

(** ** The configuration check *)

Section Configuration.
Context {E : Externals}.

Lemma assert_configuration_violation caller p :
  (caller = "validate_project" \/ caller = "validate_service" \/
   caller = "validate_function") ->
  stage_dependency_ok (self p) = false ->
  _assert_configuration caller p
  = Exit 1 (logged p ERROR (stage_dependency_error (self p))).
Proof.
  intros Hc Hv. destruct p as [[ll s i t de dp w] vb rs gm].
  unfold stage_dependency_ok in Hv. cbn in Hv.
  destruct Hc as [-> | [-> | ->]]; destruct i, s, t; try discriminate Hv; reflexivity.
Qed.

Lemma assert_configuration_project p :
  stage_dependency_ok (self p) = true ->
  _assert_configuration "validate_project" p = Ok tt p.
Proof.
  intros Hv. destruct p as [[ll s i t de dp w] vb rs gm].
  unfold stage_dependency_ok in Hv. cbn in Hv.
  destruct i, s, t; try discriminate Hv; reflexivity.
Qed.

Lemma assert_configuration_function p :
  stage_dependency_ok (self p) = true ->
  _assert_configuration "validate_function" p = Ok tt p.
Proof.
  intros Hv. destruct p as [[ll s i t de dp w] vb rs gm].
  unfold stage_dependency_ok in Hv. cbn in Hv.
  destruct i, s, t; try discriminate Hv; reflexivity.
Qed.

Lemma assert_configuration_service p :
  stage_dependency_ok (self p) = true ->
  _assert_configuration "validate_service" p
  = if service_parameters_ok (self p) then Ok tt p
    else Exit 1 (logged p CRITICAL InvalidServiceParameters).
Proof.
  intros Hv. destruct p as [[ll s i t de dp w] vb rs gm].
  unfold stage_dependency_ok in Hv. cbn in Hv.
  destruct i, s, t; try discriminate Hv;
    cbv - [str_truthy app]; destruct (str_truthy dp), (str_truthy de); reflexivity.
Qed.

(** C1 (amended): when integrity is enabled without syntax, or
    topology without integrity, each of [validate_project],
    [validate_service] and [validate_function] logs the configuration
    error and exits with status 1, having done nothing else.  When
    both implications hold the stage-dependency check passes:
    [validate_project] and [validate_function] go on with their
    bodies, and [validate_service] goes on with its body exactly when
    its own parameter rule holds as well (integrity and topology both
    off, or a non-empty dpath and dext); otherwise it exits with
    status 1 on that rule. *)
Theorem stage_dependency_enforced
        (fuel : nat) (project : Project.t) (nsd_file : pyval) (vnfd_path : string)
        (p : Process) :
  (stage_dependency_ok (self p) = false ->
   let aborted := Exit 1 (logged p ERROR (stage_dependency_error (self p))) in
   validate_project fuel project p = aborted /\
   validate_service fuel nsd_file p = aborted /\
   validate_function (S fuel) vnfd_path p = aborted) /\
  (stage_dependency_ok (self p) = true ->
   validate_project fuel project p = validate_project_body fuel project p /\
   validate_function (S fuel) vnfd_path p
   = validate_function_body (validate_function fuel) vnfd_path p /\
   validate_service fuel nsd_file p
   = if service_parameters_ok (self p) then validate_service_body fuel nsd_file p
     else Exit 1 (logged p CRITICAL InvalidServiceParameters)).
Proof.
  split; intros Hv.
  - simpl. repeat split.
    + unfold validate_project. apply bind_Exit.
      apply assert_configuration_violation; auto.
    + unfold validate_service. apply bind_Exit.
      apply assert_configuration_violation; auto.
    + cbn [validate_function]. apply bind_Exit.
      apply assert_configuration_violation; auto.
  - repeat split.
    + unfold validate_project.
      erewrite bind_Ok by (now apply assert_configuration_project). reflexivity.
    + cbn [validate_function].
      erewrite bind_Ok by (now apply assert_configuration_function). reflexivity.
    + unfold validate_service.
      pose proof (assert_configuration_service p Hv) as H.
      destruct (service_parameters_ok (self p)).
      * erewrite bind_Ok by exact H. reflexivity.
      * now apply bind_Exit.
Qed.
End Configuration.

Lemma stage_dependency_enforced_witness :
  validate_function (E := Demo.externals) 1 "vnfds"
                    (fresh (with_flags default_validator false true true "vnfds"))
  = Exit 1 (logged (fresh (with_flags default_validator false true true "vnfds"))
                   ERROR (stage_dependency_error
                            (self (fresh (with_flags default_validator false true true
                                                     "vnfds")))))
  /\ validate_function (E := Demo.externals) 1 "vnfds" (fresh Demo.validator)
     = validate_function_body (E := Demo.externals)
                              (validate_function (E := Demo.externals) 0) "vnfds"
                              (fresh Demo.validator).
Proof.
  split.
  - exact (proj2 (proj2 (proj1 (stage_dependency_enforced
             (E := Demo.externals) 0 (Project.mk "" "" "" []) PNone "vnfds"
             (fresh (with_flags default_validator false true true "vnfds"))) eq_refl))).
  - exact (proj1 (proj2 (proj2 (stage_dependency_enforced
             (E := Demo.externals) 0 (Project.mk "" "" "" []) PNone "vnfds"
             (fresh Demo.validator)) eq_refl))).
Defined.

(** C1, as stated, fails: with all three stages enabled both
    implications hold, yet [validate_service] on a validator whose
    dpath is empty does not proceed; it exits in
    [_assert_configuration]. *)
Lemma consistent_flags_still_abort :
  let v := with_flags default_validator true true true "" in
  stage_dependency_ok v = true /\
  validate_service (E := Demo.externals) 1 (PStr "chain.yml") (fresh v)
  = Exit 1 (logged (fresh v) CRITICAL InvalidServiceParameters).
Proof. split; vm_compute; reflexivity. Qed.

(** ** Strings, lists and loops *)

Lemma str_in_In x l : str_in x l = true <-> In x l.
Proof.
  unfold str_in. rewrite existsb_exists. split.
  - intros (y & Hy & Heq). apply String.eqb_eq in Heq. now subst.
  - intros H. exists x. split; [assumption | apply String.eqb_refl].
Qed.

Lemma str_in_false x l : str_in x l = false <-> ~ In x l.
Proof.
  rewrite <- str_in_In. destruct (str_in x l); split; intros; congruence.
Qed.

Lemma split_on_nonempty sep s : split_on sep s <> [].
Proof.
  destruct s as [| c r]; simpl; [discriminate |].
  destruct (Ascii.eqb c sep); [discriminate |].
  destruct (split_on sep r); discriminate.
Qed.

(** A key without the separator is a single token. *)
Lemma split_on_no_separator sep s :
  has_char sep s = false -> split_on sep s = [s].
Proof.
  induction s as [| c r IH]; simpl; [reflexivity |].
  intros H. apply orb_false_iff in H. destruct H as [Hc Hr].
  rewrite Hc, (IH Hr). reflexivity.
Qed.

(** A key with the separator has more than one token. *)
Lemma split_on_separator sep s :
  has_char sep s = true -> 1 < length (split_on sep s).
Proof.
  induction s as [| c r IH]; simpl; [discriminate |].
  destruct (Ascii.eqb c sep) eqn:Hc; simpl.
  - intros _. pose proof (split_on_nonempty sep r).
    destruct (split_on sep r); [congruence | simpl; lia].
  - intros Hr. specialize (IH Hr).
    destruct (split_on sep r); simpl in *; lia.
Qed.

Lemma link_keys_In lnks lid iface :
  In (lid, iface) (link_keys lnks) <->
  exists link, In (lid, link) lnks /\ In iface (pair_items link).
Proof.
  unfold link_keys. rewrite in_flat_map. split.
  - intros ([l k] & Hin & Hmap). apply in_map_iff in Hmap.
    destruct Hmap as (x & Heq & Hx). inversion Heq; subst. simpl in *.
    exists k. split; assumption.
  - intros (link & Hin & Hk). exists (lid, link). split; [assumption |].
    apply in_map_iff. exists iface. split; [reflexivity | assumption].
Qed.

Lemma for_each_app {A R} (l1 l2 : list A) (body : A -> M (option R)) p :
  for_each (l1 ++ l2) body p
  = match for_each l1 body p with
    | Ok None p' => for_each l2 body p'
    | other => other
    end.
Proof.
  revert p. induction l1 as [| x r IH]; intros p; simpl; [reflexivity |].
  unfold bind. destruct (body x p) as [[v |] p' | | |]; try reflexivity.
  apply IH.
Qed.

(** Nested loops over links and their keys visit [link_keys]. *)
Lemma for_each_links {R} (lnks : list (string * Link))
      (body : string -> string -> M (option R)) p :
  for_each lnks (fun ll => for_each (pair_items (snd ll)) (body (fst ll))) p
  = for_each (link_keys lnks) (fun li => body (fst li) (snd li)) p.
Proof.
  revert p. induction lnks as [| [lid link] r IH]; intros p; [reflexivity |].
  cbn [for_each link_keys flat_map]. fold (link_keys r).
  rewrite for_each_app. unfold bind at 1.
  assert (Hin : forall items q,
             for_each items (body (fst (lid, link))) q
             = for_each (map (pair (fst (lid, link))) items)
                        (fun li => body (fst li) (snd li)) q).
  { induction items as [| i items IHi]; intros q; simpl; [reflexivity |].
    unfold bind. destruct (body lid i q) as [[v |] q' | | |]; try reflexivity.
    apply IHi. }
  rewrite <- Hin.
  destruct (for_each (pair_items (snd (lid, link))) (body (fst (lid, link))) p)
    as [[v |] p' | | |]; try reflexivity.
  apply IH.
Qed.

(** A loop whose body either lets an item pass without a trace or
    returns [v], after logging an error about the item. *)
Lemma for_each_first_failure {A R} (good : A -> bool) (err : A -> message) (v : R)
      (body : A -> M (option R)) (l : list A) p :
  (forall x q, body x q = if good x then Ok None q
                          else Ok (Some v) (logged q ERROR (err x))) ->
  for_each l body p
  = match find (fun x => negb (good x)) l with
    | None => Ok None p
    | Some x => Ok (Some v) (logged p ERROR (err x))
    end.
Proof.
  intros Hbody. induction l as [| x r IH]; simpl; [reflexivity |].
  unfold bind. rewrite Hbody. destruct (good x); simpl; [apply IH | reflexivity].
Qed.

(** A loop whose body always returns normally and stops the loop with
    [v] exactly on the items that are not [good]. *)
Lemma for_each_verdict {A R} (good : A -> bool) (v : R)
      (body : A -> M (option R)) (l : list A) p :
  (forall x q, exists q', body x q = Ok (if good x then None else Some v) q') ->
  exists p', for_each l body p = Ok (if forallb good l then None else Some v) p'.
Proof.
  intros Hbody. revert p. induction l as [| x r IH]; intros p; simpl.
  - now exists p.
  - unfold bind. destruct (Hbody x p) as (q' & ->).
    destruct (good x); simpl; [apply IH | now exists q'].
Qed.

Lemma first_token_nth iface :
  nth_error (split_key iface) 0 = Some (first_token iface).
Proof.
  unfold first_token, split_key. pose proof (split_on_nonempty CXPT_KEY_SEPARATOR iface).
  destruct (split_on CXPT_KEY_SEPARATOR iface); [congruence | reflexivity].
Qed.

(** ** Integrity of a function *)

Section FunctionIntegrity.
Context {E : Externals}.

Lemma function_link_iface_verdict function lid iface q :
  exists q',
    function_link_iface function lid iface q
    = Ok (if unit_reference_ok function iface then None else Some PNone) q'.
Proof.
  unfold function_link_iface, unit_reference_ok, qualified.
  rewrite first_token_nth.
  destruct (Nat.ltb 1 (length (split_key iface))); cbn [negb orb].
  - unfold bind, log, eval, ret.
    destruct (str_in (first_token iface) (Function.units function)); cbn [negb];
      eexists; reflexivity.
  - eexists; reflexivity.
Qed.

Lemma unit_references_all_ok function :
  forallb (fun li => unit_reference_ok function (snd li))
          (link_keys (Function.links function)) = false
  <-> exists lid link iface,
      In (lid, link) (Function.links function) /\
      In iface (pair_items link) /\
      1 < length (split_key iface) /\
      ~ In (first_token iface) (Function.units function).
Proof.
  split.
  - intros H.
    destruct (forallb _ _) eqn:Hall in H; [discriminate |]. clear H.
    assert (Hex : exists li, In li (link_keys (Function.links function)) /\
                             unit_reference_ok function (snd li) = false).
    { induction (link_keys (Function.links function)) as [| x r IH];
        simpl in Hall; [discriminate |].
      apply andb_false_iff in Hall. destruct Hall as [Hx | Hr].
      - exists x. split; [now left | assumption].
      - destruct (IH Hr) as (li & Hin & Hli). exists li. split; [now right | assumption]. }
    destruct Hex as ([lid iface] & Hin & Hbad).
    apply link_keys_In in Hin. destruct Hin as (link & Hl & Hi).
    unfold unit_reference_ok, qualified in Hbad. simpl in Hbad.
    apply orb_false_iff in Hbad. destruct Hbad as [Hq Hu].
    apply negb_false_iff in Hq. apply Nat.ltb_lt in Hq.
    apply str_in_false in Hu.
    exists lid, link, iface. auto.
  - intros (lid & link & iface & Hl & Hi & Hq & Hu).
    destruct (forallb _ _) eqn:Hall; [| reflexivity].
    rewrite forallb_forall in Hall.
    assert (Hin : In (lid, iface) (link_keys (Function.links function))).
    { apply link_keys_In. exists link. auto. }
    specialize (Hall _ Hin). unfold unit_reference_ok, qualified in Hall. simpl in Hall.
    apply Nat.ltb_lt in Hq. rewrite Hq in Hall. simpl in Hall.
    apply str_in_In in Hall. contradiction.
Qed.

(** C6: once the four loaders of the function have succeeded,
    [_validate_function_integrity] returns, and its result is false
    (it is [None]) if and only if some link has a connection point
    key that splits on [':'] into more than one token and whose first
    token is not among the loaded unit ids; otherwise the result is
    [True].  A key without [':'] is a single token and passes the
    check of its link without a trace. *)
Theorem function_integrity_units (function f1 f2 f3 f4 : Function.t) (p : Process) :
  function_load_interfaces function = (true, f1) ->
  function_load_units f1 = (true, f2) ->
  function_load_unit_interfaces f2 = (true, f3) ->
  function_load_links f3 = (true, f4) ->
  (exists r p',
      _validate_function_integrity function p = Ok (r, f4) p' /\
      (r = True_ \/ r = PNone) /\
      (truthy r = false <->
       exists lid link iface,
         In (lid, link) (Function.links f4) /\
         In iface (pair_items link) /\
         1 < length (split_key iface) /\
         ~ In (first_token iface) (Function.units f4))) /\
  (forall lid iface q,
      has_char ":" iface = false ->
      function_link_iface f4 lid iface q = Ok None q).
Proof.
  intros H1 H2 H3 H4. split.
  - unfold _validate_function_integrity.
    rewrite H1, H2, H3, H4. cbn [negb].
    unfold bind at 1. cbn [log].
    unfold bind at 1. rewrite for_each_links.
    destruct (for_each_verdict
                (fun li => unit_reference_ok f4 (snd li)) PNone
                (fun li => function_link_iface f4 (fst li) (snd li))
                (link_keys (Function.links f4))
                (mkProcess (self p) (verbosity p)
                           (records p ++ [(INFO, FunctionIntegrity (Function.id function))])
                           (graphml p))) as (p' & Hloop).
    { intros x q. apply function_link_iface_verdict. }
    rewrite Hloop. pose proof (unit_references_all_ok f4) as Hiff.
    destruct (forallb _ _).
    + exists True_, p'. split; [reflexivity |]. split; [now left |].
      split; [discriminate |]. intros Hex. apply Hiff in Hex. discriminate.
    + exists PNone, p'. split; [reflexivity |]. split; [now right |].
      split; [intros _; now apply Hiff | reflexivity].
  - intros lid iface q Hno. unfold function_link_iface, split_key.
    rewrite (split_on_no_separator CXPT_KEY_SEPARATOR iface Hno). reflexivity.
Qed.
End FunctionIntegrity.

Lemma function_integrity_units_witness :
  exists r p' f4,
    _validate_function_integrity (E := Demo.externals)
                                 (Store.f_entity Demo.firewall) (fresh Demo.validator)
    = Ok (r, f4) p' /\ (r = True_ \/ r = PNone).
Proof.
  destruct (function_integrity_units
              (E := Demo.externals) (Store.f_entity Demo.firewall)
              (fresh Demo.validator) eq_refl eq_refl eq_refl eq_refl)
    as [(r & p' & H & Hr & _) _].
  exists r, p'. eexists. split; [exact H | exact Hr].
Defined.

(** ** Integrity of a service: the connection points of the links *)

Section ServiceIntegrity.
Context {E : Externals}.

Lemma service_link_iface_verdict service lid iface q :
  service_link_iface service lid iface q
  = if key_resolves service iface then Ok None q
    else Ok (Some PNone) (logged q ERROR (dangling_error (lid, iface))).
Proof.
  unfold service_link_iface, key_resolves, dangling_error. cbn [fst snd].
  rewrite first_token_nth.
  destruct (str_in iface (Service.interfaces service)); cbn [negb orb]; [reflexivity |].
  destruct (Nat.eqb (length (split_key iface)) 2); cbn [negb andb]; [| reflexivity].
  unfold bind, eval, ret.
  destruct (service_mapped_function service (first_token iface)); reflexivity.
Qed.

(** The loop stops at the first key that does not resolve. *)
Lemma verify_service_links_verdict service p :
  verify_service_links service p
  = match find (fun li => negb (key_resolves service (snd li)))
               (link_keys (Service.links service)) with
    | None => Ok None p
    | Some li => Ok (Some PNone) (logged p ERROR (dangling_error li))
    end.
Proof.
  unfold verify_service_links. rewrite for_each_links.
  apply (for_each_first_failure (fun li => key_resolves service (snd li))
                                dangling_error PNone).
  intros [lid iface] q. apply service_link_iface_verdict.
Qed.

(** C4: in [_validate_service_integrity], once the functions, the
    interfaces and the links of the service are loaded, a connection
    point key of a link passes when it is a declared service
    interface, or when it splits on [':'] into exactly two tokens of
    which the first is the vnf_id of an associated function
    ([key_resolves]).  If some key of some link does not resolve, the
    stage returns [None] right after logging the error about the
    first such key; if every key resolves, the check of the links
    falls through and leaves no record. *)
Theorem service_links_resolve
        (fuel : nat) (service s0 s1 s2 : Service.t) (r0 : pyval) (p p1 : Process) :
  _load_service_functions service (logged p INFO (ServiceIntegrity (Service.id service)))
  = Ok (r0, s0) p1 ->
  truthy r0 = true ->
  service_load_interfaces s0 = (true, s1) ->
  service_load_links s1 = (true, s2) ->
  (forall lid link iface,
      In (lid, link) (Service.links s2) ->
      In iface (pair_items link) ->
      key_resolves s2 iface = false ->
      exists li,
        In li (link_keys (Service.links s2)) /\
        key_resolves s2 (snd li) = false /\
        _validate_service_integrity fuel service p
        = Ok (PNone, s2) (logged p1 ERROR (dangling_error li))) /\
  ((forall lid link iface,
       In (lid, link) (Service.links s2) ->
       In iface (pair_items link) ->
       key_resolves s2 iface = true) ->
   verify_service_links s2 p1 = Ok None p1).
Proof.
  intros H0 Ht H1 H2. split.
  - intros lid link iface Hl Hi Hbad.
    destruct (find (fun li => negb (key_resolves s2 (snd li)))
                   (link_keys (Service.links s2))) as [li |] eqn:Hfind.
    + exists li. pose proof Hfind as Hfind'.
      apply find_some in Hfind. destruct Hfind as [Hin Hneg].
      apply negb_true_iff in Hneg. split; [assumption |]. split; [assumption |].
      unfold _validate_service_integrity.
      unfold bind at 1. cbn [log]. fold (logged p INFO (ServiceIntegrity (Service.id service))).
      erewrite bind_Ok by exact H0. cbn [fst snd]. rewrite Ht. cbn [negb].
      rewrite H1. cbn [negb]. rewrite H2. cbn [negb].
      unfold bind at 1. rewrite verify_service_links_verdict, Hfind'. reflexivity.
    + exfalso.
      assert (Hin : In (lid, iface) (link_keys (Service.links s2))).
      { apply link_keys_In. exists link. auto. }
      apply (find_none _ _ Hfind) in Hin. simpl in Hin. rewrite Hbad in Hin. discriminate.
  - intros Hall. rewrite verify_service_links_verdict.
    destruct (find _ _) as [[lid iface] |] eqn:Hfind; [| reflexivity].
    apply find_some in Hfind. destruct Hfind as [Hin Hneg]. simpl in Hneg.
    apply link_keys_In in Hin. destruct Hin as (link & Hl & Hi).
    rewrite (Hall _ _ _ Hl Hi) in Hneg. discriminate.
Qed.
End ServiceIntegrity.

Lemma service_links_resolve_witness :
  exists s2 p1,
    Service.links s2 <> [] /\
    verify_service_links (E := Demo.externals) s2 p1 = Ok None p1.
Proof.
  destruct (service_links_resolve
              (E := Demo.externals) 1 (Store.s_entity Demo.chain)
              (fresh Demo.validator) eq_refl eq_refl eq_refl eq_refl)
    as [_ H].
  eexists. eexists. split; [| apply H].
  - vm_compute. discriminate.
  - intros lid link iface Hl Hi. vm_compute in Hl.
    destruct Hl as [Hl | [Hl | []]]; inversion Hl; subst; vm_compute in Hi;
      destruct Hi as [Hi | [Hi | []]]; subst; reflexivity.
Defined.

(** ** The cycle walk returns *)

Lemma dict_get_In {V} (d : list (string * V)) k v :
  dict_get d k = Some v -> In k (map fst d).
Proof.
  induction d as [| [k' v'] r IH]; simpl; [discriminate |].
  destruct (String.eqb k k') eqn:Hk.
  - apply String.eqb_eq in Hk. subst. now left.
  - intros H. right. now apply IH.
Qed.

Lemma index_of_None x l : index_of x l = None -> ~ In x l.
Proof.
  induction l as [| y r IH]; simpl; [tauto |].
  destruct (String.eqb x y) eqn:Hxy; [discriminate |].
  destruct (index_of x r); [discriminate |].
  intros _ [Heq | Hin].
  - subst. rewrite String.eqb_refl in Hxy. discriminate.
  - now apply IH.
Qed.

Lemma remove_first_returns x l :
  remove_first x l <> Fuel /\ remove_first x l <> Err IndexError.
Proof.
  induction l as [| y r [IH1 IH2]]; simpl; [split; discriminate |].
  destruct (String.eqb x y); [split; discriminate |].
  destruct (remove_first x r) as [r' | e |]; split; try discriminate; try congruence.
Qed.

(** As long as the trace holds distinct nodes of the graph and the
    budget exceeds the number of nodes not yet traced, the walk ends
    within its budget. *)
Lemma find_graph_cycles_rec_returns fuel graph nd prev_node backtrace :
  NoDup backtrace ->
  incl backtrace (nodes graph) ->
  length (nodes graph) < fuel + length backtrace ->
  find_graph_cycles_rec fuel graph nd prev_node backtrace <> Fuel.
Proof.
  revert nd prev_node backtrace.
  induction fuel as [| fuel IH]; intros nd prev_node backtrace Hnd Hincl Hlen.
  - pose proof (NoDup_incl_length Hnd Hincl). simpl in Hlen. lia.
  - cbn [find_graph_cycles_rec]. unfold neighbors.
    destruct (dict_get graph nd) as [nbrs |] eqn:Hget; [| discriminate].
    assert (Hpop : forall popped : res (list node),
               popped <> Fuel ->
               match popped with
               | Val nbrs' =>
                   if negb (Nat.ltb 0 (length nbrs')) then Val None
                   else match index_of nd backtrace with
                        | Some i => Val (Some (skipn i backtrace))
                        | None =>
                            match nbrs' with
                            | [] => Val (Some (backtrace ++ [nd]))
                            | neighbor :: _ =>
                                find_graph_cycles_rec fuel graph neighbor (Some nd)
                                                      (backtrace ++ [nd])
                            end
                        end
               | Err e => Err e
               | Fuel => Fuel
               end <> Fuel).
    { intros [nbrs' | e |] Hp; try discriminate; [| congruence].
      destruct (negb (Nat.ltb 0 (length nbrs'))); [discriminate |].
      destruct (index_of nd backtrace) eqn:Hidx; [discriminate |].
      destruct nbrs' as [| neighbor rest]; [discriminate |].
      apply IH.
      - apply NoDup_app; [assumption | repeat constructor; simpl; tauto |].
        intros x Hx [Hx' | []]. subst. now apply index_of_None in Hidx.
      - intros x Hx. apply in_app_or in Hx. destruct Hx as [Hx | [Hx | []]].
        + now apply Hincl.
        + subst. unfold nodes. now apply dict_get_In with (v := nbrs).
      - rewrite length_app. simpl. lia. }
    destruct prev_node as [prev |]; [| apply (Hpop (Val nbrs)); discriminate].
    destruct (str_truthy prev).
    + apply (Hpop (remove_first prev nbrs)), remove_first_returns.
    + apply (Hpop (Val nbrs)); discriminate.
Qed.

(** [_find_graph_cycles(graph, node)] always comes back with a value
    or an exception. *)
Lemma find_graph_cycles_total graph nd : _find_graph_cycles graph nd <> Fuel.
Proof.
  unfold _find_graph_cycles. apply find_graph_cycles_rec_returns.
  - constructor.
  - intros x [].
  - unfold nodes. rewrite length_map. simpl. lia.
Qed.

Lemma find_graph_cycles_rec_no_index_error fuel graph nd prev_node backtrace :
  find_graph_cycles_rec fuel graph nd prev_node backtrace <> Err IndexError.
Proof.
  revert nd prev_node backtrace. induction fuel as [| fuel IH]; intros; [discriminate |].
  cbn [find_graph_cycles_rec]. unfold neighbors.
  destruct (dict_get graph nd) as [nbrs |]; [| discriminate].
  assert (Hpop : forall popped : res (list node),
             popped <> Err IndexError ->
             match popped with
             | Val nbrs' =>
                 if negb (Nat.ltb 0 (length nbrs')) then Val None
                 else match index_of nd backtrace with
                      | Some i => Val (Some (skipn i backtrace))
                      | None =>
                          match nbrs' with
                          | [] => Val (Some (backtrace ++ [nd]))
                          | neighbor :: _ =>
                              find_graph_cycles_rec fuel graph neighbor (Some nd)
                                                    (backtrace ++ [nd])
                          end
                      end
             | Err e => Err e
             | Fuel => Fuel
             end <> Err IndexError).
  { intros [nbrs' | e |] Hp; try discriminate; [| congruence].
    destruct (negb (Nat.ltb 0 (length nbrs'))); [discriminate |].
    destruct (index_of nd backtrace); [discriminate |].
    destruct nbrs'; [discriminate | apply IH]. }
  destruct prev_node as [prev |]; [| apply (Hpop (Val nbrs)); discriminate].
  destruct (str_truthy prev).
  - apply (Hpop (remove_first prev nbrs)), remove_first_returns.
  - apply (Hpop (Val nbrs)); discriminate.
Qed.

(** ** Topology of a function *)

Section FunctionTopology.
Context {E : Externals}.

(** The stage once the start node is known. *)
Lemma function_topology_from_start function p start rest :
  let built := function_build_topology_graph function in
  let p1 := logged (logged p INFO (FunctionTopology (Function.id function)))
                   DEBUG (FunctionGraphBuilt (Function.id built)) in
  nodes (Function.graph built) = start :: rest ->
  _validate_function_topology function p
  = match _find_graph_cycles (Function.graph built) start with
    | Val cycles =>
        if cycles_found cycles
        then bind count_warning (fun _ => ret (True_, built))
                  (logged p1 WARNING
                          (FunctionCycles (Function.id built)
                                          (match cycles with Some c => c | None => [] end)))
        else Ok (True_, built) p1
    | Err e => Raise e p1
    | Fuel => Diverge
    end.
Proof.
  intros built p1 Hn. unfold _validate_function_topology.
  fold built. rewrite Hn. cbn [nth_error].
  unfold bind at 1. cbn [log]. unfold bind at 1. cbn [log].
  unfold bind at 1. cbn [eval ret]. unfold bind at 1.
  fold (logged p INFO (FunctionTopology (Function.id function))).
  fold (logged (logged p INFO (FunctionTopology (Function.id function)))
               DEBUG (FunctionGraphBuilt (Function.id built))).
  fold p1.
  destruct (_find_graph_cycles (Function.graph built) start) as [cycles | e |];
    cbn [eval]; try reflexivity.
  unfold ret at 1. destruct (cycles_found cycles); reflexivity.
Qed.

(** C9: [_validate_function_topology] takes
    [function.graph.nodes()[0]] without a guard.  When the graph
    built for the function has no node the stage ends in
    [IndexError]; when it has at least one node the access is in
    bounds, and the stage neither raises [IndexError] nor fails to
    return. *)
Theorem function_topology_start_node (function : Function.t) (p : Process) :
  let built := function_build_topology_graph function in
  let p1 := logged (logged p INFO (FunctionTopology (Function.id function)))
                   DEBUG (FunctionGraphBuilt (Function.id built)) in
  (nodes (Function.graph built) = [] ->
   _validate_function_topology function p = Raise IndexError p1) /\
  (nodes (Function.graph built) <> [] ->
   (exists start, nth_error (nodes (Function.graph built)) 0 = Some start) /\
   (forall q, _validate_function_topology function p <> Raise IndexError q) /\
   _validate_function_topology function p <> Diverge).
Proof.
  intros built p1. split.
  - intros Hn. unfold _validate_function_topology. fold built. rewrite Hn. reflexivity.
  - intros Hn. destruct (nodes (Function.graph built)) as [| start rest] eqn:Hnodes;
      [congruence |].
    split; [now exists start |].
    pose proof (function_topology_from_start function p Hnodes) as Hrun.
    cbv zeta in Hrun. fold built in Hrun. fold p1 in Hrun.
    pose proof (find_graph_cycles_total (Function.graph built) start) as Htot.
    pose proof (find_graph_cycles_rec_no_index_error
                  (S (length (Function.graph built))) (Function.graph built) start None [])
      as Hidx.
    fold (_find_graph_cycles (Function.graph built) start) in Hidx.
    rewrite Hrun.
    destruct (_find_graph_cycles (Function.graph built) start) as [cycles | e |];
      [| | congruence].
    + destruct (cycles_found cycles); split; try discriminate; intros q; discriminate.
    + split; [| discriminate]. intros q Heq. inversion Heq. congruence.
Qed.
End FunctionTopology.

Lemma function_topology_start_node_witness :
  (exists start,
      nth_error (nodes (Function.graph
                          (@function_build_topology_graph
                             Demo.externals
                             (Function.mk "acme.router.1.0" "vnfds/router.yml" []
                                          ["a:eth"; "b:eth"; "c:eth"] ["a"; "b"; "c"]
                                          [("ab", mkLink ("a:eth", "b:eth"))] empty_graph)))) 0
      = Some start) /\
  (exists q,
      _validate_function_topology (E := Demo.externals) (Store.f_entity Demo.broken)
                                  (fresh Demo.validator)
      = Raise IndexError q).
Proof.
  split.
  - apply (function_topology_start_node
             (E := Demo.externals)
             (Function.mk "acme.router.1.0" "vnfds/router.yml" []
                          ["a:eth"; "b:eth"; "c:eth"] ["a"; "b"; "c"]
                          [("ab", mkLink ("a:eth", "b:eth"))] empty_graph)
             (fresh Demo.validator)).
    vm_compute. discriminate.
  - eexists.
    apply (function_topology_start_node
             (E := Demo.externals) (Store.f_entity Demo.broken) (fresh Demo.validator)).
    reflexivity.
Defined.

(** ** Loading the functions of a service *)

Section ServiceFunctions.
Context {E : Externals}.

Lemma load_service_functions_missing service p :
  dict_has (Service.content service) "network_functions" = false ->
  _load_service_functions service p
  = Ok (PNone, service) (logged (functions_listed p) ERROR MissingNetworkFunctions).
Proof.
  intros H. unfold _load_service_functions, functions_listed.
  unfold bind, log, read, ret, logged. cbn [self verbosity records graphml].
  rewrite H. reflexivity.
Qed.

Lemma load_service_functions_empty service p :
  dict_get (Service.content service) "network_functions" = Some (PList []) ->
  _load_service_functions service p = Ok (True_, service) (functions_listed p).
Proof.
  intros H. unfold _load_service_functions, functions_listed, dict_has, subscript.
  unfold bind, log, read, ret, logged. cbn [self verbosity records graphml].
  rewrite H. reflexivity.
Qed.
End ServiceFunctions.

Section MissingFunctions.
Context {E : Externals}.

(** C2 (amended): when the configuration check passes, the service
    descriptor is read and conforms to the schema, and the integrity
    stage is enabled, a content without a ['network_functions'] entry
    makes [validate_service] return [None] from the integrity stage,
    with the missing-functions error as its cause, whatever the
    topology flag; nothing but the log changes.  A
    ['network_functions'] list that is present but empty is accepted:
    [_load_service_functions] returns [True] and associates no
    function. *)
Theorem missing_functions_fail_integrity
        (fuel : nat) (nsd_file : pyval) (service : Service.t) (p : Process) :
  stage_dependency_ok (self p) = true ->
  service_parameters_ok (self p) = true ->
  _integrity (self p) = true ->
  create_service nsd_file = Some service ->
  schema_validate (Service.content service) SCHEMA_SERVICE_DESCRIPTOR = true ->
  (dict_has (Service.content service) "network_functions" = false ->
   exists p',
     validate_service fuel nsd_file p = Ok PNone p' /\
     self p' = self p /\
     graphml p' = graphml p /\
     records p'
     = records p
       ++ [(INFO, ValidatingService nsd_file);
           (INFO, Stages true true (_topology (self p)));
           (INFO, ServiceSyntax (Service.id service));
           (INFO, ServiceIntegrity (Service.id service));
           (DEBUG, LoadingFunctions);
           (DEBUG, let vnfd_files := list_files (_dpath (self p)) (_dext (self p)) in
                   FoundDescriptors (length vnfd_files) vnfd_files (_dpath (self p)));
           (ERROR, MissingNetworkFunctions);
           (ERROR, ServiceFunctionsFailed)]) /\
  (dict_get (Service.content service) "network_functions" = Some (PList []) ->
   forall q, _load_service_functions service q = Ok (True_, service) (functions_listed q)).
Proof.
  intros Hdep Hpar Hint Hcreate Hschema. split.
  - intros Hmiss.
    assert (Hsyn : _syntax (self p) = true).
    { unfold stage_dependency_ok in Hdep. rewrite Hint in Hdep.
      destruct (_syntax (self p)); [reflexivity | discriminate]. }
    unfold validate_service.
    erewrite bind_Ok
      by (rewrite (assert_configuration_service p Hdep), Hpar; reflexivity).
    unfold validate_service_body, log_stages. steps. rewrite Hcreate. steps.
    rewrite Hsyn. unfold _validate_service_syntax. steps.
    rewrite Hschema. cbn [negb]. steps. cbn [truthy True_ negb andb]. steps.
    rewrite Hint. unfold _validate_service_integrity. steps.
    erewrite bind_Ok by (now apply load_service_functions_missing).
    cbn [fst snd truthy negb]. steps. cbn [fst truthy negb andb ret].
    eexists. split; [reflexivity |].
    unfold functions_listed, logged. cbn [self records graphml verbosity].
    repeat split. repeat rewrite <- app_assoc. reflexivity.
  - intros Hempty q. now apply load_service_functions_empty.
Qed.
End MissingFunctions.

Lemma missing_functions_fail_integrity_witness :
  exists p',
    validate_service (E := Demo.externals) 1 (PStr "bare.yml") (fresh Demo.validator)
    = Ok PNone p'.
Proof.
  destruct (proj1 (@missing_functions_fail_integrity
                     Demo.externals 1 (PStr "bare.yml") (Store.s_entity Demo.bare)
                     (fresh Demo.validator) eq_refl eq_refl eq_refl eq_refl eq_refl)
                  eq_refl)
    as (p' & H & _).
  exists p'. exact H.
Defined.

(** C2, as stated, fails for the empty list: a service whose
    ['network_functions'] list is present and empty passes the
    integrity stage, and [validate_service] returns [True]. *)
Lemma empty_function_list_passes_integrity :
  dict_get (Service.content (Store.s_entity Demo.ring)) "network_functions"
  = Some (PList []) /\
  _integrity (with_flags default_validator true true false "vnfds") = true /\
  exists p',
    validate_service (E := Demo.externals) 1 (PStr "ring.yml")
                     (fresh (with_flags default_validator true true false "vnfds"))
    = Ok True_ p'.
Proof. split; [reflexivity |]. split; [reflexivity |]. eexists. vm_compute. reflexivity. Qed.

(** ** Tame computations *)

Lemma offset_base p :
  offset (_warnings_count (self p)) (records p) (graphml p) (base p) = p.
Proof.
  destruct p as [[ll s i t de dp w] vb rs gm]. unfold offset, base, set_warnings_count.
  cbn. now rewrite Nat.add_0_r, !app_nil_r.
Qed.

Lemma base_offset w l g p : base (offset w l g p) = base p.
Proof. reflexivity. Qed.

Lemma tame_ret {A} (a : A) : tame (ret a).
Proof. split; [reflexivity |]. intros p p' H. now inversion H. Qed.

Lemma tame_bind {A B} (m : M A) (k : A -> M B) :
  tame m -> (forall a, tame (k a)) -> tame (bind m k).
Proof.
  intros [Hm1 Hm2] Hk. split.
  - intros w l g p. unfold bind. rewrite Hm1.
    destruct (m p) as [a p' | c p' | e p' |]; try reflexivity.
    apply (Hk a).
  - intros p p' H. unfold bind in H. specialize (Hm2 p).
    destruct (m p) as [a q | c q | e q |]; cbn in H.
    + rewrite <- (Hm2 q eq_refl). now apply (Hk a).
    + inversion H; subst. now apply Hm2.
    + inversion H; subst. now apply Hm2.
    + discriminate.
Qed.

Lemma tame_log l m : tame (log l m).
Proof.
  split.
  - intros w l0 g p. unfold log, offset, offset_outcome.
    cbn [self verbosity records graphml]. now rewrite <- app_assoc.
  - intros p p' H. now inversion H.
Qed.

Lemma tame_read {A} (field : Validator -> A) :
  (forall n v, field (set_warnings_count n v) = field v) -> tame (read field).
Proof.
  intros Hf. split.
  - intros w l g p. unfold read, offset, offset_outcome.
    cbn [self verbosity records graphml]. now rewrite Hf.
  - intros p p' H. now inversion H.
Qed.

Lemma tame_count_warning : tame count_warning.
Proof.
  split.
  - intros w l g p. destruct p as [[ll s i t de dp n] vb rs gm].
    cbv - [Nat.add app]. now rewrite Nat.add_assoc.
  - intros p p' H. now inversion H.
Qed.

Lemma tame_write_graphml gr name : tame (write_graphml gr name).
Proof.
  split.
  - intros w l g p. unfold write_graphml, offset, offset_outcome.
    cbn [self verbosity records graphml]. now rewrite <- app_assoc.
  - intros p p' H. now inversion H.
Qed.

Lemma tame_sys_exit {A} c : tame (@sys_exit A c).
Proof. split; [reflexivity |]. intros p p' H. now inversion H. Qed.

Lemma tame_raise {A} e : tame (@raise A e).
Proof. split; [reflexivity |]. intros p p' H. now inversion H. Qed.

Lemma tame_out_of_fuel {A} : tame (@out_of_fuel A).
Proof. split; [reflexivity |]. intros p p' H. discriminate. Qed.

Lemma tame_eval {A} (r : res A) : tame (eval r).
Proof.
  destruct r; [apply tame_ret | apply tame_raise | apply tame_out_of_fuel].
Qed.

Lemma tame_for_each {A R} (l : list A) (body : A -> M (option R)) :
  (forall x, tame (body x)) -> tame (for_each l body).
Proof.
  intros Hb. induction l as [| x r IH]; cbn [for_each]; [apply tame_ret |].
  apply tame_bind; [apply Hb |]. intros [v |]; [apply tame_ret | apply IH].
Qed.

Lemma tame_for_each_on {A S R} (l : list A) (s : S) (body : S -> A -> M (option R * S)) :
  (forall s x, tame (body s x)) -> tame (for_each_on l s body).
Proof.
  intros Hb. revert s. induction l as [| x r IH]; intros s; cbn [for_each_on];
    [apply tame_ret |].
  apply tame_bind; [apply Hb |]. intros [[v |] s']; cbn [fst snd]; [apply tame_ret | apply IH].
Qed.

(** Breaking a computation down to its primitive steps. *)
Ltac tame_step :=
  match goal with
  | |- tame (bind _ _) => apply tame_bind; [| intros]
  | |- tame (ret _) => apply tame_ret
  | |- tame (log _ _) => apply tame_log
  | |- tame (read _) => apply tame_read; reflexivity
  | |- tame (eval _) => apply tame_eval
  | |- tame (sys_exit _) => apply tame_sys_exit
  | |- tame (raise _) => apply tame_raise
  | |- tame out_of_fuel => apply tame_out_of_fuel
  | |- tame count_warning => apply tame_count_warning
  | |- tame (write_graphml _ _) => apply tame_write_graphml
  | |- tame (for_each _ _) => apply tame_for_each; intros
  | |- tame (for_each_on _ _ _) => apply tame_for_each_on; intros
  | |- tame (if ?c then _ else _) => destruct c
  | |- tame (match ?x with _ => _ end) => destruct x
  | |- tame (let (_, _) := ?x in _) => destruct x
  end.

Ltac tame_steps := repeat tame_step.

Section Tame.
Context {E : Externals}.

Lemma tame_assert_configuration caller : tame (_assert_configuration caller).
Proof. unfold _assert_configuration. tame_steps. Qed.

Lemma tame_log_stages : tame log_stages.
Proof. unfold log_stages. tame_steps. Qed.

Lemma tame_validate_function_file vnfd_path : tame (validate_function_file vnfd_path).
Proof.
  unfold validate_function_file. tame_steps; try apply tame_log_stages.
  - unfold _validate_function_syntax. tame_steps.
  - unfold _validate_function_integrity. tame_steps.
    unfold function_link_iface. tame_steps.
  - unfold _validate_function_topology. tame_steps.
Qed.

Lemma tame_validate_function fuel vnfd_path : tame (validate_function fuel vnfd_path).
Proof.
  revert vnfd_path. induction fuel as [| fuel IH]; intros vnfd_path;
    cbn [validate_function]; [apply tame_out_of_fuel |].
  apply tame_bind; [apply tame_assert_configuration | intros _].
  unfold validate_function_body. tame_steps; try apply IH.
  apply tame_validate_function_file.
Qed.

Lemma tame_validate_service fuel nsd_file : tame (validate_service fuel nsd_file).
Proof.
  unfold validate_service.
  apply tame_bind; [apply tame_assert_configuration | intros _].
  unfold validate_service_body. tame_steps; try apply tame_log_stages.
  - unfold _validate_service_syntax. tame_steps.
  - unfold _validate_service_integrity. tame_steps;
      try apply tame_validate_function.
    + unfold _load_service_functions. tame_steps.
    + unfold verify_service_links. tame_steps. unfold service_link_iface. tame_steps.
  - unfold _validate_service_topology. tame_steps.
    unfold analyse_forwarding_path. tame_steps.
Qed.
End Tame.

Lemma base_base p : base (base p) = base p.
Proof. reflexivity. Qed.

(** A tame computation run from [p] is the same computation run from
    the bare configuration of [p], moved to where [p] stands. *)
Lemma tame_from_base {A} (m : M A) p :
  tame m ->
  m p = offset_outcome (_warnings_count (self p)) (records p) (graphml p) (m (base p)).
Proof.
  intros [Hu _]. rewrite <- Hu, offset_base. reflexivity.
Qed.

(** Two processes with the same configuration get the same answer. *)
Lemma tame_value {A} (m : M A) p q v p' :
  tame m -> base p = base q -> m p = Ok v p' ->
  exists b,
    m (base p) = Ok v b /\
    base b = base p /\
    p' = offset (_warnings_count (self p)) (records p) (graphml p) b /\
    m q = Ok v (offset (_warnings_count (self q)) (records q) (graphml q) b).
Proof.
  intros Ht Hb Hp. pose proof (tame_from_base p Ht) as Hfp.
  pose proof (tame_from_base q Ht) as Hfq. rewrite <- Hb in Hfq.
  destruct Ht as [_ Hk]. specialize (Hk (base p)).
  destruct (m (base p)) as [a b | | |]; rewrite Hp in Hfp; try discriminate.
  inversion Hfp; subst. exists b. repeat split; [| assumption].
  now apply Hk.
Qed.

(** ** Running [validate_service] twice *)

Section Rerun.
Context {E : Externals}.

(** C8 (amended): when [validate_service] has returned on a
    validator, running it again on the same instance, with the same
    descriptor store, returns the same result and adds the same
    number of warnings again: the counter is not reset between runs,
    so after the second run it stands at the count before the first
    run plus twice what one run adds. *)
Theorem validate_service_rerun
        (fuel : nat) (nsd_file : pyval) (p p1 : Process) (r : pyval) :
  validate_service fuel nsd_file p = Ok r p1 ->
  exists p2 added,
    validate_service fuel nsd_file p1 = Ok r p2 /\
    warnings_count (self p1) = warnings_count (self p) + added /\
    warnings_count (self p2) = warnings_count (self p1) + added.
Proof.
  intros Hrun.
  destruct (tame_value (q := p) (tame_validate_service fuel nsd_file) eq_refl Hrun)
    as (b & Hb & Hbase & Hp1 & _).
  assert (Hb1 : base p1 = base p).
  { rewrite Hp1, base_offset. exact Hbase. }
  pose proof (tame_from_base p1 (tame_validate_service fuel nsd_file)) as H2.
  rewrite Hb1, Hb in H2. cbn [offset_outcome] in H2.
  eexists. exists (warnings_count (self b)). split; [exact H2 |].
  rewrite Hp1. unfold warnings_count, offset. cbn. split; reflexivity.
Qed.
End Rerun.

Lemma validate_service_rerun_witness :
  exists p1 p2 added,
    validate_service (E := Demo.externals) 1 (PStr "ring.yml") (fresh Demo.validator)
    = Ok True_ p1 /\
    validate_service (E := Demo.externals) 1 (PStr "ring.yml") p1 = Ok True_ p2 /\
    warnings_count (self p2) = warnings_count (self p1) + added.
Proof.
  eexists.
  assert (H : validate_service (E := Demo.externals) 1 (PStr "ring.yml")
                               (fresh Demo.validator) = Ok True_ _)
    by (vm_compute; reflexivity).
  destruct (@validate_service_rerun Demo.externals _ _ _ _ _ H)
    as (p2 & added & H2 & _ & Hw).
  exists p2, added. split; [exact H |]. split; [exact H2 | exact Hw].
Defined.

(** C8, as stated, fails: the ring service yields one cycle warning per
    run, so the counter reads 1 after the first run and 2 after the
    second. *)
Lemma warnings_accumulate_over_runs :
  exists p1 p2,
    validate_service (E := Demo.externals) 1 (PStr "ring.yml") (fresh Demo.validator)
    = Ok True_ p1 /\
    validate_service (E := Demo.externals) 1 (PStr "ring.yml") p1 = Ok True_ p2 /\
    warnings_count (self p1) = 1 /\
    warnings_count (self p2) = 2.
Proof.
  eexists. eexists. split; [vm_compute; reflexivity |].
  split; [vm_compute; reflexivity |]. split; reflexivity.
Qed.

(** ** [validate_function] on a directory *)

Unset Implicit Arguments.

Section Directory.
Context {E : Externals}.

Lemma each_value fuel f p q v p' :
  base p = base q ->
  validate_function fuel f p = Ok v p' ->
  exists q',
    validate_function fuel f q = Ok v q' /\ base q' = base q /\
    each_file fuel f q = Ok (if truthy v then None else Some PNone) q'.
Proof.
  intros Hb Hrun.
  destruct (tame_value (q := q) (tame_validate_function fuel f) Hb Hrun)
    as (b & _ & Hbb & _ & Hq).
  eexists. split; [exact Hq |]. split.
  - rewrite base_offset, Hbb. exact Hb.
  - unfold each_file. erewrite bind_Ok by exact Hq. destruct (truthy v); reflexivity.
Qed.

(** When every file validates, the loop runs to its end. *)
Lemma directory_all_valid fuel files p p0 :
  base p0 = base p ->
  (forall f, In f files ->
             exists v q, validate_function fuel f p = Ok v q /\ truthy v = true) ->
  exists p', for_each files (each_file fuel) p0 = Ok None p' /\ base p' = base p.
Proof.
  revert p0. induction files as [| f r IH]; intros p0 Hb Hall.
  - exists p0. split; [reflexivity | assumption].
  - destruct (Hall f (or_introl eq_refl)) as (v & q & Hf & Hv).
    destruct (each_value fuel f p p0 v q (eq_sym Hb) Hf) as (q' & _ & Hbq & Heach).
    rewrite Hv in Heach. cbn [for_each].
    erewrite bind_Ok by exact Heach.
    apply IH; [congruence |]. intros g Hg. apply Hall. now right.
Qed.

(** When the loop runs to its end, every file has validated. *)
Lemma directory_ran_through fuel files p p0 p' :
  base p0 = base p ->
  for_each files (each_file fuel) p0 = Ok None p' ->
  forall f, In f files ->
            exists v q, validate_function fuel f p = Ok v q /\ truthy v = true.
Proof.
  revert p0. induction files as [| f r IH]; intros p0 Hb Hloop g Hg; [destruct Hg |].
  cbn [for_each] in Hloop. unfold bind at 1 in Hloop.
  destruct (each_file fuel f p0) as [[o |] q | | |] eqn:Heach; try discriminate.
  unfold each_file, bind in Heach.
  destruct (validate_function fuel f p0) as [v q0 | | |] eqn:Hf; try discriminate.
  destruct (truthy v) eqn:Hv; cbn in Heach; [| discriminate].
  inversion Heach; subst q0.
  destruct (each_value fuel f p0 p v q Hb Hf) as (q' & Hfp & _ & _).
  destruct Hg as [<- | Hg].
  - exists v, q'. auto.
  - apply (IH q); [| exact Hloop | exact Hg].
    destruct (tame_validate_function fuel f) as [_ Hk].
    rewrite <- Hb. apply Hk. rewrite Hf. reflexivity.
Qed.

(** The loop is only ever left with [None]. *)
Lemma directory_stops fuel files p0 o q :
  for_each files (each_file fuel) p0 = Ok (Some o) q -> o = PNone.
Proof.
  revert p0. induction files as [| f r IH]; intros p0 Hloop; [discriminate |].
  cbn [for_each] in Hloop. unfold bind at 1 in Hloop.
  destruct (each_file fuel f p0) as [[o' |] q' | | |] eqn:Heach; try discriminate.
  - unfold each_file, bind in Heach.
    destruct (validate_function fuel f p0) as [v q0 | | |]; try discriminate.
    destruct (truthy v); cbn in Heach; [discriminate |].
    inversion Heach; subst. now inversion Hloop.
  - now apply (IH q').
Qed.

(** C7: on a directory, with a consistent configuration,
    [validate_function] returns [True] if and only if every file that
    [list_files] gives for the directory and the configured extension
    validates with a true result.  The files are taken in the order
    of the listing: when the files before some file validate and that
    file's result is false, the loop has passed the files before it
    ([each_file] is its body) and the call returns [None] in the very
    process in which the validation of that file ended, so no later
    file is looked at. *)
Theorem validate_function_directory (fuel : nat) (vnfd_path : string) (p : Process) :
  stage_dependency_ok (self p) = true ->
  isdir vnfd_path = true ->
  let files := list_files vnfd_path (_dext (self p)) in
  let p0 := logged p INFO (ValidatingFunctionsInPath vnfd_path) in
  ((exists p', validate_function (S fuel) vnfd_path p = Ok True_ p') <->
   (forall f, In f files ->
              exists v q, validate_function fuel f p = Ok v q /\ truthy v = true)) /\
  (forall pre f post v q,
      files = pre ++ f :: post ->
      (forall g, In g pre ->
                 exists v' q', validate_function fuel g p = Ok v' q' /\ truthy v' = true) ->
      validate_function fuel f p = Ok v q ->
      truthy v = false ->
      exists p_pre p_f,
        for_each pre (each_file fuel) p0 = Ok None p_pre /\
        validate_function fuel f p_pre = Ok v p_f /\
        validate_function (S fuel) vnfd_path p = Ok PNone p_f).
Proof.
  intros Hdep Hdir files p0.
  assert (Hrun : validate_function (S fuel) vnfd_path p
                 = bind (for_each files (each_file fuel))
                        (fun r => match r with Some v => ret v | None => ret True_ end)
                        p0).
  { cbn [validate_function].
    erewrite bind_Ok by (now apply assert_configuration_function).
    unfold validate_function_body. rewrite Hdir. steps. reflexivity. }
  assert (Hb0 : base p0 = base p) by reflexivity.
  split; [split |].
  - intros (p' & Hok). rewrite Hrun in Hok. unfold bind at 1 in Hok.
    destruct (for_each files (each_file fuel) p0) as [[o |] q | | |] eqn:Hloop;
      try discriminate.
    + exfalso.
      assert (Ho : o = PNone) by exact (directory_stops fuel files p0 o q Hloop).
      subst o. discriminate.
    + now apply (directory_ran_through fuel files p p0 q Hb0 Hloop).
  - intros Hall. destruct (directory_all_valid fuel files p p0 Hb0 Hall) as (p' & Hloop & _).
    exists p'. rewrite Hrun. erewrite bind_Ok by exact Hloop. reflexivity.
  - intros pre f post v q Hfiles Hpre Hf Hv.
    destruct (directory_all_valid fuel pre p p0 Hb0 Hpre) as (p_pre & Hloop & Hbp).
    destruct (each_value fuel f p p_pre v q (eq_sym Hbp) Hf) as (p_f & Hfp & _ & Heach).
    rewrite Hv in Heach.
    exists p_pre, p_f. split; [exact Hloop |]. split; [exact Hfp |].
    rewrite Hrun, Hfiles.
    unfold bind at 1. rewrite for_each_app. fold (each_file fuel).
    rewrite Hloop. cbn [for_each]. unfold bind at 1. rewrite Heach. reflexivity.
Qed.
End Directory.

Set Implicit Arguments.

Lemma validate_function_directory_witness :
  exists p_f,
    validate_function (E := Demo.externals) 1 "vnfds/broken.yml"
                      (logged (fresh Demo.validator) INFO (ValidatingFunctionsInPath "vnfds"))
    = Ok PNone p_f /\
    validate_function (E := Demo.externals) 2 "vnfds" (fresh Demo.validator) = Ok PNone p_f.
Proof.
  assert (Hf : validate_function (E := Demo.externals) 1 "vnfds/broken.yml"
                                 (fresh Demo.validator) = Ok PNone _)
    by (vm_compute; reflexivity).
  destruct (proj2 (@validate_function_directory
                     Demo.externals 1 "vnfds" (fresh Demo.validator) eq_refl eq_refl)
                  [] "vnfds/broken.yml" ["vnfds/firewall.yml"; "vnfds/router.yml"]
                  PNone _ eq_refl (fun g (H : In g []) => match H with end) Hf eq_refl)
    as (p_pre & p_f & Hpre & Hrun & Hdir).
  exists p_f. inversion Hpre; subst p_pre. split; [exact Hrun | exact Hdir].
Defined.

(** ** Topology of a service: warnings *)

Section ServiceTopology.
Context {E : Externals}.

Lemma count_warning_run p :
  count_warning p
  = Ok tt (mkProcess (set_warnings_count (_warnings_count (self p) + 1) (self p))
                     (verbosity p) (records p) (graphml p)).
Proof. reflexivity. Qed.

(** The analysis of one forwarding path never ends the loop, and
    counts one warning exactly when it finds a cycle. *)
Lemma analyse_forwarding_path_counts service fp p o p' :
  analyse_forwarding_path service fp p = Ok o p' ->
  o = None /\
  warnings_count (self p')
  = warnings_count (self p) + (if path_has_cycle service fp then 1 else 0).
Proof.
  unfold analyse_forwarding_path, path_has_cycle. cbv zeta.
  destruct (str_in "BREAK" (service_trace_path service (snd fp))); cbn [negb andb].
  - steps. intros H. inversion H. split; [reflexivity |].
    unfold warnings_count. cbn. now rewrite Nat.add_0_r.
  - destruct (nodes (add_path empty_graph (service_trace_path service (snd fp))))
      as [| start rest]; cbn [nth_error].
    + intros H. discriminate.
    + cbn [eval]. steps.
      destruct (_find_graph_cycles
                  (add_path empty_graph (service_trace_path service (snd fp))) start)
        as [cycles | e |]; cbn [eval]; try (intros H; discriminate).
      steps. destruct (cycles_found cycles); steps.
      * unfold bind at 1. rewrite count_warning_run.
        intros H. inversion H. split; [reflexivity |]. reflexivity.
      * intros H. inversion H. split; [reflexivity |].
        unfold warnings_count. now rewrite Nat.add_0_r.
Qed.

Lemma analyse_forwarding_paths_count service paths p o p' :
  for_each paths (analyse_forwarding_path service) p = Ok o p' ->
  o = None /\
  warnings_count (self p')
  = warnings_count (self p) + length (filter (path_has_cycle service) paths).
Proof.
  revert p. induction paths as [| fp r IH]; intros p H.
  - inversion H. split; [reflexivity |]. cbn. now rewrite Nat.add_0_r.
  - cbn [for_each] in H. unfold bind at 1 in H.
    destruct (analyse_forwarding_path service fp p) as [o1 q | | |] eqn:Hfp;
      try discriminate.
    destruct (analyse_forwarding_path_counts _ _ _ Hfp) as [-> Hq].
    destruct (IH _ H) as [-> Hp']. split; [reflexivity |].
    rewrite Hp', Hq. cbn [filter]. destruct (path_has_cycle service fp); cbn; lia.
Qed.

(** Whenever [_validate_service_topology] returns, its result is
    false only if the forwarding paths could not be loaded: neither a
    disconnected graph, nor a broken path, nor a cycle makes it fail.
    The counter grows by the number of forwarding paths in which a
    cycle is found, and by nothing else. *)
Lemma service_topology_warnings service p r s' p' :
  _validate_service_topology service p = Ok (r, s') p' ->
  let built := service_build_topology_graph service in
  let loaded := service_load_forwarding_paths built in
  r = (if fst loaded then True_ else PNone) /\
  warnings_count (self p')
  = warnings_count (self p)
    + (if fst loaded
       then length (filter (path_has_cycle (snd loaded)) (Service.fw_paths (snd loaded)))
       else 0).
Proof.
  unfold _validate_service_topology. steps.
  destruct (is_connected (Service.graph (service_build_topology_graph service)))
    as [connected | e |]; cbn [eval]; try (intros H; discriminate).
  steps.
  assert (Hlog : forall (T : Type) (k : unit -> M T) q,
             bind (if connected
                   then log DEBUG (GraphConnected
                                     (Service.id (service_build_topology_graph service)))
                   else log WARNING (GraphDisconnected
                                       (Service.id (service_build_topology_graph service))))
                  k q
             = k tt (logged q (if connected then DEBUG else WARNING)
                            (if connected
                             then GraphConnected
                                    (Service.id (service_build_topology_graph service))
                             else GraphDisconnected
                                    (Service.id (service_build_topology_graph service))))).
  { intros T k q. destruct connected; reflexivity. }
  rewrite Hlog. clear Hlog.
  destruct (service_load_forwarding_paths (service_build_topology_graph service))
    as [ok loaded] eqn:Hload. cbn [fst snd].
  destruct ok; cbn [negb].
  - unfold bind at 1.
    destruct (for_each (Service.fw_paths loaded) (analyse_forwarding_path loaded) _)
      as [o q | | |] eqn:Hloop; try (intros H; discriminate).
    destruct (analyse_forwarding_paths_count _ _ _ Hloop) as [-> Hq].
    steps. unfold write_graphml, bind, ret. intros H. inversion H; subst.
    split; [reflexivity |]. exact Hq.
  - steps. intros H. inversion H; subst. split; [reflexivity |].
    unfold warnings_count. cbn. now rewrite Nat.add_0_r.
Qed.
End ServiceTopology.

(** C3: the service [chain.yml] has a disconnected topology graph and a
    forwarding path whose trace holds a BREAK marker.  Its validation
    succeeds and logs a warning for each of the two, but the counter of
    warnings of the instance stays at zero. *)
Theorem warnings_logged_but_not_counted :
  exists p',
    validate_service (E := Demo.externals) 1 (PStr "chain.yml") (fresh Demo.validator)
    = Ok True_ p' /\
    In (WARNING, GraphDisconnected "acme.chain.1.0") (records p') /\
    In (WARNING,
        ForwardingPathInvalid
          "fp1" 1 ["ns:input"; "vnf_fw:input"; "BREAK"; "vnf_fw:output"; "ns:output"])
       (records p') /\
    warnings_count (self (fresh Demo.validator)) = 0 /\
    warnings_count (self p') = 0.
Proof.
  eexists. split; [vm_compute; reflexivity |].
  cbn [records self]. repeat split; cbn; tauto.
Qed.

(** ** The cycle walk on rings and trees *)

Lemma In_dict_get {V} (d : list (string * V)) k :
  In k (map fst d) -> exists v, dict_get d k = Some v.
Proof.
  induction d as [| [k' v'] r IH]; simpl; [tauto |].
  destruct (String.eqb k k') eqn:Hk; [eexists; reflexivity |].
  intros [Heq | Hin]; [| now apply IH].
  subst. rewrite String.eqb_refl in Hk. discriminate.
Qed.

Lemma edge_node g u v : edge g u v -> In u (nodes g).
Proof. intros (l & Hl & _). now apply dict_get_In with (v := l). Qed.

Lemma index_of_Some x l i : index_of x l = Some i -> In x l.
Proof.
  revert i. induction l as [| y r IH]; simpl; intros i; [discriminate |].
  destruct (String.eqb x y) eqn:Hxy.
  - apply String.eqb_eq in Hxy. now left.
  - destruct (index_of x r); [| discriminate]. intros _. right. now apply (IH n).
Qed.

Lemma remove_first_spec x l :
  In x l -> NoDup l ->
  exists l', remove_first x l = Val l' /\ ~ In x l' /\ incl l' l.
Proof.
  induction l as [| y r IH]; intros Hin Hnd; [destruct Hin |].
  inversion Hnd as [| ? ? Hy Hr]; subst. simpl.
  destruct (String.eqb x y) eqn:Hxy.
  - apply String.eqb_eq in Hxy. subst. exists r. repeat split; [assumption |].
    intros z Hz. now right.
  - destruct Hin as [Heq | Hin].
    { subst. rewrite String.eqb_refl in Hxy. discriminate. }
    destruct (IH Hin Hr) as (r' & -> & Hnot & Hincl).
    exists (y :: r'). repeat split.
    + intros [Heq | Hx]; [| contradiction].
      subst. rewrite String.eqb_refl in Hxy. discriminate.
    + intros z [Hz | Hz]; [now left | right; now apply Hincl].
Qed.

Lemma chain_tail g a r : chain g (a :: r) -> chain g r.
Proof. destruct r; simpl; tauto. Qed.

Lemma chain_app_r g l1 l2 : chain g (l1 ++ l2) -> chain g l2.
Proof.
  induction l1 as [| a r IH]; [trivial |]. intros H. apply IH.
  now apply chain_tail with (a := a).
Qed.

Lemma chain_app_l g l1 l2 : chain g (l1 ++ l2) -> chain g l1.
Proof.
  induction l1 as [| a r IH]; [intros _; exact I |].
  destruct r as [| b r']; [intros _; exact I |].
  intros H. change (edge g a b /\ chain g ((b :: r') ++ l2)) in H.
  change (edge g a b /\ chain g (b :: r')). destruct H as [He H].
  split; [assumption | now apply IH].
Qed.

Lemma chain_snoc g l a b : chain g (l ++ [a]) -> edge g a b -> chain g ((l ++ [a]) ++ [b]).
Proof.
  induction l as [| x r IH]; intros Hc He.
  - simpl. auto.
  - destruct r as [| y r'].
    + simpl in *. tauto.
    + change (edge g x y /\ chain g ((y :: r') ++ [a])) in Hc.
      change (edge g x y /\ chain g (((y :: r') ++ [a]) ++ [b])).
      destruct Hc as [Hx Hc]. split; [assumption | now apply IH].
Qed.

Lemma chain_last_edge g l b : l <> [] -> chain g (l ++ [b]) -> edge g (last l "") b.
Proof.
  induction l as [| a r IH]; [congruence |]. intros _ Hc.
  destruct r as [| a' r'].
  - simpl in *. tauto.
  - change (edge g a a' /\ chain g ((a' :: r') ++ [b])) in Hc. destruct Hc as [_ Hc].
    change (last (a :: a' :: r') "") with (last (a' :: r') "").
    apply IH; [discriminate | exact Hc].
Qed.

(** What the walk keeps true. *)
Lemma walk_facts g backtrace prev_node nd :
  walk g backtrace prev_node nd ->
  NoDup backtrace /\
  chain g (backtrace ++ [nd]) /\
  match prev_node with
  | None => backtrace = []
  | Some p => exists pre, backtrace = pre ++ [p] /\
                          forall pre' y, pre = pre' ++ [y] -> nd <> y
  end.
Proof.
  induction 1 as [nd | backtrace prev_node nd neighbor Hw (Hnd & Hch & Hprev) Hnew He Hne].
  - split; [constructor |]. split; [exact I | reflexivity].
  - split; [| split].
    + apply NoDup_app; [assumption | repeat constructor; simpl; tauto |].
      intros x Hx [Hx' | []]. subst. contradiction.
    + now apply chain_snoc.
    + exists backtrace. split; [reflexivity |]. intros pre' y Hpre.
      destruct prev_node as [p |].
      * destruct Hprev as (pre & Hbt & _). rewrite Hbt in Hpre.
        apply app_inj_tail in Hpre. destruct Hpre as [_ <-]. now apply Hne.
      * subst backtrace. destruct pre'; discriminate.
Qed.

Section Trees.
Variable g : Graph.
Hypothesis Hwf : well_formed g.
Hypothesis Hacyclic : acyclic g.
Hypothesis Hnames : forall n, In n (nodes g) -> n <> "".

Lemma str_truthy_node n : In n (nodes g) -> str_truthy n = true.
Proof.
  intros Hn. unfold str_truthy. destruct (String.eqb_spec n ""); [| reflexivity].
  exfalso. now apply (Hnames Hn).
Qed.

(** The walk cannot come back to a node of its trace. *)
Lemma walk_never_returns backtrace prev_node nd :
  walk g backtrace prev_node nd -> ~ In nd backtrace.
Proof.
  intros Hw Hin. destruct (walk_facts Hw) as (Hnd & Hch & Hprev).
  destruct (in_split _ _ Hin) as (pre & suf & Hbt).
  assert (Hc : chain g ((nd :: suf) ++ [nd])).
  { apply chain_app_r with (l1 := pre). rewrite app_assoc, <- Hbt. exact Hch. }
  assert (Hlen : length (nd :: suf) = 2).
  { apply Hacyclic.
    - rewrite Hbt in Hnd. now apply NoDup_app_remove_l in Hnd.
    - now apply chain_app_l in Hc.
    - cbn [hd]. apply chain_last_edge; [discriminate | exact Hc]. }
  destruct suf as [| x [| ? ?]]; try discriminate.
  destruct prev_node as [p |].
  - destruct Hprev as (pre1 & Hbt1 & Hne).
    assert (Heq : pre1 ++ [p] = (pre ++ [nd]) ++ [x]).
    { rewrite <- Hbt1, Hbt, <- app_assoc. reflexivity. }
    apply app_inj_tail in Heq. destruct Heq as [Hpre1 _].
    now apply (Hne pre nd Hpre1).
  - subst backtrace. destruct pre; discriminate.
Qed.

(** From any situation of the walk on a tree, the call ends without
    a cycle, unless its budget runs out. *)
Lemma find_graph_cycles_rec_tree fuel backtrace prev_node nd :
  walk g backtrace prev_node nd ->
  In nd (nodes g) ->
  find_graph_cycles_rec fuel g nd prev_node backtrace = Val None \/
  find_graph_cycles_rec fuel g nd prev_node backtrace = Fuel.
Proof.
  revert backtrace prev_node nd.
  induction fuel as [| fuel IH]; intros backtrace prev_node nd Hw Hnode; [now right |].
  destruct Hwf as (_ & Hnodup & Hsym).
  cbn [find_graph_cycles_rec]. unfold neighbors.
  destruct (In_dict_get g nd Hnode) as (nbrs & Hget). rewrite Hget.
  assert (Hnot : index_of nd backtrace = None).
  { destruct (index_of nd backtrace) eqn:Hidx; [| reflexivity].
    exfalso. apply (walk_never_returns Hw). now apply index_of_Some in Hidx. }
  assert (Hgo : forall nbrs',
             incl nbrs' nbrs ->
             (forall p, prev_node = Some p -> ~ In p nbrs') ->
             (if negb (Nat.ltb 0 (length nbrs')) then Val None
              else match index_of nd backtrace with
                   | Some i => Val (Some (skipn i backtrace))
                   | None =>
                       match nbrs' with
                       | [] => Val (Some (backtrace ++ [nd]))
                       | neighbor :: _ =>
                           find_graph_cycles_rec fuel g neighbor (Some nd)
                                                 (backtrace ++ [nd])
                       end
                   end) = Val None \/
             (if negb (Nat.ltb 0 (length nbrs')) then Val None
              else match index_of nd backtrace with
                   | Some i => Val (Some (skipn i backtrace))
                   | None =>
                       match nbrs' with
                       | [] => Val (Some (backtrace ++ [nd]))
                       | neighbor :: _ =>
                           find_graph_cycles_rec fuel g neighbor (Some nd)
                                                 (backtrace ++ [nd])
                       end
                   end) = Fuel).
  { intros nbrs' Hincl Hprev. rewrite Hnot.
    destruct nbrs' as [| neighbor rest]; [now left |]. cbn [length Nat.ltb Nat.leb negb].
    assert (He : edge g nd neighbor).
    { exists nbrs. split; [assumption |]. apply Hincl. now left. }
    apply IH.
    - apply walk_step with (prev_node := prev_node); try assumption.
      + exact (walk_never_returns Hw).
      + intros p Hp Heq. subst. apply (Hprev p eq_refl). now left.
    - apply (edge_node (Hsym _ _ He)). }
  destruct prev_node as [p |].
  - destruct (walk_facts Hw) as (_ & Hch & (pre & Hbt & _)).
    assert (Hep : edge g p nd).
    { rewrite Hbt in Hch. rewrite <- app_assoc in Hch. apply chain_app_r in Hch.
      simpl in Hch. tauto. }
    rewrite (str_truthy_node p (edge_node Hep)).
    destruct (Hsym _ _ Hep) as (l & Hl & Hin). rewrite Hget in Hl. inversion Hl; subst l.
    destruct (@remove_first_spec p nbrs Hin (Hnodup _ _ Hget)) as (nbrs' & -> & Hp & Hincl).
    apply Hgo; [assumption |]. intros q Hq. inversion Hq; subst. assumption.
  - apply Hgo; [apply incl_refl | discriminate].
Qed.

(** On a tree whose nodes all have non-empty names,
    [_find_graph_cycles] reports no cycle, from any start node. *)
Lemma find_graph_cycles_tree start :
  In start (nodes g) -> _find_graph_cycles g start = Val None.
Proof.
  intros Hstart.
  destruct (find_graph_cycles_rec_tree (S (length g)) (walk_start g start) Hstart)
    as [H | H]; [exact H |].
  exfalso. now apply (find_graph_cycles_total g start).
Qed.
End Trees.

Lemma distinct_nodes_NoDup l : distinct_nodes l = true -> NoDup l.
Proof.
  induction l as [| x r IH]; simpl; [constructor |].
  intros H. apply andb_true_iff in H. destruct H as [Hx Hr].
  apply negb_true_iff, str_in_false in Hx. constructor; auto.
Qed.

Lemma has_edge_edge g u v : has_edge g u v = true <-> edge g u v.
Proof.
  unfold has_edge, edge. split.
  - destruct (dict_get g u) as [l |]; [| discriminate].
    intros H. exists l. split; [reflexivity | now apply str_in_In].
  - intros (l & -> & Hin). now apply str_in_In.
Qed.

Lemma dict_get_entry {V} (d : list (string * V)) k v :
  dict_get d k = Some v -> In (k, v) d.
Proof.
  induction d as [| [k' v'] r IH]; simpl; [discriminate |].
  destruct (String.eqb k k') eqn:Hk.
  - apply String.eqb_eq in Hk. intros H. inversion H; subst. now left.
  - intros H. right. now apply IH.
Qed.

Lemma well_formed_check_sound g : well_formed_check g = true -> well_formed g.
Proof.
  unfold well_formed_check. intros H.
  apply andb_true_iff in H. destruct H as [H Hsym].
  apply andb_true_iff in H. destruct H as [Hn Hl].
  rewrite forallb_forall in Hl, Hsym. repeat split.
  - now apply distinct_nodes_NoDup.
  - intros u l Hget. apply distinct_nodes_NoDup.
    apply (Hl (u, l)). now apply dict_get_entry.
  - intros u v (l & Hget & Hin). apply has_edge_edge.
    specialize (Hsym (u, l) (dict_get_entry _ _ Hget)). cbn [fst snd] in Hsym.
    rewrite forallb_forall in Hsym. now apply Hsym.
Qed.

(** The directed pairs of joined nodes of a graph. *)
Lemma edge_pairs g u v :
  edge g u v -> In (u, v) (flat_map (fun kl => map (pair (fst kl)) (snd kl)) g).
Proof.
  intros (l & Hl & Hin). induction g as [| [k nb] r IH]; simpl in *; [discriminate |].
  apply in_or_app. destruct (String.eqb u k) eqn:Huk.
  - apply String.eqb_eq in Huk. subst. inversion Hl; subst. left.
    apply in_map_iff. exists v. auto.
  - right. now apply IH.
Qed.

(** Enumerating the edges a hypothesis speaks of, on a concrete graph. *)
Ltac edges :=
  repeat match goal with
         | H : edge _ _ _ |- _ => apply edge_pairs in H; vm_compute in H
         | H : _ \/ _ |- _ => destruct H as [H | H]
         | H : (_, _) = (_, _) |- _ => inversion H; clear H; subst
         | H : False |- _ => destruct H
         | H : _ = _ |- _ => discriminate H
         end.

Ltac distinct :=
  repeat match goal with
         | H : NoDup (_ :: _) |- _ => inversion H; clear H; subst
         end;
  simpl in *; intuition congruence.

(** A graph of three nodes in a row has no cycle. *)
Ltac no_cycle :=
  intros c Hnd Hch Hcl;
  destruct c as [| x [| y [| z [| w r]]]];
  [ simpl in Hcl; edges
  | simpl in Hcl; edges
  | reflexivity
  | simpl in Hch, Hcl; destruct Hch as (Hxy & Hyz & _); edges; distinct
  | exfalso; simpl in Hch; destruct Hch as (Hxy & Hyz & Hzw & _); edges; distinct ].

Lemma tree_xyz_is_a_tree : well_formed tree_xyz /\ acyclic tree_xyz.
Proof.
  split; [apply well_formed_check_sound; reflexivity | no_cycle].
Qed.

(** The walk on the tree x-y-z reports no cycle from any of its nodes. *)
Lemma tree_xyz_no_cycle start :
  In start ["x"; "y"; "z"] -> _find_graph_cycles tree_xyz start = Val None.
Proof.
  intros Hs. destruct tree_xyz_is_a_tree as [Hwf Hac].
  apply find_graph_cycles_tree; try assumption.
  intros n Hn. vm_compute in Hn. intuition (subst; discriminate).
Qed.

(** The walk on the ring A-B-C-A, started at A, comes back to A and
    reports the cycle A, B, C. *)
Lemma ring_cycle : _find_graph_cycles ring_abc "A" = Val (Some ["A"; "B"; "C"]).
Proof. reflexivity. Qed.

(** C5: the graph with the edges a-'' and ''-b is a tree, yet the walk
    started at its node a reports the cycle '', b: arriving at b from
    the node named by the empty string, [prev_node] is false, the node
    it came from is not taken out of the neighbours, and the walk turns
    back. *)
Theorem cycle_reported_on_a_tree :
  well_formed tree_with_empty_name /\
  acyclic tree_with_empty_name /\
  _find_graph_cycles tree_with_empty_name "a" = Val (Some [""; "b"]).
Proof.
  split; [apply well_formed_check_sound; reflexivity |].
  split; [no_cycle | reflexivity].
Qed.

(* ------------------------------------------------------------------ *)
(** * Further properties of the validator *)

(** ** What a validation leaves behind *)

Unset Implicit Arguments.

Lemma bind_Ok_inv {A B} (m : M A) (k : A -> M B) p b p' :
  bind m k p = Ok b p' -> exists a q, m p = Ok a q /\ k a q = Ok b p'.
Proof.
  unfold bind. destruct (m p) as [a q | | |]; try discriminate.
  intros H. now exists a, q.
Qed.

Lemma base_same_configuration p p' :
  base p' = base p -> same_configuration (self p) (self p') /\ verbosity p' = verbosity p.
Proof.
  destruct p as [[ll s i t de dp w] vb rs gm], p' as [[ll' s' i' t' de' dp' w'] vb' rs' gm'].
  unfold base, set_warnings_count, same_configuration. cbn. intros H. inversion H.
  repeat split; reflexivity.
Qed.

Lemma tame_extends {A} (m : M A) p p' :
  tame m -> final (m p) = Some p' ->
  same_configuration (self p) (self p') /\ extends p p'.
Proof.
  intros Ht Hf.
  destruct (base_same_configuration p p') as [Hc Hv]; [now apply Ht |].
  split; [exact Hc |]. split; [exact Hv |].
  rewrite (tame_from_base p Ht) in Hf.
  destruct (m (base p)) as [a b | c b | e b |]; cbn in Hf; inversion Hf;
    cbn [offset self records graphml set_warnings_count _warnings_count];
    (split; [lia |]); split; eexists; reflexivity.
Qed.

Section Leaves.
Context {E : Externals}.

(** X1: however [validate_service] or [validate_function] ends (it
    returns, exits or raises), the configuration of the validator and
    the log verbosity are what they were; the counter of warnings has
    not gone down; the records logged before and the files written
    before are still there, in front of whatever the call added. *)
Theorem validation_only_adds
        (fuel : nat) (nsd_file : pyval) (vnfd_path : string) (p p' : Process) :
  final (validate_service fuel nsd_file p) = Some p' \/
  final (validate_function fuel vnfd_path p) = Some p' ->
  same_configuration (self p) (self p') /\ extends p p'.
Proof.
  intros [H | H].
  - exact (tame_extends _ p p' (tame_validate_service fuel nsd_file) H).
  - exact (tame_extends _ p p' (tame_validate_function fuel vnfd_path) H).
Qed.

(** The configuration check changes nothing when it passes. *)
Lemma assert_configuration_Ok caller p u q :
  _assert_configuration caller p = Ok u q -> q = p.
Proof.
  unfold _assert_configuration.
  destruct (String.eqb caller "validate_function"),
           (String.eqb caller "validate_service"),
           (String.eqb caller "validate_project");
    destruct p as [[ll s i t de dp w] vb rs gm]; destruct s, i, t;
    cbv - [str_truthy app];
    try (intros H; inversion H; reflexivity);
    destruct (str_truthy dp), (str_truthy de);
    intros H; inversion H; reflexivity.
Qed.

(** The two ways the configuration check can end. *)
Lemma assert_configuration_cases caller p :
  _assert_configuration caller p = Ok tt p \/
  exists l m, _assert_configuration caller p = Exit 1 (logged p l m).
Proof.
  unfold _assert_configuration.
  destruct (String.eqb caller "validate_function"),
           (String.eqb caller "validate_service"),
           (String.eqb caller "validate_project");
    destruct p as [[ll s i t de dp w] vb rs gm]; destruct s, i, t;
    cbv - [str_truthy app];
    try (left; reflexivity); try (right; eexists; eexists; reflexivity);
    destruct (str_truthy dp), (str_truthy de);
    try (left; reflexivity); right; eexists; eexists; reflexivity.
Qed.

(** X5: [_assert_configuration] never raises and never touches the
    validator: either it returns and the process is what it was, or the
    process exits with status 1 after exactly one more log record.  A
    caller other than the three validation methods always gets the
    exit, whatever the configuration. *)
Theorem assert_configuration_outcomes (caller : string) (p : Process) :
  (_assert_configuration caller p = Ok tt p \/
   exists l m, _assert_configuration caller p = Exit 1 (logged p l m)) /\
  (caller <> "validate_function" -> caller <> "validate_service" ->
   caller <> "validate_project" ->
   _assert_configuration caller p = Exit 1 (logged p ERROR ScopeUndetermined)).
Proof.
  split; [apply assert_configuration_cases |].
  intros H1 H2 H3. unfold _assert_configuration.
  apply String.eqb_neq in H1, H2, H3. rewrite H1, H2, H3. reflexivity.
Qed.

(** X2: when [validate_project] returns, the directory and extension
    the validator searches for function descriptors are those of the
    project, whatever [configure] had set; the stage flags are what
    they were. *)
Theorem validate_project_takes_project_paths
        (fuel : nat) (project : Project.t) (p p' : Process) (v : pyval) :
  validate_project fuel project p = Ok v p' ->
  _dpath (self p') = Project.vnfd_root project /\
  _dext (self p') = Project.descriptor_extension project /\
  _syntax (self p') = _syntax (self p) /\
  _integrity (self p') = _integrity (self p) /\
  _topology (self p') = _topology (self p).
Proof.
  unfold validate_project. intros H.
  apply bind_Ok_inv in H. destruct H as (u & q & Ha & H).
  apply assert_configuration_Ok in Ha. subst q.
  unfold validate_project_body, log_stages in H. revert H. steps.
  unfold bind at 1, write at 1. unfold bind at 1, write at 1.
  cbn [self verbosity records graphml]. steps.
  unfold bind at 1.
  destruct (_load_project_service_file project _) as [nsd q | | |] eqn:Hload;
    try discriminate.
  intros H.
  assert (Hq : same_configuration
                 (set_dext (Project.descriptor_extension project)
                           (set_dpath (Project.vnfd_root project) (self p)))
                 (self q)).
  { unfold _load_project_service_file in Hload.
    destruct (Project.get_ns_descriptor project) as [| f [| f' r]];
      try discriminate; inversion Hload; subst; repeat split. }
  assert (Hf : final (validate_service fuel nsd q) = Some p') by (rewrite H; reflexivity).
  destruct (tame_extends _ q p' (tame_validate_service fuel nsd) Hf)
    as [(_ & Hs & Hi & Ht & Hde & Hdp) _].
  destruct Hq as (_ & Hs' & Hi' & Ht' & Hde' & Hdp'). cbn in *.
  repeat split; congruence.
Qed.
End Leaves.

Lemma validation_only_adds_witness :
  exists p',
    final (validate_service (E := Demo.externals) 1 (PStr "ring.yml") (fresh Demo.validator))
    = Some p' /\
    extends (fresh Demo.validator) p'.
Proof.
  eexists.
  assert (H : final (validate_service (E := Demo.externals) 1 (PStr "ring.yml")
                                      (fresh Demo.validator)) = Some _)
    by (vm_compute; reflexivity).
  split; [exact H |].
  exact (proj2 (@validation_only_adds Demo.externals 1 (PStr "ring.yml") "" _ _
                                      (or_introl H))).
Defined.

Lemma validate_project_takes_project_paths_witness :
  exists p',
    validate_project (E := Demo.externals) 1 Scenes.project
                     (fresh (with_flags default_validator true true true "elsewhere"))
    = Ok True_ p' /\
    _dpath (self p') = "vnfds".
Proof.
  eexists.
  assert (H : validate_project (E := Demo.externals) 1 Scenes.project
                               (fresh (with_flags default_validator true true true
                                                  "elsewhere")) = Ok True_ _)
    by (vm_compute; reflexivity).
  split; [exact H |].
  exact (proj1 (@validate_project_takes_project_paths Demo.externals 1 Scenes.project
                                                      _ _ _ H)).
Defined.

Lemma assert_configuration_outcomes_witness :
  _assert_configuration "main" (fresh default_validator)
  = Exit 1 (logged (fresh default_validator) ERROR ScopeUndetermined).
Proof.
  apply (proj2 (assert_configuration_outcomes "main" (fresh default_validator)));
    discriminate.
Defined.

(** ** The answers of the validation methods *)

Lemma verdict_bind {A} (m : M A) (k : A -> M pyval) :
  (forall a, verdict (k a)) -> verdict (bind m k).
Proof.
  intros Hk p v p' H. apply bind_Ok_inv in H. destruct H as (a & q & _ & H).
  exact (Hk a q v p' H).
Qed.

Lemma verdict_True : verdict (ret True_).
Proof. intros p v p' H. inversion H. now left. Qed.

Lemma verdict_None : verdict (ret PNone).
Proof. intros p v p' H. inversion H. now right. Qed.

Ltac verdict_step :=
  match goal with
  | |- verdict (bind _ _) => apply verdict_bind; intros
  | |- verdict (ret True_) => apply verdict_True
  | |- verdict (ret PNone) => apply verdict_None
  | |- verdict (if ?c then _ else _) => destruct c
  | |- verdict (match ?x with _ => _ end) => destruct x
  end.

Section Verdicts.
Context {E : Externals}.

Lemma verdict_validate_function fuel vnfd_path : verdict (validate_function fuel vnfd_path).
Proof.
  revert vnfd_path. induction fuel as [| fuel IH]; intros vnfd_path;
    [intros p v p' H; discriminate |].
  cbn [validate_function]. apply verdict_bind. intros _.
  unfold validate_function_body. destruct (isdir vnfd_path).
  - apply verdict_bind. intros _. apply verdict_bind. intros dext.
    intros p v p' H. apply bind_Ok_inv in H. destruct H as (r & q & Hloop & H).
    destruct r as [o |]; inversion H; subst; [| now left].
    right. exact (directory_stops fuel _ p v p' Hloop).
  - unfold validate_function_file. repeat verdict_step.
Qed.

Lemma verdict_validate_service fuel nsd_file : verdict (validate_service fuel nsd_file).
Proof.
  unfold validate_service, validate_service_body. repeat verdict_step.
Qed.

(** X3: whenever [validate_function], [validate_service] or
    [validate_project] returns, what it returns is [True] or [None]:
    a failed validation is reported by [None], never by [False], and
    no other value comes back. *)
Theorem validation_answers_True_or_None
        (fuel : nat) (vnfd_path : string) (nsd_file : pyval) (project : Project.t) :
  verdict (validate_function fuel vnfd_path) /\
  verdict (validate_service fuel nsd_file) /\
  verdict (validate_project fuel project).
Proof.
  split; [apply verdict_validate_function |]. split; [apply verdict_validate_service |].
  unfold validate_project, validate_project_body.
  do 7 (apply verdict_bind; intros). apply verdict_validate_service.
Qed.
End Verdicts.

(** ** How deep [validate_function] calls itself *)

Lemma returns_bind {A B} (m : M A) (k : A -> M B) :
  returns m -> (forall a, returns (k a)) -> returns (bind m k).
Proof.
  intros Hm Hk p. unfold bind. specialize (Hm p).
  destruct (m p) as [a q | | |]; try discriminate; [apply Hk | congruence].
Qed.

Lemma returns_ret {A} (a : A) : returns (ret a).
Proof. intros p. discriminate. Qed.

Lemma returns_eval {A} (r : res A) : r <> Fuel -> returns (eval r).
Proof. intros Hr p. destruct r; try discriminate. congruence. Qed.

Lemma returns_for_each {A R} (l : list A) (body : A -> M (option R)) :
  (forall x, In x l -> returns (body x)) -> returns (for_each l body).
Proof.
  induction l as [| x r IH]; intros Hb; cbn [for_each]; [apply returns_ret |].
  apply returns_bind; [apply Hb; now left |].
  intros [v |]; [apply returns_ret |]. apply IH. intros y Hy. apply Hb. now right.
Qed.

Ltac returns_step :=
  match goal with
  | |- returns (bind _ _) => apply returns_bind; [| intros]
  | |- returns (ret _) => apply returns_ret
  | |- returns (log _ _) => intros ?; discriminate
  | |- returns (read _) => intros ?; discriminate
  | |- returns (sys_exit _) => intros ?; discriminate
  | |- returns (raise _) => intros ?; discriminate
  | |- returns count_warning => intros ?; discriminate
  | |- returns (write_graphml _ _) => intros ?; discriminate
  | |- returns (eval (_find_graph_cycles _ _)) =>
      apply returns_eval, find_graph_cycles_total
  | |- returns (eval (match ?x with _ => _ end)) => destruct x
  | |- returns (eval (Val _)) => apply returns_eval; discriminate
  | |- returns (eval (Err _)) => apply returns_eval; discriminate
  | |- returns (for_each _ _) => apply returns_for_each; intros
  | |- returns (if ?c then _ else _) => destruct c
  | |- returns (match ?x with _ => _ end) => destruct x
  | |- returns (let (_, _) := ?x in _) => destruct x
  end.

Lemma for_each_ext {A R} (l : list A) (body body' : A -> M (option R)) p :
  (forall x q, In x l -> body x q = body' x q) ->
  for_each l body p = for_each l body' p.
Proof.
  revert p. induction l as [| x r IH]; intros p Hb; [reflexivity |].
  cbn [for_each]. unfold bind. rewrite (Hb x p (or_introl eq_refl)).
  destruct (body' x p) as [[v |] q | | |]; try reflexivity.
  apply IH. intros y q' Hy. apply Hb. now right.
Qed.

Section Depth.
Context {E : Externals}.

Lemma returns_assert_configuration caller : returns (_assert_configuration caller).
Proof. unfold _assert_configuration. repeat returns_step. Qed.

Lemma returns_validate_function_file vnfd_path : returns (validate_function_file vnfd_path).
Proof.
  unfold validate_function_file, log_stages, _validate_function_syntax,
    _validate_function_integrity, _validate_function_topology, function_link_iface.
  repeat returns_step.
Qed.

(** A file that is no directory is validated without a further call. *)
Lemma validate_function_plain_file n vnfd_path p :
  isdir vnfd_path = false ->
  validate_function (S n) vnfd_path p
  = bind (_assert_configuration "validate_function")
         (fun _ => validate_function_file vnfd_path) p.
Proof.
  intros Hd. cbn [validate_function]. unfold validate_function_body. now rewrite Hd.
Qed.

Lemma bind_ext_r {A B} (m : M A) (k k' : A -> M B) p :
  (forall a q, k a q = k' a q) -> bind m k p = bind m k' p.
Proof. intros H. unfold bind. destruct (m p); try reflexivity. apply H. Qed.

Lemma validate_function_S n vnfd_path p :
  validate_function (S n) vnfd_path p
  = bind (_assert_configuration "validate_function")
         (fun _ => validate_function_body (validate_function n) vnfd_path) p.
Proof. reflexivity. Qed.

Lemma bind_ext_l {A B} (m m' : M A) (k : A -> M B) p :
  m p = m' p -> bind m k p = bind m' k p.
Proof. intros H. unfold bind. now rewrite H. Qed.

(** The body of [validate_function] only calls the method on files
    listed for its path. *)
Lemma validate_function_body_ext (recur recur' : string -> M pyval) vnfd_path p :
  (forall f q, (exists ext, In f (list_files vnfd_path ext)) -> recur f q = recur' f q) ->
  validate_function_body recur vnfd_path p = validate_function_body recur' vnfd_path p.
Proof.
  intros Hr. unfold validate_function_body. destruct (isdir vnfd_path); [| reflexivity].
  steps. apply bind_ext_l. apply for_each_ext. intros f q Hf.
  apply bind_ext_l. apply Hr. eexists. exact Hf.
Qed.

(** X4: when [list_files] never lists a directory, [validate_function]
    calls itself at most one level deep: a budget of two calls is
    enough for every path, a larger budget changes nothing, and the
    call always comes to an end. *)
Theorem validate_function_depth (n : nat) (vnfd_path : string) (p : Process) :
  (forall dir ext f, In f (list_files dir ext) -> isdir f = false) ->
  validate_function (2 + n) vnfd_path p = validate_function 2 vnfd_path p /\
  validate_function 2 vnfd_path p <> Diverge.
Proof.
  intros Hfiles. split.
  - change (2 + n) with (S (S n)). rewrite !validate_function_S.
    apply bind_ext_r. intros _ q.
    apply validate_function_body_ext. intros f q' (ext & Hf).
    rewrite (validate_function_plain_file n f q' (Hfiles _ _ _ Hf)).
    now rewrite (validate_function_plain_file 0 f q' (Hfiles _ _ _ Hf)).
  - assert (Hone : forall f, isdir f = false -> returns (validate_function 1 f)).
    { intros f Hf q. rewrite (validate_function_plain_file 0 f q Hf). revert q.
      apply returns_bind; [apply returns_assert_configuration |].
      intros _. apply returns_validate_function_file. }
    revert p. intros q. rewrite validate_function_S. revert q.
    apply returns_bind; [apply returns_assert_configuration |].
    intros _. unfold validate_function_body.
    destruct (isdir vnfd_path); [| apply returns_validate_function_file].
    repeat returns_step. apply Hone. eapply Hfiles. eassumption.
Qed.
End Depth.

Lemma validation_answers_True_or_None_witness :
  exists v p',
    validate_function (E := Demo.externals) 2 "vnfds" (fresh Demo.validator) = Ok v p' /\
    (v = True_ \/ v = PNone).
Proof.
  eexists. eexists.
  assert (H : validate_function (E := Demo.externals) 2 "vnfds" (fresh Demo.validator)
              = Ok _ _) by (vm_compute; reflexivity).
  split; [exact H |].
  exact (proj1 (@validation_answers_True_or_None Demo.externals 2 "vnfds" PNone
                                                 Scenes.project) _ _ _ H).
Defined.

(** The in-memory store lists files only. *)
Lemma demo_lists_no_directory dir ext f :
  In f (@list_files Demo.externals dir ext) -> @isdir Demo.externals f = false.
Proof.
  intros H. cbn in H. unfold Store.list_files in H. simpl dict_get in H.
  destruct (String.eqb dir "vnfds");
    [| destruct (String.eqb dir "good"); [| destruct H]];
    apply filter_In in H; destruct H as [H _]; simpl in H;
    intuition (subst; reflexivity).
Qed.

Lemma validate_function_depth_witness :
  validate_function (E := Demo.externals) 5 "good" (fresh Demo.validator)
  = validate_function (E := Demo.externals) 2 "good" (fresh Demo.validator).
Proof.
  exact (proj1 (@validate_function_depth Demo.externals 3 "good" (fresh Demo.validator)
                                         demo_lists_no_directory)).
Defined.

(** ** Calling [configure] again *)

Lemma updated_later {A} (first second : option A) (old : A) :
  updated second (updated first old) = updated (later first second) old.
Proof. destruct first, second; reflexivity. Qed.

(** X13: two calls of [configure] in a row amount to one call in which
    every argument is the later one that was given (for the log level:
    the later one that is true).  In particular a call repeated with
    the same arguments changes nothing any more. *)
Theorem configure_twice
        (s1 i1 t1 s2 i2 t2 : option bool) (dp1 de1 dp2 de2 : option string)
        (l1 l2 : pyval) (p : Process) :
  bind (configure s1 i1 t1 dp1 de1 l1) (fun _ => configure s2 i2 t2 dp2 de2 l2) p
  = configure (later s1 s2) (later i1 i2) (later t1 t2) (later dp1 dp2) (later de1 de2)
              (later_level l1 l2) p /\
  bind (configure s1 i1 t1 dp1 de1 l1) (fun _ => configure s1 i1 t1 dp1 de1 l1) p
  = configure s1 i1 t1 dp1 de1 l1 p.
Proof.
  assert (H : forall s2 i2 t2 dp2 de2 l2,
             bind (configure s1 i1 t1 dp1 de1 l1)
                  (fun _ => configure s2 i2 t2 dp2 de2 l2) p
             = configure (later s1 s2) (later i1 i2) (later t1 t2) (later dp1 dp2)
                         (later de1 de2) (later_level l1 l2) p).
  { clear. intros s2 i2 t2 dp2 de2 l2.
    unfold bind. rewrite !configure_run.
    cbn [self verbosity records graphml _log_level _syntax _integrity _topology _dext
              _dpath _warnings_count].
    rewrite !updated_later. unfold later_level.
    destruct (truthy l2) eqn:H2; [now rewrite H2 | reflexivity]. }
  split; [apply H |]. rewrite H.
  assert (Hl : forall A (a : option A), later a a = a) by (intros A [a |]; reflexivity).
  rewrite !Hl. unfold later_level. now destruct (truthy l1).
Qed.

(** ** The graph file of a service *)






Section GraphFile.
Context {E : Externals}.




End GraphFile.


Section GraphFileOfService.
Context {E : Externals}.




End GraphFileOfService.


(** ** What a true answer stands for *)

Lemma for_each_on_all {A S R} (P : A -> Prop) (l : list A)
      (body : S -> A -> M (option R * S)) s p s' p' :
  (forall s x q s1 q', body s x q = Ok (None, s1) q' -> P x) ->
  for_each_on l s body p = Ok (None, s') p' ->
  forall x, In x l -> P x.
Proof.
  intros Hb. revert s p. induction l as [| y r IH]; intros s p H x Hx; [destruct Hx |].
  cbn [for_each_on] in H. apply bind_Ok_inv in H. destruct H as ([o s1] & q & Hy & H).
  cbn [fst snd] in H. destruct o as [v |]; [inversion H |].
  destruct Hx as [<- | Hx]; [exact (Hb _ _ _ _ _ Hy) | exact (IH _ _ H x Hx)].
Qed.

Lemma for_each_on_stops {A S R} (P : R -> Prop) (l : list A)
      (body : S -> A -> M (option R * S)) s p v s' p' :
  (forall s x q v1 s1 q', body s x q = Ok (Some v1, s1) q' -> P v1) ->
  for_each_on l s body p = Ok (Some v, s') p' -> P v.
Proof.
  intros Hb. revert s p. induction l as [| y r IH]; intros s p H; [discriminate |].
  cbn [for_each_on] in H. apply bind_Ok_inv in H. destruct H as ([o s1] & q & Hy & H).
  cbn [fst snd] in H. destruct o as [v1 |].
  - inversion H; subst. exact (Hb _ _ _ _ _ _ Hy).
  - exact (IH _ _ H).
Qed.

Section TrueAnswers.
Context {E : Externals}.

(** A true result of the integrity stage of a function: the four
    loaders succeeded and every key of every link is in order. *)
Lemma function_integrity_True function p r f' p' :
  _validate_function_integrity function p = Ok (r, f') p' ->
  truthy r = true ->
  exists f1 f2 f3,
    function_load_interfaces function = (true, f1) /\
    function_load_units f1 = (true, f2) /\
    function_load_unit_interfaces f2 = (true, f3) /\
    function_load_links f3 = (true, f') /\
    forall lid link iface,
      In (lid, link) (Function.links f') -> In iface (pair_items link) ->
      unit_reference_ok f' iface = true.
Proof.
  unfold _validate_function_integrity. steps.
  destruct (function_load_interfaces function) as [ok1 f1] eqn:L1. destruct ok1; cbn [negb].
  2:{ steps. intros H Hr. inversion H; subst. discriminate. }
  destruct (function_load_units f1) as [ok2 f2] eqn:L2. destruct ok2; cbn [negb].
  2:{ steps. intros H Hr. inversion H; subst. discriminate. }
  destruct (function_load_unit_interfaces f2) as [ok3 f3] eqn:L3. destruct ok3; cbn [negb].
  2:{ steps. intros H Hr. inversion H; subst. discriminate. }
  destruct (function_load_links f3) as [ok4 f4] eqn:L4. destruct ok4; cbn [negb].
  2:{ steps. intros H Hr. inversion H; subst. discriminate. }
  intros H Hr. apply bind_Ok_inv in H. destruct H as (o & q & Hloop & H).
  rewrite for_each_links in Hloop.
  destruct (for_each_verdict
              (fun li => unit_reference_ok f4 (snd li)) PNone
              (fun li => function_link_iface f4 (fst li) (snd li))
              (link_keys (Function.links f4))
              (logged p INFO (FunctionIntegrity (Function.id function)))) as (q' & Hv).
  { intros x q0. apply function_link_iface_verdict. }
  rewrite Hv in Hloop. inversion Hloop; subst o q'. clear Hloop.
  destruct (forallb (fun li => unit_reference_ok f4 (snd li))
                    (link_keys (Function.links f4))) eqn:Hall;
    inversion H; subst; [| discriminate].
  exists f1, f2, f3. do 4 (split; [assumption || reflexivity |]).
  intros lid link iface Hl Hi. rewrite forallb_forall in Hall.
  apply (Hall (lid, iface)). apply link_keys_In. exists link. auto.
Qed.

Lemma tame_function_syntax function : tame (_validate_function_syntax function).
Proof. unfold _validate_function_syntax. tame_steps. Qed.

(** X12: when [validate_function] answers [True] for a descriptor
    file, the file was read into a function; if the syntax stage is
    enabled its content conforms to the function schema; and if the
    integrity stage is enabled the four loaders succeeded and every
    qualified connection point key of every link names a loaded unit. *)
Theorem function_True_means_checked (fuel : nat) (vnfd_path : string) (p p' : Process) :
  isdir vnfd_path = false ->
  validate_function (S fuel) vnfd_path p = Ok True_ p' ->
  exists function,
    create_function vnfd_path = Some function /\
    (_syntax (self p) = true ->
     schema_validate (Function.content function) SCHEMA_FUNCTION_DESCRIPTOR = true) /\
    (_integrity (self p) = true ->
     exists f1 f2 f3 f4,
       function_load_interfaces function = (true, f1) /\
       function_load_units f1 = (true, f2) /\
       function_load_unit_interfaces f2 = (true, f3) /\
       function_load_links f3 = (true, f4) /\
       forall lid link iface,
         In (lid, link) (Function.links f4) -> In iface (pair_items link) ->
         unit_reference_ok f4 iface = true).
Proof.
  intros Hd H. rewrite (validate_function_plain_file fuel vnfd_path p Hd) in H.
  apply bind_Ok_inv in H. destruct H as (u & q & Ha & H).
  apply assert_configuration_Ok in Ha. subst q.
  unfold validate_function_file, log_stages in H. revert H. steps.
  destruct (create_function vnfd_path) as [function |].
  2:{ steps. intros H. inversion H. }
  exists function. split; [reflexivity |].
  revert H. steps. intros H. apply bind_Ok_inv in H. destruct H as (r1 & q1 & H1 & H).
  assert (K1 : same_configuration (self p) (self q1) /\
               (_syntax (self p) = true ->
                schema_validate (Function.content function) SCHEMA_FUNCTION_DESCRIPTOR
                = true /\ truthy r1 = true \/ truthy r1 = false)).
  { destruct (_syntax (self p)).
    - split.
      + match type of H1 with
        | ?m ?p0 = _ => apply (tame_extends m p0 q1 (tame_function_syntax function))
        end. now rewrite H1.
      + intros _. unfold _validate_function_syntax in H1. revert H1. steps.
        destruct (schema_validate (Function.content function) SCHEMA_FUNCTION_DESCRIPTOR);
          cbn [negb]; steps; intros H1; inversion H1; subst; [left | right]; auto.
    - inversion H1; subst. split; [repeat split | discriminate]. }
  destruct K1 as [(_ & _ & Hi1 & _) Hs1].
  destruct (_syntax (self p)) eqn:Hsyn; cbn [andb] in H.
  - destruct (Hs1 eq_refl) as [[Hschema Hr1] | Hr1]; rewrite Hr1 in H; cbn [negb] in H;
      [| inversion H].
    split; [intros _; exact Hschema |].
    revert H. steps. rewrite Hi1. intros H.
    apply bind_Ok_inv in H. destruct H as ([r2 f2'] & q2 & H2 & H). cbn [fst snd] in H.
    intros Hint. rewrite Hint in H2, H. cbn [andb] in H.
    destruct (truthy r2) eqn:Hr2; cbn [negb] in H; [| inversion H].
    destruct (function_integrity_True _ _ _ _ _ H2 Hr2) as (f1 & f2 & f3 & L1 & L2 & L3 & L4 & Hall).
    exists f1, f2, f3, f2'. auto.
  - split; [discriminate |].
    revert H. steps. rewrite Hi1. intros H.
    apply bind_Ok_inv in H. destruct H as ([r2 f2'] & q2 & H2 & H). cbn [fst snd] in H.
    intros Hint. rewrite Hint in H2, H. cbn [andb] in H.
    destruct (truthy r2) eqn:Hr2; cbn [negb] in H; [| inversion H].
    destruct (function_integrity_True _ _ _ _ _ H2 Hr2) as (f1 & f2 & f3 & L1 & L2 & L3 & L4 & Hall).
    exists f1, f2, f3, f2'. auto.
Qed.

(** X14: when [_load_service_functions] answers [True], the content of
    the service has a ['network_functions'] entry, and every item it
    lists is a mapping with a vendor, a name and a version (and a
    vnf_id) whose composite id is among the descriptors read from the
    configured directory: no reference is left unresolved. *)
Theorem service_functions_resolved (service s' : Service.t) (p p' : Process) (r : pyval) :
  _load_service_functions service p = Ok (r, s') p' ->
  truthy r = true ->
  exists functions items,
    dict_get (Service.content service) "network_functions" = Some functions /\
    iterate functions = Val items /\
    forall item, In item items ->
      exists vendor name version vnf_id,
        subscript item "vnf_vendor" = Val vendor /\
        subscript item "vnf_name" = Val name /\
        subscript item "vnf_version" = Val version /\
        subscript item "vnf_id" = Val vnf_id /\
        dict_has (read_descriptor_files (list_files (_dpath (self p)) (_dext (self p))))
                 (build_descriptor_id vendor name version) = true.
Proof.
  unfold _load_service_functions. steps. unfold dict_has at 1, subscript at 1.
  destruct (dict_get (Service.content service) "network_functions") as [functions |]
    eqn:Hget; cbn [negb eval].
  2:{ steps. intros H Hr. inversion H; subst. discriminate. }
  steps.
  destruct (truthy functions
            && negb match read_descriptor_files
                            (list_files (_dpath (self p)) (_dext (self p))) with
                    | [] => false
                    | _ => true
                    end).
  { steps. intros H Hr. inversion H; subst. discriminate. }
  destruct (iterate functions) as [items | e |] eqn:Hit; cbn [eval];
    try (intros H; discriminate).
  steps. intros H Hr. apply bind_Ok_inv in H. destruct H as ([o s1] & q & Hloop & H).
  cbn [fst snd] in H. destruct o as [v |]; inversion H; subst.
  { exfalso. assert (Hv : r = PNone); [| subst r; discriminate].
    eapply (for_each_on_stops (fun v => v = PNone)); [| exact Hloop].
    intros s x q1 v1 s3 q3. cbv beta.
    destruct (subscript x "vnf_vendor"); cbn [eval]; try discriminate. steps.
    destruct (subscript x "vnf_name"); cbn [eval]; try discriminate. steps.
    destruct (subscript x "vnf_version"); cbn [eval]; try discriminate. steps.
    match goal with |- context [dict_has ?d ?k] => destruct (dict_has d k) end; cbn [negb].
    - destruct (subscript x "vnf_id"); cbn [eval]; try discriminate. steps.
      match goal with |- context [dict_get ?d ?k] => destruct (dict_get d k) end;
        cbn [eval]; try discriminate; steps; intros Hb; inversion Hb.
    - steps. intros Hb. inversion Hb. reflexivity. }
  exists functions, items. split; [reflexivity |]. split; [exact Hit |].
  eapply for_each_on_all; [| exact Hloop].
  intros s x q0 s1' q0'. cbv beta.
  destruct (subscript x "vnf_vendor") as [vendor | |]; cbn [eval]; try discriminate. steps.
  destruct (subscript x "vnf_name") as [name | |]; cbn [eval]; try discriminate. steps.
  destruct (subscript x "vnf_version") as [version | |]; cbn [eval]; try discriminate.
  steps.
  destruct (dict_has (read_descriptor_files
                        (list_files (_dpath (self p)) (_dext (self p))))
                     (build_descriptor_id vendor name version)) eqn:Hhas; cbn [negb].
  - destruct (subscript x "vnf_id") as [vnf_id | |]; cbn [eval]; try discriminate.
    intros _. exists vendor, name, version, vnf_id. auto.
  - steps. intros Hb. inversion Hb.
Qed.
End TrueAnswers.

(** ** What the cycle walk reports *)

Lemma index_of_split x l i :
  index_of x l = Some i ->
  exists pre suf, l = pre ++ x :: suf /\ skipn i l = x :: suf.
Proof.
  revert i. induction l as [| y r IH]; intros i; simpl; [discriminate |].
  destruct (String.eqb x y) eqn:Hxy.
  - apply String.eqb_eq in Hxy. subst. intros H. inversion H.
    exists [], r. split; reflexivity.
  - destruct (index_of x r) as [j |]; [| discriminate]. intros H. inversion H.
    destruct (IH j eq_refl) as (pre & suf & -> & Hs).
    exists (y :: pre), suf. split; [reflexivity | exact Hs].
Qed.

Lemma remove_first_raises x l e : remove_first x l = Err e -> e = ValueError.
Proof.
  induction l as [| y r IH]; simpl; [intros H; now inversion H |].
  destruct (String.eqb x y); [discriminate |].
  destruct (remove_first x r); try discriminate. intros H. inversion H; subst. now apply IH.
Qed.

(** The shape of one call of the walk, once the neighbours are known. *)
Lemma find_graph_cycles_rec_step fuel graph nd prev_node backtrace :
  find_graph_cycles_rec (S fuel) graph nd prev_node backtrace
  = match neighbors graph nd with
    | Err e => Err e
    | Fuel => Fuel
    | Val nbrs =>
        match (match prev_node with
               | Some p => if str_truthy p then remove_first p nbrs else Val nbrs
               | None => Val nbrs
               end) with
        | Err e => Err e
        | Fuel => Fuel
        | Val nbrs' =>
            if negb (Nat.ltb 0 (length nbrs')) then Val None
            else match index_of nd backtrace with
                 | Some i => Val (Some (skipn i backtrace))
                 | None =>
                     match nbrs' with
                     | neighbor :: _ =>
                         find_graph_cycles_rec fuel graph neighbor (Some nd)
                                               (backtrace ++ [nd])
                     | [] => Val (Some (backtrace ++ [nd]))
                     end
                 end
        end
    end.
Proof. reflexivity. Qed.

Lemma find_graph_cycles_rec_reports fuel graph nd prev_node backtrace :
  NoDup backtrace ->
  incl backtrace (nodes graph) ->
  (forall c, find_graph_cycles_rec fuel graph nd prev_node backtrace = Val (Some c) ->
             c <> [] /\ NoDup c /\ incl c (nodes graph)) /\
  (forall e, find_graph_cycles_rec fuel graph nd prev_node backtrace = Err e ->
             e = NetworkXError \/ e = ValueError).
Proof.
  revert nd prev_node backtrace.
  induction fuel as [| fuel IH]; intros nd prev_node backtrace Hnd Hincl;
    [split; intros ? H; discriminate |].
  rewrite find_graph_cycles_rec_step. unfold neighbors.
  destruct (dict_get graph nd) as [nbrs |] eqn:Hget.
  2:{ split; intros ? H; inversion H. now left. }
  destruct (match prev_node with
            | Some p => if str_truthy p then remove_first p nbrs else Val nbrs
            | None => Val nbrs
            end) as [nbrs' | e' |] eqn:Hpop.
  - destruct (negb (Nat.ltb 0 (length nbrs'))); [split; intros ? H; discriminate |].
    destruct (index_of nd backtrace) as [i |] eqn:Hidx.
    + split; [| intros ? H; discriminate]. intros c H. inversion H; subst c.
      destruct (index_of_split _ _ _ Hidx) as (pre & suf & Hbt & Hs). rewrite Hs.
      split; [discriminate |]. split.
      * rewrite Hbt in Hnd. now apply NoDup_app_remove_l in Hnd.
      * intros x Hx. apply Hincl. rewrite Hbt. apply in_or_app. now right.
    + destruct nbrs' as [| neighbor rest].
      * split; [| intros ? H; discriminate]. intros c H. inversion H; subst c.
        apply index_of_None in Hidx. split; [now destruct backtrace |]. split.
        -- apply NoDup_app; [assumption | repeat constructor; simpl; tauto |].
           intros x Hx [Hx' | []]. subst. contradiction.
        -- intros x Hx. apply in_app_or in Hx. destruct Hx as [Hx | [Hx | []]];
             [now apply Hincl | subst; unfold nodes; now apply dict_get_In with (v := nbrs)].
      * apply IH.
        -- apply index_of_None in Hidx.
           apply NoDup_app; [assumption | repeat constructor; simpl; tauto |].
           intros x Hx [Hx' | []]. subst. contradiction.
        -- intros x Hx. apply in_app_or in Hx. destruct Hx as [Hx | [Hx | []]];
             [now apply Hincl | subst; unfold nodes; now apply dict_get_In with (v := nbrs)].
  - split; [intros ? H; discriminate |]. intros e H. inversion H; subst e. right.
    destruct prev_node as [p |]; [| discriminate].
    destruct (str_truthy p); [| discriminate]. now apply remove_first_raises in Hpop.
  - split; intros ? H; discriminate.
Qed.

(** X6: whatever the graph, a cycle reported by [_find_graph_cycles]
    is a non-empty list of distinct nodes of the graph, and the only
    exceptions the call can raise are the error of networkx for an
    unknown node and the [ValueError] of [list.index]. *)
Theorem reported_cycle_is_made_of_graph_nodes (graph : Graph) (start : node) :
  (forall c, _find_graph_cycles graph start = Val (Some c) ->
             c <> [] /\ NoDup c /\ incl c (nodes graph)) /\
  (forall e, _find_graph_cycles graph start = Err e ->
             e = NetworkXError \/ e = ValueError).
Proof.
  unfold _find_graph_cycles. apply find_graph_cycles_rec_reports.
  - constructor.
  - intros x [].
Qed.

Section Sound.
Variable g : Graph.
Hypothesis Hwf : well_formed g.

(** In a well-formed graph the walk raises nothing. *)
Lemma find_graph_cycles_rec_value fuel backtrace prev_node nd :
  (forall p, prev_node = Some p -> edge g p nd) ->
  In nd (nodes g) ->
  find_graph_cycles_rec fuel g nd prev_node backtrace = Fuel \/
  exists r, find_graph_cycles_rec fuel g nd prev_node backtrace = Val r.
Proof.
  revert backtrace prev_node nd.
  induction fuel as [| fuel IH]; intros backtrace prev_node nd Hprev Hnode; [now left |].
  destruct Hwf as (_ & Hnodup & Hsym).
  rewrite find_graph_cycles_rec_step. unfold neighbors.
  destruct (In_dict_get g nd Hnode) as (nbrs & Hget). rewrite Hget.
  assert (Hpop : exists nbrs',
             match prev_node with
             | Some p => if str_truthy p then remove_first p nbrs else Val nbrs
             | None => Val nbrs
             end = Val nbrs' /\ incl nbrs' nbrs).
  { destruct prev_node as [p |]; [| exists nbrs; split; [reflexivity | apply incl_refl]].
    destruct (str_truthy p); [| exists nbrs; split; [reflexivity | apply incl_refl]].
    destruct (Hsym _ _ (Hprev p eq_refl)) as (l & Hl & Hin).
    rewrite Hget in Hl. inversion Hl; subst l.
    destruct (@remove_first_spec p nbrs Hin (Hnodup _ _ Hget)) as (nbrs' & Hr & _ & Hi).
    now exists nbrs'. }
  destruct Hpop as (nbrs' & -> & Hincl).
  destruct (negb (Nat.ltb 0 (length nbrs'))); [right; eexists; reflexivity |].
  destruct (index_of nd backtrace); [right; eexists; reflexivity |].
  destruct nbrs' as [| neighbor rest]; [right; eexists; reflexivity |].
  assert (He : edge g nd neighbor).
  { exists nbrs. split; [assumption |]. apply Hincl. now left. }
  apply IH.
  - intros p Hp. inversion Hp; subst. exact He.
  - exact (edge_node (Hsym _ _ He)).
Qed.

Hypothesis Hnames : forall n, In n (nodes g) -> n <> "".

(** With non-empty node names, what the walk reports is a cycle. *)
Lemma find_graph_cycles_rec_sound fuel backtrace prev_node nd c :
  walk g backtrace prev_node nd ->
  In nd (nodes g) ->
  find_graph_cycles_rec fuel g nd prev_node backtrace = Val (Some c) ->
  is_cycle g c.
Proof.
  revert backtrace prev_node nd.
  induction fuel as [| fuel IH]; intros backtrace prev_node nd Hw Hnode; [discriminate |].
  destruct Hwf as (_ & Hnodup & Hsym).
  rewrite find_graph_cycles_rec_step. unfold neighbors.
  destruct (In_dict_get g nd Hnode) as (nbrs & Hget). rewrite Hget.
  destruct (walk_facts Hw) as (Hnd & Hch & Hprev).
  assert (Hpop : exists nbrs',
             match prev_node with
             | Some p => if str_truthy p then remove_first p nbrs else Val nbrs
             | None => Val nbrs
             end = Val nbrs' /\ incl nbrs' nbrs /\
             forall p, prev_node = Some p -> ~ In p nbrs').
  { destruct prev_node as [p |];
      [| exists nbrs; split; [reflexivity | split; [apply incl_refl | discriminate]]].
    destruct Hprev as (pre & Hbt & _).
    assert (Hep : edge g p nd).
    { rewrite Hbt in Hch. rewrite <- app_assoc in Hch. apply chain_app_r in Hch.
      simpl in Hch. tauto. }
    rewrite (str_truthy_node g Hnames p (edge_node Hep)).
    destruct (Hsym _ _ Hep) as (l & Hl & Hin). rewrite Hget in Hl. inversion Hl; subst l.
    destruct (@remove_first_spec p nbrs Hin (Hnodup _ _ Hget)) as (nbrs' & Hr & Hp & Hi).
    exists nbrs'. split; [exact Hr |]. split; [exact Hi |].
    intros q Hq. inversion Hq; subst. exact Hp. }
  destruct Hpop as (nbrs' & -> & Hincl & Hnotprev).
  destruct nbrs' as [| neighbor rest]; [discriminate |].
  cbn [length Nat.ltb Nat.leb negb].
  destruct (index_of nd backtrace) as [i |] eqn:Hidx.
  - intros H. inversion H; subst c. clear H.
    destruct (index_of_split _ _ _ Hidx) as (pre & suf & Hbt & Hs). rewrite Hs.
    assert (Hc : chain g ((nd :: suf) ++ [nd])).
    { apply chain_app_r with (l1 := pre). rewrite app_assoc, <- Hbt. exact Hch. }
    split; [discriminate |]. split; [| split; [| split]].
    + rewrite Hbt in Hnd. now apply NoDup_app_remove_l in Hnd.
    + now apply chain_app_l in Hc.
    + cbn [hd]. apply chain_last_edge; [discriminate | exact Hc].
    + intros Hlen. destruct suf as [| x [| ? ?]]; try discriminate.
      destruct prev_node as [p |].
      * destruct Hprev as (pre1 & Hbt1 & Hne).
        assert (Heq : pre1 ++ [p] = (pre ++ [nd]) ++ [x]).
        { rewrite <- Hbt1, Hbt, <- app_assoc. reflexivity. }
        apply app_inj_tail in Heq. destruct Heq as [Hpre1 _].
        now apply (Hne pre nd Hpre1).
      * rewrite Hprev in Hbt. destruct pre; discriminate Hbt.
  - assert (He : edge g nd neighbor).
    { exists nbrs. split; [assumption |]. apply Hincl. now left. }
    apply IH.
    + apply walk_step with (prev_node := prev_node); try assumption.
      * now apply index_of_None.
      * intros p Hp Heq. subst. apply (Hnotprev p eq_refl). now left.
    + exact (edge_node (Hsym _ _ He)).
Qed.

(** X7: on a well-formed graph whose nodes have non-empty names,
    [_find_graph_cycles] started at a node of the graph raises nothing,
    and a list it reports is a cycle of the graph: distinct nodes, each
    joined to the next and the last to the first, and not just one edge
    walked forth and back. *)
Theorem reported_cycle_is_a_cycle (start : node) :
  In start (nodes g) ->
  exists r,
    _find_graph_cycles g start = Val r /\
    forall c, r = Some c -> is_cycle g c.
Proof.
  intros Hstart. unfold _find_graph_cycles.
  destruct (find_graph_cycles_rec_value (S (length g)) [] None start) as [Hf | (r & Hr)];
    [discriminate | exact Hstart | |].
  - exfalso. exact (find_graph_cycles_total g start Hf).
  - exists r. split; [exact Hr |]. intros c ->.
    exact (find_graph_cycles_rec_sound (S (length g)) [] None start c
                                       (walk_start g start) Hstart Hr).
Qed.
End Sound.

(** X8: the walk follows one branch only.  When the first neighbour of
    the start node is a leaf (its only neighbour is the start node),
    the walk ends there and reports nothing, whatever cycles the rest
    of the graph holds. *)
Theorem leaf_branch_ends_the_walk (graph : Graph) (start leaf : node) (others : list node) :
  dict_get graph start = Some (leaf :: others) ->
  dict_get graph leaf = Some [start] ->
  start <> "" ->
  _find_graph_cycles graph start = Val None.
Proof.
  intros Hs Hl Hne. unfold _find_graph_cycles.
  destruct graph as [| entry rest]; [discriminate |]. cbn [length].
  rewrite find_graph_cycles_rec_step. unfold neighbors. rewrite Hs.
  cbn [length Nat.ltb Nat.leb negb index_of].
  rewrite find_graph_cycles_rec_step. unfold neighbors. rewrite Hl.
  unfold str_truthy. apply String.eqb_neq in Hne. rewrite Hne. cbn [negb remove_first].
  rewrite String.eqb_refl. reflexivity.
Qed.

Lemma leaf_branch_ends_the_walk_witness :
  _find_graph_cycles ring_with_leaf "S" = Val None /\
  is_cycle ring_with_leaf ["S"; "B"; "C"].
Proof.
  split.
  - apply (leaf_branch_ends_the_walk ring_with_leaf "S" "L" ["B"; "C"]);
      [reflexivity | reflexivity | discriminate].
  - split; [discriminate |]. split.
    + apply distinct_nodes_NoDup. reflexivity.
    + split; [| split; [| discriminate]].
      * repeat split; apply has_edge_edge; reflexivity.
      * apply has_edge_edge. reflexivity.
Defined.

Lemma reported_cycle_is_a_cycle_witness :
  exists r,
    _find_graph_cycles ring_abc "A" = Val r /\
    forall c, r = Some c -> is_cycle ring_abc c.
Proof.
  apply (reported_cycle_is_a_cycle ring_abc).
  - apply well_formed_check_sound. reflexivity.
  - intros n Hn. vm_compute in Hn. intuition (subst; discriminate).
  - vm_compute. tauto.
Defined.

Lemma reported_cycle_is_made_of_graph_nodes_witness :
  NoDup ["A"; "B"; "C"] /\ incl ["A"; "B"; "C"] (nodes ring_abc).
Proof.
  exact (proj2 (proj1 (reported_cycle_is_made_of_graph_nodes ring_abc "A")
                      ["A"; "B"; "C"] eq_refl)).
Defined.

(** ** Graphs built edge by edge *)

Lemma dict_get_app_new {V} (d : list (string * V)) n l k :
  dict_get (d ++ [(n, l)]) k
  = match dict_get d k with
    | Some x => Some x
    | None => if String.eqb k n then Some l else None
    end.
Proof.
  induction d as [| [k' x] r IH]; simpl; [reflexivity |].
  destruct (String.eqb k k'); [reflexivity | exact IH].
Qed.

Lemma edge_add_node g n a b : edge (add_node g n) a b <-> edge g a b.
Proof.
  unfold add_node, has_node. destruct (str_in n (nodes g)) eqn:Hn; [tauto |].
  apply str_in_false in Hn. unfold edge. split; intros (l & Hl & Hin).
  - rewrite dict_get_app_new in Hl. destruct (dict_get g a) as [x |].
    + exists x. inversion Hl; subst. tauto.
    + destruct (String.eqb a n); inversion Hl; subst. destruct Hin.
  - exists l. rewrite dict_get_app_new, Hl. tauto.
Qed.

Lemma nodes_add_node g n :
  nodes (add_node g n) = if has_node g n then nodes g else nodes g ++ [n].
Proof.
  unfold add_node. destruct (has_node g n); [reflexivity |].
  unfold nodes. now rewrite map_app.
Qed.

Lemma In_nodes_add_node g n x :
  In x (nodes (add_node g n)) <-> In x (nodes g) \/ x = n.
Proof.
  rewrite nodes_add_node. unfold has_node.
  destruct (str_in n (nodes g)) eqn:Hn.
  - apply str_in_In in Hn. split; [tauto |]. intros [H | ->]; assumption.
  - rewrite in_app_iff. simpl. intuition.
Qed.

Lemma nodes_link_to g u v : nodes (link_to g u v) = nodes g.
Proof.
  induction g as [| [k l] r IH]; simpl; [reflexivity |].
  destruct (String.eqb u k); simpl; [reflexivity | now rewrite IH].
Qed.

Lemma dict_get_link_to g u v k :
  dict_get (link_to g u v) k
  = if String.eqb k u
    then option_map (fun l => if str_in v l then l else l ++ [v]) (dict_get g k)
    else dict_get g k.
Proof.
  induction g as [| [k' l] r IH]; simpl; [now destruct (String.eqb k u) |].
  destruct (String.eqb u k') eqn:Hu; simpl.
  - apply String.eqb_eq in Hu. subst k'.
    destruct (String.eqb k u); reflexivity.
  - destruct (String.eqb k k') eqn:Hk.
    + apply String.eqb_eq in Hk. subst k'. rewrite String.eqb_sym, Hu. reflexivity.
    + exact IH.
Qed.

Lemma edge_link_to g u v a b :
  In u (nodes g) ->
  edge (link_to g u v) a b <-> edge g a b \/ (a = u /\ b = v).
Proof.
  intros Hu. unfold edge. split.
  - intros (l & Hl & Hin). rewrite dict_get_link_to in Hl.
    destruct (String.eqb a u) eqn:Ha.
    + apply String.eqb_eq in Ha. subst a.
      destruct (dict_get g u) as [l0 |]; [| discriminate]. simpl in Hl.
      inversion Hl; subst l. clear Hl.
      destruct (str_in b l0) eqn:Hb.
      * left. exists l0. split; [reflexivity | now apply str_in_In].
      * right. split; [reflexivity |].
        destruct (str_in v l0); [apply str_in_false in Hb; contradiction |].
        apply in_app_or in Hin. destruct Hin as [Hin | [Hin | []]]; [| now subst].
        apply str_in_false in Hb. contradiction.
    + left. now exists l.
  - intros [(l & Hl & Hin) | [-> ->]].
    + rewrite dict_get_link_to, Hl. destruct (String.eqb a u); simpl.
      * eexists. split; [reflexivity |]. destruct (str_in v l); [assumption |].
        apply in_or_app. now left.
      * now exists l.
    + rewrite dict_get_link_to, String.eqb_refl.
      destruct (In_dict_get g u Hu) as (l & Hl). rewrite Hl. simpl.
      eexists. split; [reflexivity |]. destruct (str_in v l) eqn:Hv.
      * now apply str_in_In.
      * apply in_or_app. right. now left.
Qed.

Lemma In_nodes_add_edge g u v x :
  In x (nodes (add_edge g u v)) <-> In x (nodes g) \/ x = u \/ x = v.
Proof.
  unfold add_edge. rewrite !nodes_link_to, !In_nodes_add_node. tauto.
Qed.

Lemma edge_add_edge g u v a b :
  edge (add_edge g u v) a b
  <-> edge g a b \/ (a = u /\ b = v) \/ (a = v /\ b = u).
Proof.
  unfold add_edge.
  rewrite edge_link_to by (rewrite nodes_link_to, In_nodes_add_node; tauto).
  rewrite edge_link_to by (rewrite !In_nodes_add_node; tauto).
  rewrite !edge_add_node. tauto.
Qed.

Lemma neighbours_link_to g u v :
  (forall k l, dict_get g k = Some l -> NoDup l) ->
  forall k l, dict_get (link_to g u v) k = Some l -> NoDup l.
Proof.
  intros H k l. rewrite dict_get_link_to.
  destruct (String.eqb k u); [| apply H].
  destruct (dict_get g k) as [l0 |] eqn:Hl0; [| discriminate]. simpl.
  intros Hl. inversion Hl; subst l. clear Hl.
  destruct (str_in v l0) eqn:Hv; [now apply (H k) |].
  apply str_in_false in Hv. apply NoDup_app; [now apply (H k) | repeat constructor; simpl; tauto |].
  intros x Hx [Hx' | []]. now subst.
Qed.

Lemma neighbours_add_node g n :
  (forall k l, dict_get g k = Some l -> NoDup l) ->
  forall k l, dict_get (add_node g n) k = Some l -> NoDup l.
Proof.
  intros H k l. unfold add_node. destruct (has_node g n); [apply H |].
  rewrite dict_get_app_new. destruct (dict_get g k) as [x |] eqn:Hx.
  - intros Hl. inversion Hl; subst. now apply (H k).
  - destruct (String.eqb k n); [| discriminate]. intros Hl. inversion Hl. constructor.
Qed.

Lemma NoDup_nodes_add_node g n : NoDup (nodes g) -> NoDup (nodes (add_node g n)).
Proof.
  intros H. rewrite nodes_add_node. unfold has_node.
  destruct (str_in n (nodes g)) eqn:Hn; [assumption |].
  apply str_in_false in Hn. apply NoDup_app; [assumption | repeat constructor; simpl; tauto |].
  intros x Hx [Hx' | []]. now subst.
Qed.

Lemma well_formed_add_edge g u v : well_formed g -> well_formed (add_edge g u v).
Proof.
  intros (Hn & Hl & Hs). split; [| split].
  - unfold add_edge. rewrite !nodes_link_to. now do 2 apply NoDup_nodes_add_node.
  - unfold add_edge. now do 2 apply neighbours_link_to; do 2 apply neighbours_add_node.
  - intros a b. rewrite !edge_add_edge. intros [H | [H | H]]; [left; now apply Hs | tauto | tauto].
Qed.

Lemma well_formed_add_edges_from es :
  forall g, well_formed g -> well_formed (add_edges_from g es).
Proof.
  unfold add_edges_from.
  induction es as [| e r IH]; intros g Hg; simpl; [exact Hg |].
  apply IH. now apply well_formed_add_edge.
Qed.

Lemma well_formed_empty_graph : well_formed empty_graph.
Proof.
  split; [constructor | split].
  - intros u l H. discriminate H.
  - intros u v (l & H & _). discriminate H.
Qed.

Lemma nodes_add_edges_from es :
  forall g x, In x (nodes g) -> In x (nodes (add_edges_from g es)).
Proof.
  unfold add_edges_from.
  induction es as [| e r IH]; intros g x Hx; simpl; [exact Hx |].
  apply IH. rewrite In_nodes_add_edge. now left.
Qed.

Lemma add_path_short nlist : length nlist < 2 -> add_path empty_graph nlist = empty_graph.
Proof.
  destruct nlist as [| a [| b r]]; simpl; intros H; [reflexivity | reflexivity | lia].
Qed.

Lemma add_path_nodes a b r :
  exists n rest, nodes (add_path empty_graph (a :: b :: r)) = n :: rest.
Proof.
  assert (H : In a (nodes (add_path empty_graph (a :: b :: r)))).
  { unfold add_path. cbn [pairwise]. unfold add_edges_from. cbn [fold_left fst snd].
    apply (nodes_add_edges_from (pairwise (b :: r))).
    rewrite In_nodes_add_edge. tauto. }
  destruct (nodes (add_path empty_graph (a :: b :: r))) as [| n rest]; [destruct H |].
  now exists n, rest.
Qed.

(** The walk over the graph of a path of two or more hops, started at
    its first node, raises nothing. *)
Lemma path_graph_walk (a b : string) (r : list string) :
  exists start rest cycles,
    nodes (add_path empty_graph (a :: b :: r)) = start :: rest /\
    _find_graph_cycles (add_path empty_graph (a :: b :: r)) start = Val cycles.
Proof.
  destruct (add_path_nodes a b r) as (n & rest & Hnodes). unfold node in *.
  assert (Hwf : well_formed (add_path empty_graph (a :: b :: r))).
  { apply well_formed_add_edges_from, well_formed_empty_graph. }
  assert (Hin : In n (nodes (add_path empty_graph (a :: b :: r)))).
  { rewrite Hnodes. now left. }
  destruct (find_graph_cycles_rec_value _ Hwf
              (S (length (add_path empty_graph (a :: b :: r)))) [] None n)
    as [Hf | (res & Hres)]; [discriminate | exact Hin | |].
  { exfalso. exact (find_graph_cycles_total _ n Hf). }
  exists n, rest, res. split; [exact Hnodes | exact Hres].
Qed.

Section ForwardingPaths.
Context {E : Externals}.

(** X9: the analysis of a forwarding path whose trace has no
    breakpoint.  A trace of fewer than two hops gives a graph without
    nodes, and taking its first node raises [IndexError].  A longer
    trace is always analysed to the end: nothing is raised, the loop
    over the paths goes on, and nothing but at most one warning is
    added to the state. *)
Theorem forwarding_path_analysis (service : Service.t) (fp : string * list string)
        (p : Process) :
  str_in "BREAK" (service_trace_path service (snd fp)) = false ->
  (length (service_trace_path service (snd fp)) < 2 ->
   analyse_forwarding_path service fp p = Raise IndexError p) /\
  (2 <= length (service_trace_path service (snd fp)) ->
   exists p',
     analyse_forwarding_path service fp p = Ok None p' /\
     same_configuration (self p) (self p') /\
     graphml p' = graphml p /\
     (p' = p \/
      exists c, records p' = records p ++ [(WARNING, ForwardingPathCycles (fst fp) c)] /\
                _warnings_count (self p') = _warnings_count (self p) + 1)).
Proof.
  intros Hbreak. unfold analyse_forwarding_path. rewrite Hbreak.
  set (trace := service_trace_path service (snd fp)). split; intros Hlen.
  - rewrite (add_path_short trace Hlen). reflexivity.
  - destruct trace as [| a [| b r]] eqn:Htrace; cbn [length] in Hlen; try lia.
    destruct (path_graph_walk a b r) as (n & rest & res & Hnodes & Hres).
    cbv zeta. rewrite Hnodes. cbn [nth_error].
    unfold bind, eval, ret. rewrite Hres.
    destruct p as [s vb rs gm]. destruct s as [ll sy i t de dp w].
    destruct (cycles_found res) eqn:Hc; cbn.
    + eexists. split; [reflexivity |]. split; [repeat split |]. split; [reflexivity |].
      right. eexists. split; reflexivity.
    + eexists. split; [reflexivity |]. split; [repeat split |]. split; [reflexivity |].
      now left.
Qed.

End ForwardingPaths.

Lemma forwarding_path_analysis_witness :
  (analyse_forwarding_path (E := Demo.externals) Scenes.ring_service ("fp0", ["A"])
                           (fresh Demo.validator)
   = Raise IndexError (fresh Demo.validator)) /\
  (exists p',
     analyse_forwarding_path (E := Demo.externals) Scenes.ring_service
                             ("fp1", ["A"; "B"; "C"; "A"]) (fresh Demo.validator)
     = Ok None p' /\
     same_configuration (self (fresh Demo.validator)) (self p') /\
     graphml p' = graphml (fresh Demo.validator) /\
     (p' = fresh Demo.validator \/
      exists c, records p'
                = records (fresh Demo.validator)
                  ++ [(WARNING, ForwardingPathCycles (fst ("fp1", ["A"; "B"; "C"; "A"])) c)] /\
                _warnings_count (self p')
                = _warnings_count (self (fresh Demo.validator)) + 1)).
Proof.
  split.
  - apply (proj1 (forwarding_path_analysis (E := Demo.externals) Scenes.ring_service
                    ("fp0", ["A"]) (fresh Demo.validator) eq_refl)).
    vm_compute. lia.
  - apply (proj2 (forwarding_path_analysis (E := Demo.externals) Scenes.ring_service
                    ("fp1", ["A"; "B"; "C"; "A"]) (fresh Demo.validator) eq_refl)).
    vm_compute. lia.
Defined.

(** ** The exceptions of the topology stage of a service *)

Lemma for_each_raise {A R} (l : list A) (body : A -> M (option R)) p e p' :
  for_each l body p = Raise e p' ->
  exists x q, In x l /\ body x q = Raise e p'.
Proof.
  revert p. induction l as [| x r IH]; intros p; simpl; [discriminate |].
  unfold bind. destruct (body x p) as [o q | | e0 q |] eqn:Hx; try discriminate.
  - destruct o as [v |]; [discriminate |]. intros H.
    destruct (IH q H) as (y & q0 & Hy & Hb). exists y, q0. tauto.
  - intros H. inversion H; subst. exists x, p. tauto.
Qed.

Section ServiceTopologyExceptions.
Context {E : Externals}.

Lemma analyse_forwarding_path_raises service fp q e q' :
  analyse_forwarding_path service fp q = Raise e q' ->
  e = IndexError /\
  str_in "BREAK" (service_trace_path service (snd fp)) = false /\
  length (service_trace_path service (snd fp)) < 2.
Proof.
  unfold analyse_forwarding_path.
  destruct (str_in "BREAK" (service_trace_path service (snd fp))); [discriminate |].
  destruct (service_trace_path service (snd fp)) as [| a [| b r]].
  - intros H. inversion H. cbn. auto.
  - intros H. inversion H. cbn. auto.
  - destruct (path_graph_walk a b r) as (n & rest & res & Hnodes & Hres).
    cbv zeta. rewrite Hnodes. cbn [nth_error].
    unfold bind, eval, ret. rewrite Hres.
    destruct (cycles_found res); discriminate.
Qed.

(** X10: the exceptions of [_validate_service_topology].  When the
    graph built for the service has no node, [nx.is_connected] raises
    [NetworkXPointlessConcept] and the stage ends there.  The only
    other exception of the stage is the [IndexError] of a forwarding
    path without breakpoint that traces fewer than two hops. *)
Theorem service_topology_exceptions (service : Service.t) (p : Process) :
  let built := service_build_topology_graph service in
  let loaded := snd (service_load_forwarding_paths built) in
  (nodes (Service.graph built) = [] ->
   _validate_service_topology service p
   = Raise NetworkXPointlessConcept
           (logged (logged p INFO (ServiceTopology (Service.id service)))
                   DEBUG (ServiceGraphBuilt (Service.id built)))) /\
  (forall e p',
     _validate_service_topology service p = Raise e p' ->
     (e = NetworkXPointlessConcept /\ nodes (Service.graph built) = []) \/
     (e = IndexError /\ nodes (Service.graph built) <> [] /\
      exists fp, In fp (Service.fw_paths loaded) /\
                 str_in "BREAK" (service_trace_path loaded (snd fp)) = false /\
                 length (service_trace_path loaded (snd fp)) < 2)).
Proof.
  intros built loaded. subst built loaded. split.
  - intros Hnull. unfold _validate_service_topology. steps.
    unfold is_connected. rewrite Hnull. reflexivity.
  - intros e p'. unfold _validate_service_topology. steps.
    unfold is_connected.
    destruct (nodes (Service.graph (service_build_topology_graph service)))
      as [| n rest] eqn:Hnodes.
    { cbn [eval]. unfold bind, raise. intros H. inversion H. now left. }
    cbn [eval]. steps.
    match goal with
    | |- context [if ?c then log DEBUG ?a else log WARNING ?b] =>
        assert (Hlog : forall (T : Type) (k : unit -> M T) q,
                   bind (if c then log DEBUG a else log WARNING b) k q
                   = k tt (logged q (if c then DEBUG else WARNING) (if c then a else b)))
          by (intros T k q; destruct c; reflexivity);
        rewrite Hlog; clear Hlog
    end.
    destruct (service_load_forwarding_paths (service_build_topology_graph service))
      as [ok loaded] eqn:Hload. cbn [fst snd].
    destruct ok; cbn [negb]; [| steps; discriminate].
    unfold bind at 1.
    destruct (for_each (Service.fw_paths loaded) (analyse_forwarding_path loaded) _)
      as [o q | | e0 q |] eqn:Hloop; try discriminate.
    + destruct o; steps; unfold write_graphml, bind, ret; discriminate.
    + intros H. inversion H; subst. right.
      destruct (for_each_raise _ _ _ _ _ Hloop) as (fp & q0 & Hfp & Hraise).
      destruct (analyse_forwarding_path_raises _ _ _ _ _ Hraise) as (-> & Hb & Hl).
      split; [reflexivity |]. split; [discriminate |]. now exists fp.
Qed.

End ServiceTopologyExceptions.

Lemma service_topology_exceptions_witness :
  _validate_service_topology (E := Demo.externals) Scenes.hollow (fresh Demo.validator)
  = Raise NetworkXPointlessConcept
          (logged (logged (fresh Demo.validator) INFO
                          (ServiceTopology (Service.id Scenes.hollow)))
                  DEBUG
                  (ServiceGraphBuilt
                     (Service.id (service_build_topology_graph (Externals := Demo.externals)
                                                               Scenes.hollow)))).
Proof.
  apply (proj1 (service_topology_exceptions (E := Demo.externals) Scenes.hollow
                                            (fresh Demo.validator))).
  reflexivity.
Defined.

Lemma function_True_means_checked_witness :
  exists function,
    @create_function Demo.externals "vnfds/firewall.yml" = Some function /\
    (_syntax (self (fresh Demo.validator)) = true ->
     @schema_validate Demo.externals (Function.content function) SCHEMA_FUNCTION_DESCRIPTOR
     = true) /\
    (_integrity (self (fresh Demo.validator)) = true ->
     exists f1 f2 f3 f4,
       @function_load_interfaces Demo.externals function = (true, f1) /\
       @function_load_units Demo.externals f1 = (true, f2) /\
       @function_load_unit_interfaces Demo.externals f2 = (true, f3) /\
       @function_load_links Demo.externals f3 = (true, f4) /\
       forall lid link iface,
         In (lid, link) (Function.links f4) -> In iface (pair_items link) ->
         unit_reference_ok f4 iface = true).
Proof.
  assert (H : validate_function (E := Demo.externals) 1 "vnfds/firewall.yml"
                                (fresh Demo.validator) = Ok True_ _)
    by (vm_compute; reflexivity).
  exact (@function_True_means_checked Demo.externals 0 "vnfds/firewall.yml" _ _ eq_refl H).
Defined.

Lemma service_functions_resolved_witness :
  exists functions items,
    dict_get (Service.content (Store.s_entity Demo.chain)) "network_functions"
    = Some functions /\
    iterate functions = Val items /\
    forall item, In item items ->
      exists vendor name version vnf_id,
        subscript item "vnf_vendor" = Val vendor /\
        subscript item "vnf_name" = Val name /\
        subscript item "vnf_version" = Val version /\
        subscript item "vnf_id" = Val vnf_id /\
        dict_has (@read_descriptor_files Demo.externals
                    (@list_files Demo.externals (_dpath (self (fresh Demo.validator)))
                                 (_dext (self (fresh Demo.validator)))))
                 (@build_descriptor_id Demo.externals vendor name version) = true.
Proof.
  assert (H : _load_service_functions (E := Demo.externals) (Store.s_entity Demo.chain)
                                      (fresh Demo.validator) = Ok (True_, _) _)
    by (vm_compute; reflexivity).
  exact (@service_functions_resolved Demo.externals _ _ _ _ _ H eq_refl).
Defined.

(** ** When a validation ends the process *)

Lemma aborts_bind {A B} (ok : Process -> bool) (m : M A) (k : A -> M B) :
  tame m -> aborts_by ok m -> (forall a, aborts_by ok (k a)) -> aborts_by ok (bind m k).
Proof.
  intros [_ Hbase] Hm Hk p c p'. unfold bind.
  destruct (m p) as [a q | c0 q | e q |] eqn:Hmp; try discriminate.
  - intros H. destruct (Hk a q c p' H) as [Hc Hok]. split; [exact Hc |].
    rewrite <- (Hbase p q); [exact Hok | now rewrite Hmp].
  - intros H. inversion H; subst. exact (Hm p c p' Hmp).
Qed.

Lemma aborts_never {A} (ok : Process -> bool) (m : M A) :
  (forall p c p', m p <> Exit c p') -> aborts_by ok m.
Proof. intros H p c p' Hp. destruct (H p c p' Hp). Qed.

Lemma aborts_for_each {A R} (ok : Process -> bool) (l : list A) (body : A -> M (option R)) :
  (forall x, tame (body x)) -> (forall x, aborts_by ok (body x)) ->
  aborts_by ok (for_each l body).
Proof.
  intros Ht Hb. induction l as [| x r IH]; cbn [for_each].
  - apply aborts_never. intros p c p' H. discriminate H.
  - apply aborts_bind; [apply Ht | apply Hb |]. intros [v |]; [| exact IH].
    apply aborts_never. intros p c p' H. discriminate H.
Qed.

Lemma aborts_for_each_on {A S R} (ok : Process -> bool) (l : list A) (s : S)
      (body : S -> A -> M (option R * S)) :
  (forall s x, tame (body s x)) -> (forall s x, aborts_by ok (body s x)) ->
  aborts_by ok (for_each_on l s body).
Proof.
  intros Ht Hb. revert s. induction l as [| x r IH]; intros s; cbn [for_each_on].
  - apply aborts_never. intros p c p' H. discriminate H.
  - apply aborts_bind; [apply Ht | apply Hb |]. intros [[v |] s']; cbn [fst snd]; [| apply IH].
    apply aborts_never. intros p c p' H. discriminate H.
Qed.

Lemma aborts_weaken {A} (ok ok' : Process -> bool) (m : M A) :
  (forall p, ok p = false -> ok' p = false) -> aborts_by ok m -> aborts_by ok' m.
Proof.
  intros Hw Hm p c p' H. destruct (Hm p c p' H) as [Hc Hok]. split; [exact Hc | now apply Hw].
Qed.

Ltac aborts_step :=
  match goal with
  | |- aborts_by _ (bind _ _) => apply aborts_bind; [solve [tame_steps] | | intros]
  | |- aborts_by _ (for_each _ _) => apply aborts_for_each; [intros; solve [tame_steps] | intros]
  | |- aborts_by _ (for_each_on _ _ _) =>
      apply aborts_for_each_on; [intros; solve [tame_steps] | intros]
  | |- aborts_by _ (if ?c then _ else _) => destruct c
  | |- aborts_by _ (eval ?r) =>
      destruct r; apply aborts_never; intros ? ? ? H; discriminate H
  | |- aborts_by _ (match ?x with _ => _ end) => destruct x
  | |- aborts_by _ (let (_, _) := ?x in _) => destruct x
  | |- aborts_by _ _ => apply aborts_never; intros ? ? ? H; discriminate H
  end.

Lemma stage_dependency_ok_base p :
  stage_dependency_ok (self (base p)) = stage_dependency_ok (self p).
Proof. destruct p as [[ll s i t de dp w] vb rs gm]. reflexivity. Qed.

Lemma service_parameters_ok_base p :
  service_parameters_ok (self (base p)) = service_parameters_ok (self p).
Proof. destruct p as [[ll s i t de dp w] vb rs gm]. reflexivity. Qed.

Section Aborts.
Context {E : Externals}.

Lemma aborts_assert_function :
  aborts_by function_scope_ok (_assert_configuration "validate_function").
Proof.
  intros p c p' H. unfold function_scope_ok. rewrite stage_dependency_ok_base.
  destruct (stage_dependency_ok (self p)) eqn:Hok.
  - rewrite (assert_configuration_function p Hok) in H. discriminate H.
  - rewrite (@assert_configuration_violation "validate_function" p
               (or_intror (or_intror eq_refl)) Hok) in H.
    inversion H. tauto.
Qed.

Lemma aborts_assert_service :
  aborts_by service_scope_ok (_assert_configuration "validate_service").
Proof.
  intros p c p' H. unfold service_scope_ok.
  rewrite stage_dependency_ok_base, service_parameters_ok_base.
  destruct (stage_dependency_ok (self p)) eqn:Hok.
  - rewrite (assert_configuration_service p Hok) in H.
    destruct (service_parameters_ok (self p)); [discriminate H |]. inversion H. tauto.
  - rewrite (@assert_configuration_violation "validate_service" p
               (or_intror (or_introl eq_refl)) Hok) in H.
    inversion H. tauto.
Qed.

Lemma aborts_validate_function fuel vnfd_path :
  aborts_by function_scope_ok (validate_function fuel vnfd_path).
Proof.
  revert vnfd_path. induction fuel as [| fuel IH]; intros vnfd_path; cbn [validate_function].
  - apply aborts_never. intros p c p' H. discriminate H.
  - apply aborts_bind;
      [apply tame_assert_configuration | apply aborts_assert_function | intros _].
    unfold validate_function_body. destruct (isdir vnfd_path).
    + apply aborts_bind; [solve [tame_steps] | aborts_step | intros _].
      apply aborts_bind; [solve [tame_steps] | aborts_step | intros dext].
      apply aborts_bind.
      * apply tame_for_each. intros f.
        apply tame_bind; [apply tame_validate_function | intros v]. tame_steps.
      * apply aborts_for_each.
        -- intros f. apply tame_bind; [apply tame_validate_function | intros v]. tame_steps.
        -- intros f. apply aborts_bind; [apply tame_validate_function | apply IH | intros v].
           repeat aborts_step.
      * intros [v |]; aborts_step.
    + unfold validate_function_file, log_stages, _validate_function_syntax,
        _validate_function_integrity, function_link_iface, _validate_function_topology.
      repeat aborts_step.
Qed.

Lemma aborts_validate_service fuel nsd_file :
  aborts_by service_scope_ok (validate_service fuel nsd_file).
Proof.
  unfold validate_service.
  apply aborts_bind;
    [apply tame_assert_configuration | apply aborts_assert_service | intros _].
  assert (Hf : forall f, aborts_by service_scope_ok (validate_function fuel f)).
  { intros f. apply aborts_weaken with (ok := function_scope_ok);
      [| apply aborts_validate_function].
    unfold function_scope_ok, service_scope_ok. intros p ->. reflexivity. }
  unfold validate_service_body, log_stages, _validate_service_syntax,
    _validate_service_integrity, _load_service_functions, verify_service_links,
    service_link_iface, _validate_service_topology, analyse_forwarding_path.
  repeat first
         [ apply Hf
         | match goal with
           | |- aborts_by _ (bind (validate_function _ _) _) =>
               apply aborts_bind; [apply tame_validate_function | apply Hf | intros]
           | |- aborts_by _ (bind _ _) =>
               apply aborts_bind;
               [solve [tame_steps; try apply tame_validate_function; tame_steps] | | intros]
           | |- aborts_by _ (for_each _ _) =>
               apply aborts_for_each;
               [intros; solve [tame_steps; try apply tame_validate_function; tame_steps]
               | intros]
           | |- aborts_by _ (for_each_on _ _ _) =>
               apply aborts_for_each_on;
               [intros; solve [tame_steps; try apply tame_validate_function; tame_steps]
               | intros]
           end
         | aborts_step ].
Qed.

End Aborts.

Section ExitOfValidation.
Context {E : Externals}.

Lemma exit_of_validate_project fuel project p c p' :
  validate_project fuel project p = Exit c p' ->
  c = 1%Z /\ service_scope_ok (in_project project p) = false.
Proof.
  unfold validate_project. intros H.
  destruct (stage_dependency_ok (self p)) eqn:Hok.
  - unfold bind at 1 in H. rewrite (assert_configuration_project p Hok) in H.
    unfold validate_project_body, log_stages in H. revert H. steps.
    unfold bind at 1, write at 1. unfold bind at 1, write at 1.
    cbn [self verbosity records graphml]. steps.
    unfold _load_project_service_file.
    destruct (Project.get_ns_descriptor project) as [| f [| f' r]].
    + intros H. discriminate H.
    + steps. intros H. apply aborts_validate_service in H.
      destruct p as [[ll s i t de dp w] vb rs gm]. exact H.
    + steps. intros H. apply aborts_validate_service in H.
      destruct p as [[ll s i t de dp w] vb rs gm]. exact H.
  - unfold bind at 1 in H.
    rewrite (@assert_configuration_violation "validate_project" p
               (or_introl eq_refl) Hok) in H.
    inversion H. split; [reflexivity |].
    destruct p as [[ll s i t de dp w] vb rs gm]. unfold service_scope_ok.
    cbn in *. unfold stage_dependency_ok in *. cbn in *. now rewrite Hok.
Qed.

(** X15: a validation ends the process only through the configuration
    check, and only with status 1.  [validate_function] exits exactly
    when the stage flags break the stage rules; [validate_service]
    exactly when they do or the rule on the search directory and the
    extension is broken; and when [validate_project] exits, one of the
    two is broken with the directory and extension of the project. *)
Theorem exit_means_configuration_error
        (fuel : nat) (project : Project.t) (nsd_file : pyval) (vnfd_path : string)
        (p : Process) :
  ((exists c p', validate_function (S fuel) vnfd_path p = Exit c p')
   <-> stage_dependency_ok (self p) = false) /\
  ((exists c p', validate_service fuel nsd_file p = Exit c p')
   <-> stage_dependency_ok (self p) && service_parameters_ok (self p) = false) /\
  (forall c p', validate_project fuel project p = Exit c p' ->
                service_scope_ok (in_project project p) = false) /\
  (forall c p',
     validate_function fuel vnfd_path p = Exit c p' \/
     validate_service fuel nsd_file p = Exit c p' \/
     validate_project fuel project p = Exit c p' ->
     c = 1%Z).
Proof.
  split; [| split; [| split]].
  - split.
    + intros (c & p' & H). apply aborts_validate_function in H.
      destruct H as [_ H]. unfold function_scope_ok in H.
      now rewrite stage_dependency_ok_base in H.
    + intros Hok. exists 1%Z, (logged p ERROR (stage_dependency_error (self p))).
      cbn [validate_function]. unfold bind.
      now rewrite (@assert_configuration_violation "validate_function" p
                     (or_intror (or_intror eq_refl)) Hok).
  - split.
    + intros (c & p' & H). apply aborts_validate_service in H.
      destruct H as [_ H]. unfold service_scope_ok in H.
      now rewrite stage_dependency_ok_base, service_parameters_ok_base in H.
    + intros Hok. unfold validate_service, bind.
      destruct (stage_dependency_ok (self p)) eqn:Hs.
      * rewrite (assert_configuration_service p Hs). cbn [andb] in Hok. rewrite Hok.
        eexists. eexists. reflexivity.
      * rewrite (@assert_configuration_violation "validate_service" p
                   (or_intror (or_introl eq_refl)) Hs).
        eexists. eexists. reflexivity.
  - intros c p' H. exact (proj2 (exit_of_validate_project _ _ _ _ _ H)).
  - intros c p' [H | [H | H]].
    + exact (proj1 (aborts_validate_function _ _ _ _ _ H)).
    + exact (proj1 (aborts_validate_service _ _ _ _ _ H)).
    + exact (proj1 (exit_of_validate_project _ _ _ _ _ H)).
Qed.

End ExitOfValidation.

Lemma exit_means_configuration_error_witness :
  stage_dependency_ok
    (self (fresh (with_flags default_validator false true false "vnfds"))) = false.
Proof.
  apply (proj1 (proj1 (@exit_means_configuration_error
                         Demo.externals 0 Scenes.project PNone "vnfds/firewall.yml"
                         (fresh (with_flags default_validator false true false "vnfds"))))).
  eexists. eexists. vm_compute. reflexivity.
Defined.

(** ** The command line *)

Lemma run_configured {E : Externals} {A} (args : Args.t) (workspace : Workspace.t)
      (dpath dext : option string) (m : M A) :
  bind (configure (Some (stage args (Args.syntax args)))
                  (Some (stage args (Args.integrity args)))
                  (Some (stage args (Args.topology args)))
                  dpath dext (PBool (Args.debug args)))
       (fun _ => m)
       (mkProcess (Validator_init workspace) PNone [] [])
  = m (configured args workspace dpath dext).
Proof.
  unfold bind. rewrite configure_run. unfold configured.
  cbn [self verbosity records graphml Validator_init _log_level _syntax _integrity
            _topology _dext _dpath _warnings_count updated].
  destruct (Args.debug args); reflexivity.
Qed.


Lemma stage_dependency_ok_configured args workspace dpath dext :
  stage_dependency_ok (self (configured args workspace dpath dext)) = stage_flags_ok args.
Proof.
  unfold stage_dependency_ok, stage_flags_ok, configured, stage, no_stage.
  cbn [self _syntax _integrity _topology].
  destruct (Args.syntax args), (Args.integrity args), (Args.topology args); reflexivity.
Qed.

Section CommandLine.
Context {E : Externals}.
Variable home : string.
Variable load_workspace : string -> option Workspace.t.
Variable load_project : Workspace.t -> string -> option Project.t.

(** [main] in terms of the validation it runs. *)
Lemma main_run fuel args :
  main home load_workspace load_project fuel args
  = let ending_of (o : outcome pyval) failed succeeded warnings :=
        match o with
        | Ok v p =>
            if negb (truthy v) then Exited 1 (Some p) [(CRITICAL, failed)]
            else if Nat.eqb (warnings_count (self p)) 0
                 then Exited 0 (Some p) [(INFO, succeeded); (INFO, Done)]
                 else Exited 0 (Some p)
                             [(WARNING, warnings (warnings_count (self p))); (INFO, Done)]
        | Exit c p => Exited c (Some p) []
        | Raise e p => Raised e p
        | Diverge => Unfinished
        end in
    match selected args with
    | ProjectBranch =>
        let ws_root := if given (Args.workspace_path args)
                       then match Args.workspace_path args with Some w => w | None => "" end
                       else home in
        let prj_root := match Args.project_path args with Some r => r | None => "" end in
        match load_workspace ws_root with
        | None => Exited 1 None [(ERROR, InvalidWorkspacePath ws_root)]
        | Some workspace =>
            match load_project workspace prj_root with
            | None => Exited 1 None [(ERROR, InvalidProjectPath prj_root)]
            | Some project =>
                ending_of (validate_project fuel project
                                            (configured args workspace None None))
                          ProjectValidationFailed
                          (ProjectSucceeded (Project.project_root project))
                          (ProjectWarnings (Project.project_root project))
            end
        end
    | PackageBranch => Exited 0 None [(INFO, Done)]
    | ServiceBranch =>
        let nsd := match Args.nsd args with Some f => f | None => "" end in
        ending_of (validate_service fuel (PStr nsd)
                                    (configured args (Workspace.virtual "debug")
                                                (Args.dpath args) (Args.dext args)))
                  ProjectValidationFailed (ServiceSucceeded nsd) (ServiceWarnings nsd)
    | FunctionBranch =>
        let vnfd := match Args.vnfd args with Some f => f | None => "" end in
        ending_of (validate_function fuel vnfd
                                     (configured args (Workspace.virtual "debug")
                                                 None (Args.dext args)))
                  FunctionValidationFailed (FunctionSucceeded vnfd) (FunctionWarnings vnfd)
    | NoBranch => Exited 1 None [(ERROR, InvalidArguments)]
    end.
Proof.
  unfold main, selected. cbv zeta.
  fold (no_stage args). fold (stage args (Args.syntax args)).
  fold (stage args (Args.integrity args)). fold (stage args (Args.topology args)).
  destruct (given (Args.project_path args)).
  - destruct (load_workspace _) as [workspace |]; [| reflexivity].
    destruct (load_project _ _) as [project |]; [| reflexivity].
    now rewrite run_configured.
  - destruct (given (Args.pd args)); [reflexivity |].
    destruct (given (Args.nsd args)); [now rewrite run_configured |].
    destruct (given (Args.vnfd args)); [now rewrite run_configured | reflexivity].
Qed.

End CommandLine.

Lemma str_truthy_false s : str_truthy s = false -> s = "".
Proof.
  unfold str_truthy. intros H. apply negb_false_iff in H. now apply String.eqb_eq.
Qed.

Section MainProperties.
Context {E : Externals}.
Variable home : string.
Variable load_workspace : string -> option Workspace.t.
Variable load_project : Workspace.t -> string -> option Project.t.


(** The validation behind an ending of [main] that has a validator. *)
Lemma main_final fuel args p :
  (exists c said, main home load_workspace load_project fuel args = Exited c (Some p) said) \/
  (exists e, main home load_workspace load_project fuel args = Raised e p) ->
  match selected args with
  | ProjectBranch =>
      exists workspace project,
        final (validate_project fuel project (configured args workspace None None))
        = Some p
  | ServiceBranch =>
      final (validate_service
               fuel (PStr match Args.nsd args with Some f => f | None => "" end)
               (configured args (Workspace.virtual "debug")
                           (Args.dpath args) (Args.dext args)))
      = Some p
  | FunctionBranch =>
      final (validate_function
               fuel match Args.vnfd args with Some f => f | None => "" end
               (configured args (Workspace.virtual "debug") None (Args.dext args)))
      = Some p
  | _ => False
  end.
Proof.
  rewrite main_run. cbv zeta. destruct (selected args).
  - destruct (load_workspace _) as [workspace |];
      [| intros [(c & said & H) | (e & H)]; discriminate H].
    destruct (load_project _ _) as [project |];
      [| intros [(c & said & H) | (e & H)]; discriminate H].
    intros H. exists workspace, project.
    destruct (validate_project fuel project _) as [v q | c0 q | e0 q |];
      [destruct (truthy v); cbn [negb] in H;
       [destruct (Nat.eqb (warnings_count (self q)) 0) |] | | |];
      destruct H as [(c & said & H) | (e & H)]; inversion H; reflexivity.
  - intros [(c & said & H) | (e & H)]; discriminate H.
  - intros H.
    destruct (validate_service fuel _ _) as [v q | c0 q | e0 q |];
      [destruct (truthy v); cbn [negb] in H;
       [destruct (Nat.eqb (warnings_count (self q)) 0) |] | | |];
      destruct H as [(c & said & H) | (e & H)]; inversion H; reflexivity.
  - intros H.
    destruct (validate_function fuel _ _) as [v q | c0 q | e0 q |];
      [destruct (truthy v); cbn [negb] in H;
       [destruct (Nat.eqb (warnings_count (self q)) 0) |] | | |];
      destruct H as [(c & said & H) | (e & H)]; inversion H; reflexivity.
  - intros [(c & said & H) | (e & H)]; discriminate H.
Qed.

(** An ending of [main] without a record of its own comes from an
    exit inside the validation. *)
Lemma main_silent fuel args c p :
  main home load_workspace load_project fuel args = Exited c (Some p) [] ->
  match selected args with
  | ProjectBranch =>
      exists workspace project,
        load_workspace (workspace_root home args) = Some workspace /\
        load_project workspace (project_root args) = Some project /\
        validate_project fuel project (configured args workspace None None) = Exit c p
  | ServiceBranch =>
      validate_service
        fuel (PStr match Args.nsd args with Some f => f | None => "" end)
        (configured args (Workspace.virtual "debug") (Args.dpath args) (Args.dext args))
      = Exit c p
  | FunctionBranch =>
      validate_function
        fuel match Args.vnfd args with Some f => f | None => "" end
        (configured args (Workspace.virtual "debug") None (Args.dext args))
      = Exit c p
  | _ => False
  end.
Proof.
  rewrite main_run. cbv zeta. fold (workspace_root home args). fold (project_root args).
  destruct (selected args).
  - destruct (load_workspace _) as [workspace |] eqn:Hw; [| discriminate].
    destruct (load_project _ _) as [project |] eqn:Hp; [| discriminate].
    intros H. exists workspace, project. split; [reflexivity |]. split; [exact Hp |].
    destruct (validate_project fuel project _) as [v q | c0 q | e0 q |];
      [destruct (truthy v); cbn [negb] in H;
       [destruct (Nat.eqb (warnings_count (self q)) 0) |] | | |];
      inversion H; reflexivity.
  - discriminate.
  - intros H.
    destruct (validate_service fuel _ _) as [v q | c0 q | e0 q |];
      [destruct (truthy v); cbn [negb] in H;
       [destruct (Nat.eqb (warnings_count (self q)) 0) |] | | |];
      inversion H; reflexivity.
  - intros H.
    destruct (validate_function fuel _ _) as [v q | c0 q | e0 q |];
      [destruct (truthy v); cbn [negb] in H;
       [destruct (Nat.eqb (warnings_count (self q)) 0) |] | | |];
      inversion H; reflexivity.
  - discriminate.
Qed.



Lemma final_validate_project_flags fuel project p p' :
  final (validate_project fuel project p) = Some p' ->
  _syntax (self p') = _syntax (self p) /\
  _integrity (self p') = _integrity (self p) /\
  _topology (self p') = _topology (self p).
Proof.
  unfold validate_project.
  destruct (assert_configuration_cases "validate_project" p) as [Ha | (l & m & Ha)];
    unfold bind at 1; rewrite Ha.
  2:{ cbn [final]. intros H. inversion H. auto. }
  unfold validate_project_body, log_stages. steps.
  unfold bind at 1, write at 1. unfold bind at 1, write at 1.
  cbn [self verbosity records graphml]. steps.
  unfold _load_project_service_file.
  destruct (Project.get_ns_descriptor project) as [| f [| f' r]].
  - unfold bind, raise. cbn [final]. intros H. inversion H.
    destruct p as [[ll s i t de dp w] vb rs gm]. auto.
  - steps. intros H. apply (tame_extends _ _ _ (tame_validate_service fuel _)) in H.
    destruct H as [(_ & Hs & Hi & Ht & _) _].
    destruct p as [[ll s i t de dp w] vb rs gm]. auto.
  - steps. intros H. apply (tame_extends _ _ _ (tame_validate_service fuel _)) in H.
    destruct H as [(_ & Hs & Hi & Ht & _) _].
    destruct p as [[ll s i t de dp w] vb rs gm]. auto.
Qed.

(** X17: the validator [main] leaves behind is configured from the
    arguments.  With no stage flag given all three stages are on,
    otherwise exactly the given ones.  For a service the search
    directory is [--dpath] or ['.'] and the extension [--dext] or
    ['yml']; for a function the directory stays ['.'] whatever
    [--dpath] says. *)
Theorem main_configuration (fuel : nat) (args : Args.t) (p : Process) :
  (exists c said, main home load_workspace load_project fuel args = Exited c (Some p) said) \/
  (exists e, main home load_workspace load_project fuel args = Raised e p) ->
  (_syntax (self p) = stage args (Args.syntax args) /\
   _integrity (self p) = stage args (Args.integrity args) /\
   _topology (self p) = stage args (Args.topology args)) /\
  (selected args = ServiceBranch ->
   _dpath (self p) = updated (Args.dpath args) "." /\
   _dext (self p) = updated (Args.dext args) "yml") /\
  (selected args = FunctionBranch ->
   _dpath (self p) = "." /\
   _dext (self p) = updated (Args.dext args) "yml").
Proof.
  intros H. apply main_final in H. destruct (selected args).
  - destruct H as (workspace & project & H).
    apply final_validate_project_flags in H.
    split; [exact H |]. split; discriminate.
  - destruct H.
  - apply (tame_extends _ _ _ (tame_validate_service fuel _)) in H.
    destruct H as [(_ & Hs & Hi & Ht & Hde & Hdp) _].
    split; [auto |]. split; [intros _; auto | discriminate].
  - apply (tame_extends _ _ _ (tame_validate_function fuel _)) in H.
    destruct H as [(_ & Hs & Hi & Ht & Hde & Hdp) _].
    split; [auto |]. split; [discriminate | intros _; auto].
  - destruct H.
Qed.

(** X18: [main] ends without a record of its own, after a validator
    was created, exactly when the configuration check stopped the
    validation.  For a function or a service that is the case whenever
    the stage flags of the command line break the stage rules; apart
    from that it takes an empty [--dpath] or [--dext] for a service, or
    a project without function directory or extension. *)
Theorem main_abort_by_configuration (fuel : nat) (args : Args.t) :
  (forall c p,
     main home load_workspace load_project fuel args = Exited c (Some p) [] ->
     stage_flags_ok args = false \/
     (selected args = ServiceBranch /\
      (Args.dpath args = Some "" \/ Args.dext args = Some "")) \/
     (selected args = ProjectBranch /\
      exists workspace project,
        load_workspace (workspace_root home args) = Some workspace /\
        load_project workspace (project_root args) = Some project /\
        (Project.vnfd_root project = "" \/ Project.descriptor_extension project = ""))) /\
  (stage_flags_ok args = false ->
   selected args = ServiceBranch \/ selected args = FunctionBranch ->
   exists p m,
     main home load_workspace load_project (S fuel) args = Exited 1 (Some p) [] /\
     records p = [(ERROR, m)]).
Proof.
  split.
  - intros c p H. apply main_silent in H.
    destruct (stage_flags_ok args) eqn:Hflags; [right | now left].
    destruct (selected args) eqn:Hsel; [| destruct H | | | destruct H].
    + right. split; [reflexivity |]. destruct H as (workspace & project & Hw & Hp & H).
      exists workspace, project. split; [exact Hw |]. split; [exact Hp |].
      apply exit_of_validate_project in H. destruct H as [_ H].
      unfold service_scope_ok, in_project in H. cbn [self] in H.
      assert (Hs : forall dp de, stage_dependency_ok
                     (set_dext de (set_dpath dp (self (configured args workspace None None))))
                   = stage_flags_ok args).
      { intros dp de. rewrite <- (stage_dependency_ok_configured args workspace None None).
        reflexivity. }
      rewrite Hs, Hflags in H. cbn [andb] in H.
      unfold service_parameters_ok in H. apply orb_false_iff in H. destruct H as [_ H].
      cbn in H. apply andb_false_iff in H.
      destruct H as [H | H]; apply str_truthy_false in H; tauto.
    + left. split; [reflexivity |]. apply aborts_validate_service in H. destruct H as [_ H].
      unfold service_scope_ok in H.
      rewrite stage_dependency_ok_base, service_parameters_ok_base in H.
      rewrite stage_dependency_ok_configured, Hflags in H. cbn [andb] in H.
      unfold service_parameters_ok in H. apply orb_false_iff in H. destruct H as [_ H].
      cbn in H. apply andb_false_iff in H.
      destruct H as [H | H]; apply str_truthy_false in H;
        [left; destruct (Args.dpath args) as [d |] | right; destruct (Args.dext args) as [d |]];
        cbn in H; try discriminate H; now subst.
    + apply aborts_validate_function in H. destruct H as [_ H].
      unfold function_scope_ok in H.
      rewrite stage_dependency_ok_base, stage_dependency_ok_configured in H. congruence.
  - intros Hflags Hsel. rewrite main_run. cbv zeta.
    destruct Hsel as [Hsel | Hsel]; rewrite Hsel.
    + unfold validate_service, bind.
      rewrite (@assert_configuration_violation "validate_service" _
                 (or_intror (or_introl eq_refl))
                 (eq_trans (stage_dependency_ok_configured _ _ _ _) Hflags)).
      eexists. eexists. split; reflexivity.
    + cbn [validate_function]. unfold bind.
      rewrite (@assert_configuration_violation "validate_function" _
                 (or_intror (or_intror eq_refl))
                 (eq_trans (stage_dependency_ok_configured _ _ _ _) Hflags)).
      eexists. eexists. split; reflexivity.
Qed.

End MainProperties.


Lemma main_configuration_witness :
  exists p,
    (exists c said,
       main (E := Demo.externals) Scenes.home Scenes.load_workspace Scenes.load_project
            1 Scenes.function_firewall
       = Exited c (Some p) said) /\
    _dpath (self p) = ".".
Proof.
  eexists.
  assert (H : main (E := Demo.externals) Scenes.home Scenes.load_workspace
                   Scenes.load_project 1 Scenes.function_firewall
              = Exited _ (Some _) _) by (vm_compute; reflexivity).
  split; [eexists; eexists; exact H |].
  exact (proj1 (proj2 (proj2 (@main_configuration
                                Demo.externals Scenes.home Scenes.load_workspace
                                Scenes.load_project 1 Scenes.function_firewall _
                                (or_introl (ex_intro _ _ (ex_intro _ _ H)))))
                      eq_refl)).
Defined.

Lemma main_abort_by_configuration_witness :
  exists p m,
    main (E := Demo.externals) Scenes.home Scenes.load_workspace Scenes.load_project
         1 Scenes.integrity_alone
    = Exited 1 (Some p) [] /\
    records p = [(ERROR, m)].
Proof.
  apply (proj2 (@main_abort_by_configuration Demo.externals Scenes.home
                  Scenes.load_workspace Scenes.load_project 0 Scenes.integrity_alone)).
  - reflexivity.
  - left. reflexivity.
Defined.

(** ** The exceptions of a validation *)

Lemma raises_bind {A B} (P : exn -> Prop) (m : M A) (k : A -> M B) :
  raises_only P m -> (forall a, raises_only P (k a)) -> raises_only P (bind m k).
Proof.
  intros Hm Hk p e p'. unfold bind.
  destruct (m p) as [a q | c q | e0 q |] eqn:Hmp; try discriminate.
  - apply Hk.
  - intros H. inversion H; subst. exact (Hm p e p' Hmp).
Qed.

Lemma raises_bind_eval {A B} (P : exn -> Prop) (r : res A) (k : A -> M B) :
  (forall e, r = Err e -> P e) ->
  (forall a, r = Val a -> raises_only P (k a)) ->
  raises_only P (bind (eval r) k).
Proof.
  intros Hr Hk p e p'. unfold bind. destruct r as [a | e0 |]; cbn [eval].
  - apply (Hk a eq_refl).
  - intros H. inversion H; subst. now apply Hr.
  - discriminate.
Qed.

Lemma raises_never {A} (P : exn -> Prop) (m : M A) :
  (forall p e p', m p <> Raise e p') -> raises_only P m.
Proof. intros H p e p' Hp. destruct (H p e p' Hp). Qed.

Lemma raises_for_each {A R} (P : exn -> Prop) (l : list A) (body : A -> M (option R)) :
  (forall x, raises_only P (body x)) -> raises_only P (for_each l body).
Proof.
  intros Hb. induction l as [| x r IH]; cbn [for_each].
  - apply raises_never. intros p e p' H. discriminate H.
  - apply raises_bind; [apply Hb |]. intros [v |]; [| exact IH].
    apply raises_never. intros p e p' H. discriminate H.
Qed.

Lemma raises_for_each_on {A S R} (P : exn -> Prop) (l : list A) (s : S)
      (body : S -> A -> M (option R * S)) :
  (forall s x, raises_only P (body s x)) -> raises_only P (for_each_on l s body).
Proof.
  intros Hb. revert s. induction l as [| x r IH]; intros s; cbn [for_each_on].
  - apply raises_never. intros p e p' H. discriminate H.
  - apply raises_bind; [apply Hb |]. intros [[v |] s']; cbn [fst snd]; [| apply IH].
    apply raises_never. intros p e p' H. discriminate H.
Qed.

Lemma raises_weaken {A} (P Q : exn -> Prop) (m : M A) :
  (forall e, P e -> Q e) -> raises_only P m -> raises_only Q m.
Proof. intros Hw Hm p e p' H. apply Hw. exact (Hm p e p' H). Qed.

Lemma subscript_raises v k e : subscript v k = Err e -> item_error e.
Proof.
  unfold subscript, item_error. destruct v; try (intros H; inversion H; tauto).
  destruct (dict_get _ _); intros H; inversion H. tauto.
Qed.

Lemma iterate_raises v e : iterate v = Err e -> item_error e.
Proof. unfold iterate, item_error. destruct v; intros H; inversion H; tauto. Qed.

Lemma is_connected_raises g e : is_connected g = Err e -> e = NetworkXPointlessConcept.
Proof. unfold is_connected. destruct (nodes g); intros H; now inversion H. Qed.

Lemma first_node_raises (l : list node) e :
  match nth_error l 0 with Some n => Val n | None => Err IndexError end = Err e ->
  e = IndexError.
Proof. destruct (nth_error l 0); intros H; now inversion H. Qed.

Lemma first_node_In (l : list node) n :
  match nth_error l 0 with Some n => Val n | None => Err IndexError end = Val n ->
  In n l.
Proof.
  destruct (nth_error l 0) eqn:Hn; intros H; inversion H; subst.
  exact (nth_error_In _ _ Hn).
Qed.

Ltac raises_step :=
  match goal with
  | |- raises_only _ (bind (eval _) _) => apply raises_bind_eval; [intros ? ? | intros ? ?]
  | |- raises_only _ (bind _ _) => apply raises_bind; [| intros]
  | |- raises_only _ (for_each _ _) => apply raises_for_each; intros
  | |- raises_only _ (for_each_on _ _ _) => apply raises_for_each_on; intros
  | |- raises_only _ (if ?c then _ else _) => destruct c
  | |- raises_only _ (match ?x with _ => _ end) => destruct x
  | |- raises_only _ (let (_, _) := ?x in _) => destruct x
  | |- raises_only _ _ =>
      let H := fresh in apply raises_never; intros ? ? ? H; discriminate H
  end.

Lemma well_formed_walk_never_raises g start e :
  well_formed g -> In start (nodes g) -> _find_graph_cycles g start = Err e -> False.
Proof.
  intros Hwf Hin H. unfold _find_graph_cycles in H.
  destruct (find_graph_cycles_rec_value g Hwf (S (length g)) [] None start)
    as [Hf | (r & Hr)]; [discriminate | exact Hin | |]; congruence.
Qed.

Section Exceptions.
Context {E : Externals}.

Lemma raises_assert_configuration (P : exn -> Prop) caller :
  raises_only P (_assert_configuration caller).
Proof.
  intros p e p' H.
  destruct (assert_configuration_cases caller p) as [Ha | (l & m & Ha)];
    rewrite Ha in H; discriminate H.
Qed.

(** The exceptions of a function: those of its topology stage. *)
Lemma raises_validate_function (P : exn -> Prop) fuel vnfd_path :
  P IndexError ->
  (forall f start e,
      let g := Function.graph (function_build_topology_graph f) in
      In start (nodes g) -> _find_graph_cycles g start = Err e -> P e) ->
  raises_only P (validate_function fuel vnfd_path).
Proof.
  intros Hindex Hwalk. revert vnfd_path.
  induction fuel as [| fuel IH]; intros vnfd_path; cbn [validate_function].
  - apply raises_never. intros p e p' H. discriminate H.
  - apply raises_bind; [apply raises_assert_configuration | intros _].
    unfold validate_function_body. destruct (isdir vnfd_path).
    + apply raises_bind; [raises_step | intros _].
      apply raises_bind; [raises_step | intros dext].
      apply raises_bind; [| intros [v |]; raises_step].
      apply raises_for_each. intros f.
      apply raises_bind; [apply IH | intros v; repeat raises_step].
    + unfold validate_function_file, log_stages, _validate_function_syntax,
        _validate_function_integrity, function_link_iface, _validate_function_topology.
      repeat first
             [ match goal with
               | H : _ = Err _ |- _ =>
                   first [ apply first_node_raises in H; subst; exact Hindex
                         | eapply Hwalk; [| exact H]; now apply first_node_In ]
               end
             | raises_step ].
Qed.

Lemma raises_load_service_functions service :
  raises_only item_error (_load_service_functions service).
Proof.
  unfold _load_service_functions.
  repeat first
         [ match goal with
           | H : subscript _ _ = Err _ |- _ => exact (subscript_raises _ _ _ H)
           | H : iterate _ = Err _ |- _ => exact (iterate_raises _ _ H)
           | H : match dict_get ?d ?k with _ => _ end = Err _ |- _ =>
               destruct (dict_get d k); inversion H; left; reflexivity
           end
         | raises_step ].
Qed.

(** The exceptions of a service whose functions raise nothing but
    [IndexError]. *)
Lemma raises_validate_service fuel nsd_file :
  (forall f, raises_only (eq IndexError) (validate_function fuel f)) ->
  raises_only (fun e => e = IndexError \/ e = NetworkXPointlessConcept \/ item_error e)
              (validate_service fuel nsd_file).
Proof.
  intros Hf. unfold validate_service.
  apply raises_bind; [apply raises_assert_configuration | intros _].
  unfold validate_service_body, log_stages, _validate_service_syntax,
    _validate_service_integrity, verify_service_links, service_link_iface,
    _validate_service_topology.
  repeat first
         [ match goal with
           | |- raises_only _ (validate_function _ _) =>
               apply raises_weaken with (P := eq IndexError); [intros ? <-; tauto | apply Hf]
           | |- raises_only _ (_load_service_functions _) =>
               apply raises_weaken with (P := item_error);
               [tauto | apply raises_load_service_functions]
           | |- raises_only _ (analyse_forwarding_path _ _) =>
               let H := fresh in
               intros ? ? ? H; apply analyse_forwarding_path_raises in H; tauto
           | H : is_connected _ = Err _ |- _ => apply is_connected_raises in H; tauto
           | H : _ = Err _ |- _ => apply first_node_raises in H; tauto
           end
         | raises_step ].
Qed.

(** X19: the exceptions of a validation.  [validate_function] can raise
    [IndexError] (a function graph without nodes) and the two errors of
    the cycle walk, nothing else.  When the graphs built for functions
    are well-formed the walk raises nothing, and then
    [validate_function] raises nothing but [IndexError];
    [validate_service] nothing but [IndexError],
    [NetworkXPointlessConcept], [KeyError] and [TypeError]; and
    [validate_project] nothing but these and [ValueError]. *)
Theorem validation_exceptions
        (fuel : nat) (project : Project.t) (nsd_file : pyval) (vnfd_path : string)
        (p p' : Process) (e : exn) :
  (validate_function fuel vnfd_path p = Raise e p' ->
   e = IndexError \/ walk_error e) /\
  ((forall f, well_formed (Function.graph (function_build_topology_graph f))) ->
   (validate_function fuel vnfd_path p = Raise e p' -> e = IndexError) /\
   (validate_service fuel nsd_file p = Raise e p' ->
    e = IndexError \/ e = NetworkXPointlessConcept \/ item_error e) /\
   (validate_project fuel project p = Raise e p' ->
    e = ValueError \/ e = IndexError \/ e = NetworkXPointlessConcept \/ item_error e)).
Proof.
  split.
  - apply (raises_validate_function (fun e => e = IndexError \/ walk_error e));
      [now left |].
    intros f start e0 g _ H. right.
    exact (proj2 (find_graph_cycles_rec_reports _ _ _ _ _ (NoDup_nil _)
                                                (fun x (Hx : In x []) => match Hx with end))
                 e0 H).
  - intros Hwf.
    assert (Hf : forall n f, raises_only (eq IndexError) (validate_function n f)).
    { intros n f. apply raises_validate_function; [reflexivity |].
      intros f0 start e0 g Hin H. exfalso.
      exact (well_formed_walk_never_raises _ _ _ (Hwf f0) Hin H). }
    split; [| split].
    + intros H. symmetry. exact (Hf fuel vnfd_path p e p' H).
    + apply (raises_validate_service fuel nsd_file (Hf fuel)).
    + unfold validate_project.
      destruct (assert_configuration_cases "validate_project" p) as [Ha | (l & m & Ha)];
        unfold bind at 1; rewrite Ha; [| discriminate].
      unfold validate_project_body, log_stages. steps.
      unfold bind at 1, write at 1. unfold bind at 1, write at 1.
      cbn [self verbosity records graphml]. steps.
      unfold _load_project_service_file.
      destruct (Project.get_ns_descriptor project) as [| f [| f' r]].
      * intros H. inversion H. now left.
      * steps. intros H. right.
        exact (raises_validate_service fuel _ (Hf fuel) _ _ _ H).
      * steps. intros H. right.
        exact (raises_validate_service fuel _ (Hf fuel) _ _ _ H).
Qed.

End Exceptions.

Lemma well_formed_add_node g n : well_formed g -> well_formed (add_node g n).
Proof.
  intros (Hn & Hl & Hs). split; [| split].
  - now apply NoDup_nodes_add_node.
  - now apply neighbours_add_node.
  - intros a b. rewrite !edge_add_node. apply Hs.
Qed.

(** The graphs of the in-memory store are well-formed. *)
Lemma well_formed_topology ifaces lnks : well_formed (Store.topology ifaces lnks).
Proof.
  unfold Store.topology. apply well_formed_add_edges_from.
  assert (H : forall g, well_formed g -> well_formed (fold_left add_node ifaces g)).
  { induction ifaces as [| i r IH]; intros g Hg; simpl; [exact Hg |].
    apply IH. now apply well_formed_add_node. }
  apply H, well_formed_empty_graph.
Qed.

Lemma validation_exceptions_witness :
  exists e p',
    validate_function (E := Scenes.hollow_externals) 1 "vnfds/hollow.yml"
                      (fresh Demo.validator)
    = Raise e p' /\
    e = IndexError.
Proof.
  eexists. eexists.
  assert (H : validate_function (E := Scenes.hollow_externals) 1 "vnfds/hollow.yml"
                                (fresh Demo.validator)
              = Raise _ _) by (vm_compute; reflexivity).
  split; [exact H |].
  exact (proj1 (proj2 (@validation_exceptions Scenes.hollow_externals 1 Scenes.project PNone
                                              "vnfds/hollow.yml" _ _ _)
                      (fun f => well_formed_topology _ _))
               H).
Defined.

(** ** Projects with no or several service descriptors *)

Section ProjectDescriptors.
Context {E : Externals}.

(** X20: what [validate_project] does with the service descriptors of
    the project, once its configuration check has passed.  With no
    descriptor at all it raises [ValueError] (the message it is about
    to log cannot be formatted) instead of returning, and no record
    tells why.  With more than one descriptor it logs the critical
    record and then still calls [validate_service], with [False] for
    the file name. *)
Theorem validate_project_descriptor_count (fuel : nat) (project : Project.t) (p : Process) :
  stage_dependency_ok (self p) = true ->
  let p1 := logged (logged (logged (in_project project p) INFO
                                   (ValidatingProject (Project.project_root project)))
                           INFO (Stages (_syntax (self p)) (_integrity (self p))
                                        (_topology (self p))))
                   DEBUG LoadingProjectService in
  (Project.get_ns_descriptor project = [] ->
   validate_project fuel project p = Raise ValueError p1) /\
  (2 <= length (Project.get_ns_descriptor project) ->
   validate_project fuel project p
   = validate_service
       fuel (PBool false)
       (logged p1 CRITICAL
               (MultipleServiceDescriptors (Project.project_root project)
                                           (Project.get_ns_descriptor project)))) /\
  (forall nsd, Project.get_ns_descriptor project = [nsd] ->
               validate_project fuel project p = validate_service fuel (PStr nsd) p1).
Proof.
  intros Hok p1. subst p1.
  assert (Hrun : validate_project fuel project p
                 = bind (_load_project_service_file project)
                        (validate_service fuel)
                        (logged (logged (logged (in_project project p) INFO
                                   (ValidatingProject (Project.project_root project)))
                           INFO (Stages (_syntax (self p)) (_integrity (self p))
                                        (_topology (self p))))
                                DEBUG LoadingProjectService)).
  { unfold validate_project. unfold bind at 1.
    rewrite (assert_configuration_project p Hok).
    unfold validate_project_body, log_stages. steps.
    unfold bind at 1, write at 1. unfold bind at 1, write at 1.
    cbn [self verbosity records graphml]. steps.
    destruct p as [[ll s i t de dp w] vb rs gm]. reflexivity. }
  rewrite Hrun. unfold _load_project_service_file.
  split; [| split].
  - intros ->. reflexivity.
  - intros Hlen. destruct (Project.get_ns_descriptor project) as [| f [| f' r]];
      cbn [length] in Hlen; try lia. steps. reflexivity.
  - intros nsd ->. steps. reflexivity.
Qed.

End ProjectDescriptors.

Lemma validate_project_descriptor_count_witness :
  validate_project (E := Demo.externals) 1 Scenes.no_descriptor (fresh Demo.validator)
  = Raise ValueError
          (logged (logged (logged (in_project Scenes.no_descriptor (fresh Demo.validator))
                                  INFO
                                  (ValidatingProject
                                     (Project.project_root Scenes.no_descriptor)))
                          INFO (Stages (_syntax (self (fresh Demo.validator)))
                                       (_integrity (self (fresh Demo.validator)))
                                       (_topology (self (fresh Demo.validator)))))
                  DEBUG LoadingProjectService).
Proof.
  exact (proj1 (@validate_project_descriptor_count Demo.externals 1 Scenes.no_descriptor
                                                   (fresh Demo.validator) eq_refl)
               eq_refl).
Defined.

(** ** A true answer of the integrity stage of a service *)

Lemma for_each_map {A B R} (g : A -> B) (l : list A) (body : B -> M (option R)) p :
  for_each (map g l) body p = for_each l (fun x => body (g x)) p.
Proof.
  revert p. induction l as [| x r IH]; intros p; simpl; [reflexivity |].
  unfold bind. destruct (body (g x) p) as [[v |] q | | |]; try reflexivity. apply IH.
Qed.

Section ServiceIntegrityTrue.
Context {E : Externals}.

Lemma tame_load_service_functions service : tame (_load_service_functions service).
Proof. unfold _load_service_functions. tame_steps. Qed.

(** X21: when [_validate_service_integrity] answers [True], the
    functions referenced by the service were loaded, the interfaces
    and the links of the service were loaded, every connection point
    key of every link resolves (it is a service interface or names an
    associated function), and every function associated with the
    service validates with a true result. *)
Theorem service_integrity_True
        (fuel : nat) (service s' : Service.t) (p p' : Process) (r : pyval) :
  _validate_service_integrity fuel service p = Ok (r, s') p' ->
  truthy r = true ->
  exists r0 s0 s1 p1,
    _load_service_functions service (logged p INFO (ServiceIntegrity (Service.id service)))
    = Ok (r0, s0) p1 /\
    truthy r0 = true /\
    service_load_interfaces s0 = (true, s1) /\
    service_load_links s1 = (true, s') /\
    (forall lid link iface,
        In (lid, link) (Service.links s') -> In iface (pair_items link) ->
        key_resolves s' iface = true) /\
    (forall fid function,
        In (fid, function) (Service.functions s') ->
        exists v q,
          validate_function fuel (Function.filename function) p = Ok v q /\
          truthy v = true).
Proof.
  unfold _validate_service_integrity. steps. intros H Hr.
  apply bind_Ok_inv in H. destruct H as ([r0 s0] & p1 & H0 & H). cbn [fst snd] in H.
  destruct (truthy r0) eqn:Hr0; cbn [negb] in H.
  2:{ revert H. steps. intros H. inversion H; subst. discriminate. }
  destruct (service_load_interfaces s0) as [ok1 s1] eqn:L1. destruct ok1; cbn [negb] in H.
  2:{ revert H. steps. intros H. inversion H; subst. discriminate. }
  destruct (service_load_links s1) as [ok2 s2] eqn:L2. destruct ok2; cbn [negb] in H.
  2:{ revert H. steps. intros H. inversion H; subst. discriminate. }
  unfold bind at 1 in H. rewrite verify_service_links_verdict in H.
  destruct (find (fun li => negb (key_resolves s2 (snd li)))
                 (link_keys (Service.links s2))) as [li |] eqn:Hfind.
  { inversion H; subst. discriminate. }
  apply bind_Ok_inv in H. destruct H as (o & q & Hloop & H).
  assert (Hb : base p1 = base p).
  { transitivity (base (logged p INFO (ServiceIntegrity (Service.id service))));
      [| reflexivity].
    apply (proj2 (tame_load_service_functions service)). now rewrite H0. }
  change (for_each (Service.functions s2)
                   (fun ff => each_file fuel (Function.filename (snd ff))) p1
          = Ok o q) in Hloop.
  rewrite <- (for_each_map (fun ff => Function.filename (snd ff))) in Hloop.
  destruct o as [v |].
  { apply directory_stops in Hloop. subst v. inversion H; subst. discriminate. }
  inversion H; subst. clear H.
  exists r0, s0, s1, p1. do 4 (split; [assumption || reflexivity |]). split.
  - intros lid link iface Hl Hi.
    assert (Hin : In (lid, iface) (link_keys (Service.links s'))).
    { apply link_keys_In. exists link. auto. }
    apply (find_none _ _ Hfind) in Hin. cbn [snd] in Hin.
    now apply negb_false_iff in Hin.
  - intros fid function Hin.
    apply (directory_ran_through fuel _ p p1 p' Hb Hloop).
    apply in_map_iff. exists (fid, function). auto.
Qed.

End ServiceIntegrityTrue.

Lemma service_integrity_True_witness :
  exists r0 s0 s1 p1 s',
    _load_service_functions (E := Demo.externals) (Store.s_entity Demo.chain)
      (logged (fresh Demo.validator) INFO
              (ServiceIntegrity (Service.id (Store.s_entity Demo.chain))))
    = Ok (r0, s0) p1 /\
    truthy r0 = true /\
    @service_load_interfaces Demo.externals s0 = (true, s1) /\
    @service_load_links Demo.externals s1 = (true, s') /\
    (forall lid link iface,
        In (lid, link) (Service.links s') -> In iface (pair_items link) ->
        key_resolves (E := Demo.externals) s' iface = true) /\
    (forall fid function,
        In (fid, function) (Service.functions s') ->
        exists v q,
          validate_function (E := Demo.externals) 1 (Function.filename function)
                            (fresh Demo.validator) = Ok v q /\
          truthy v = true).
Proof.
  assert (H : _validate_service_integrity (E := Demo.externals) 1
                                          (Store.s_entity Demo.chain) (fresh Demo.validator)
              = Ok (True_, _) _) by (vm_compute; reflexivity).
  destruct (@service_integrity_True Demo.externals _ _ _ _ _ _ H eq_refl)
    as (r0 & s0 & s1 & p1 & K).
  exists r0, s0, s1, p1. eexists. exact K.
Defined.
